(** * cleanipy: duplicate detection, consolidation and size formatting

    A shallow embedding of

      - [cleanipy/utils/size_utils.py]
            ([format_size], [parse_size], [get_size_distribution]),
      - [cleanipy/utils/file_utils.py]
            ([get_file_size], [get_file_hash], [get_directory_size],
             [find_files_by_extension], [is_file_older_than]),
      - [cleanipy/analyzers/duplicate_analyzer.py]
            ([find_duplicate_files_by_size], [find_duplicate_files_by_content],
             [analyze_duplicate_files], [get_duplicate_sets]),
      - [cleanipy/analyzers/disk_analyzer.py]
            ([find_large_files], [get_file_types_summary]),
      - [cleanipy/analyzers/temp_analyzer.py]   ([analyze_temp_files]),
      - [cleanipy/cleaners/duplicate_cleaner.py]
            ([clean_duplicate_files], [replace_duplicates_with_hardlinks],
             [replace_duplicates_with_symlinks]),

    together with the properties the specification states about them and
    further properties of the code (marked X1, X2, ...).

    Conventions.
      - A Python [dict] is an association list in insertion order (Python
        dictionaries iterate in insertion order, and the code iterates them).
      - Byte counts are [N]; thresholds and time stamps are [Z].
      - Code that can raise returns a [result]; code that calls the operating
        system threads the file system explicitly and logs every call. *)

From Stdlib Require Import ZArith NArith String Ascii List Bool Lia.
From Stdlib Require Import Permutation Sorted DecimalString DecimalN.
From stdpp Require Import gmap strings.

Import ListNotations.
Local Open Scope string_scope.
Local Open Scope list_scope.

(* ===================================================================== *)
(** * Size utilities ([cleanipy/utils/size_utils.py]) *)
(* ===================================================================== *)

Module SizeUtils.

(** Python computes here with floats, which are IEEE 754 binary64 numbers.
    Every float that occurs is zero or positive, and the embedding keeps the
    floats themselves: a mantissa below [2 ^ 53] and a binary exponent, or
    infinity.
    - The conversion of an integer to a float, [float (text)], the true
      division of two integers, and the product and the quotient of two
      floats are correctly rounded in CPython: each returns the float nearest
      to the exact value, ties going to the even mantissa, and infinity from
      [2 ^ 1024 - 2 ^ 970] on ([nearest]).
    - [f"{v:.2f}"] and [int (v)] work on the exact value of the float [v].
    - [math.log] calls the [log] of the C library.  It is taken to return
      the float nearest to the natural logarithm, as the library does on the
      integers tried; the logarithm is computed from 300 binary digits of
      its series ([libm_log]).
    Sizes are sizes of files: an integer so large that its quotient by the
    unit is no float ([2 ^ 1074] and more), for which the division of
    [format_size] raises [OverflowError], is outside the model
    ([format_size] prints that quotient as infinite). *)

Definition units : list string := ["B"; "KB"; "MB"; "GB"; "TB"; "PB"].

(** [str (n)] for a non-negative integer. *)
Definition str_of_N (n : N) : string :=
NilEmpty.string_of_uint (N.to_uint n).

(** ** Floats *)

(** [Finite m e] is the float [m * 2 ^ e]. *)
Inductive float : Type :=
| Finite (m : N) (e : Z)
| Infinity.

(** [num / den] rounded to the nearest integer, ties to the even one. *)
Definition round_half_even (num den : N) : N :=
let q := (num / den)%N in
let r := (num mod den)%N in
match (2 * r ?= den)%N with
| Lt => q
| Gt => (q + 1)%N
| Eq => if N.even q then q else (q + 1)%N
end.

(** The fraction [num / (den * 2 ^ e)]. *)
Definition scaled (num den : N) (e : Z) : N * N :=
if (0 <=? e)%Z then (num, (den * 2 ^ Z.to_N e)%N)
else ((num * 2 ^ Z.to_N (- e))%N, den).

(** The float nearest to [num / den], for [den] not zero: the exponent [e] is
    the one for which [num / den / 2 ^ e] lies between [2 ^ 52] and [2 ^ 53],
    and not less than -1074 (below, floats are subnormal); the mantissa is
    the nearest integer, ties to even. *)
Definition nearest (num den : N) : float :=
if (num =? 0)%N then Finite 0 (-1074)
else
  let e0 := (Z.of_N (N.log2 num) - Z.of_N (N.log2 den) - 52)%Z in
  let '(a, b) := scaled num den e0 in
  let e1 := if (a <? b * 2 ^ 52)%N then (e0 - 1)%Z else e0 in
  let e := Z.max e1 (-1074) in
  let '(a, b) := scaled num den e in
  let m := round_half_even a b in
  let '(m, e) := if (m =? 2 ^ 53)%N then ((2 ^ 52)%N, (e + 1)%Z) else (m, e) in
  if (971 <? e)%Z then Infinity else Finite m e.

(** [float (n)] for an integer. *)
Definition float_of_int (n : N) : float := nearest n 1.

(** [x * y] and [x / y] of two floats. *)
Definition float_mul (x y : float) : float :=
match x, y with
| Finite mx ex, Finite my ey =>
    let '(a, b) := scaled (mx * my) 1 (- (ex + ey)) in nearest a b
| _, _ => Infinity
end.

Definition float_div (x y : float) : float :=
match x, y with
| Finite mx ex, Finite my ey =>
    let '(a, b) := scaled mx my (ey - ex) in nearest a b
| Finite _ _, Infinity => Finite 0 (-1074)
| Infinity, _ => Infinity
end.

(** [math.floor (x)] and [int (x)]: the integer part; infinity raises
    [OverflowError]. *)
Definition float_floor (x : float) : option N :=
match x with
| Finite m e =>
    Some (if (0 <=? e)%Z then m * 2 ^ Z.to_N e else m / 2 ^ Z.to_N (- e))%N
| Infinity => None
end.

(** ** [math.log] *)

(** The sum of the first [terms] terms of the series of the inverse
    hyperbolic tangent, [z + z ^ 3 / 3 + z ^ 5 / 5 + ..], in units of
    [2 ^ -300]; [t] is the current power of [z], [z2n / z2d] the square of
    [z], [i] the index of the term. *)
Fixpoint atanh_series (terms : nat) (i t z2n z2d : N) : N :=
match terms with
| O => 0%N
| S terms' =>
    (t / (2 * i + 1) + atanh_series terms' (i + 1) (t * z2n / z2d) z2n z2d)%N
end.

Definition atanh_fixed (num den : N) : N :=
atanh_series 100 0 (num * 2 ^ 300 / den) (num * num) (den * den).

(** The natural logarithm of 2 is twice the inverse hyperbolic tangent of
    1/3. *)
Definition ln2_fixed : N := Eval vm_compute in (2 * atanh_fixed 1 3)%N.

(** The natural logarithm of [m * 2 ^ e], in units of [2 ^ -300], for a
    float that is at least 1: with [m = y * 2 ^ k] and [1 <= y < 2] it is
    [(e + k) * ln 2 + 2 * atanh ((y - 1) / (y + 1))]. *)
Definition ln_fixed (m : N) (e : Z) : N :=
let k := N.log2 m in
(Z.to_N (e + Z.of_N k) * ln2_fixed
 + 2 * atanh_fixed (m - 2 ^ k) (m + 2 ^ k))%N.

(** [log (x)] of the C library, for a float that is at least 1. *)
Definition libm_log (x : float) : float :=
match x with
| Finite m e => nearest (ln_fixed m e) (2 ^ 300)
| Infinity => Infinity
end.

(** [math.log (x, base)] for two integers: the quotient of the two
    logarithms. *)
Definition math_log (x base : N) : float :=
float_div (libm_log (float_of_int x)) (libm_log (float_of_int base)).

(** ** [format_size] *)

(** [min (5, math.floor (math.log (size_bytes, 1024)))].  An integer too
    large for a float has a logarithm far above 5. *)
Definition unit_index (size_bytes : N) : N :=
match float_floor (math_log size_bytes 1024) with
| Some k => N.min 5 k
| None => 5%N
end.

(** The number of hundredths that [f"{v:.2f}"] prints: the exact value of
    [v] times 100, rounded to the nearest integer, ties to even. *)
Definition hundredths (v : float) : option N :=
match v with
| Finite m e =>
    Some (if (0 <=? e)%Z then 100 * m * 2 ^ Z.to_N e
          else round_half_even (100 * m) (2 ^ Z.to_N (- e)))%N
| Infinity => None
end.

(** Two decimal digits, zero padded. *)
Definition two_digits (n : N) : string :=
if (n <? 10)%N then "0" ++ str_of_N n else str_of_N n.

(** [f"{v:.2f}"]. *)
Definition fixed2 (v : float) : string :=
match hundredths v with
| Some h => str_of_N (h / 100) ++ "." ++ two_digits (h mod 100)
| None => "inf"
end.

(** [f"{int (v)}"]. *)
Definition integer_part (v : float) : string :=
match float_floor v with
| Some i => str_of_N i
| None => "inf"
end.

Definition format_size (size_bytes : N) : string :=
if (size_bytes =? 0)%N then "0 B"
else
  let unit_index := unit_index size_bytes in
  let size_value := nearest size_bytes (1024 ^ unit_index) in
  if (unit_index =? 0)%N
  then integer_part size_value ++ " " ++ nth (N.to_nat unit_index) units ""
  else fixed2 size_value ++ " " ++ nth (N.to_nat unit_index) units "".

(** ** [parse_size] *)

(** The exceptions of [parse_size]: three [ValueError]s, and the
    [OverflowError] of [int] on an infinite float. *)
Inductive size_error : Type :=
| InvalidSizeFormat (s : string)
| UnknownUnit (u : string)
| InvalidFloat (s : string)
| InfiniteFloat.

Definition is_space (c : ascii) : bool :=
let n := nat_of_ascii c in
((9 <=? n) && (n <=? 13) || (28 <=? n) && (n <=? 32))%nat.

Definition is_digit (c : ascii) : bool :=
let n := nat_of_ascii c in ((48 <=? n) && (n <=? 57))%nat.

Definition is_dot (c : ascii) : bool := Ascii.eqb c ".".

Definition is_upper (c : ascii) : bool :=
let n := nat_of_ascii c in ((65 <=? n) && (n <=? 90))%nat.

Definition is_lower (c : ascii) : bool :=
let n := nat_of_ascii c in ((97 <=? n) && (n <=? 122))%nat.

Definition upper_char (c : ascii) : ascii :=
if is_lower c then ascii_of_nat (nat_of_ascii c - 32) else c.

(** [s.upper ()] on ASCII text. *)
Fixpoint upper (s : string) : string :=
match s with
| EmptyString => EmptyString
| String c s' => String (upper_char c) (upper s')
end.

Fixpoint lstrip (s : string) : string :=
match s with
| EmptyString => EmptyString
| String c s' => if is_space c then lstrip s' else s
end.

(** Drops trailing white space: a character is kept when something that is
  not white space follows it or it is itself not white space. *)
Fixpoint rstrip (s : string) : string :=
match s with
| EmptyString => EmptyString
| String c s' =>
    match rstrip s' with
    | EmptyString => if is_space c then EmptyString else String c EmptyString
    | r => String c r
    end
end.

(** [s.strip ()]. *)
Definition strip (s : string) : string := rstrip (lstrip s).

(** The longest prefix of characters satisfying [p], and the rest. *)
Fixpoint span (p : ascii -> bool) (s : string) : string * string :=
match s with
| EmptyString => (EmptyString, EmptyString)
| String c s' =>
    if p c then let '(a, b) := span p s' in (String c a, b)
    else (EmptyString, s)
end.

Fixpoint all_chars (p : ascii -> bool) (s : string) : bool :=
match s with
| EmptyString => true
| String c s' => p c && all_chars p s'
end.

(** [re.match (r"^([\d.]+)\s*([A-Z]+)$", s)]: the three character classes are
  pairwise disjoint, so the greedy match is the only candidate. *)
Definition match_size (s : string) : option (string * string) :=
let '(value, rest) := span (fun c => is_digit c || is_dot c) s in
let '(_, unit) := span is_space rest in
match value, unit with
| EmptyString, _ => None
| _, EmptyString => None
| _, _ => if all_chars is_upper unit then Some (value, unit) else None
end.

(** The [units] dictionary of [parse_size]. *)
Definition unit_multiplier (u : string) : option N :=
if String.eqb u "B" then Some 1%N
else if String.eqb u "KB" then Some 1024%N
else if String.eqb u "MB" then Some (1024 ^ 2)%N
else if String.eqb u "GB" then Some (1024 ^ 3)%N
else if String.eqb u "TB" then Some (1024 ^ 4)%N
else if String.eqb u "PB" then Some (1024 ^ 5)%N
else None.

(** The value of a run of decimal digits ([None] when a character is not a
  digit). *)
Definition digits_value (s : string) : option N :=
option_map N.of_uint (NilEmpty.uint_of_string s).

(** The number a text matching [[\d.]+] stands for, as a fraction
  [(numerator, denominator)], when [float] accepts the text: at most one dot
  and at least one digit. *)
Definition decimal_of (value : string) : option (N * N) :=
let '(ip, rest) := span is_digit value in
match rest with
| EmptyString =>
    match digits_value ip with
    | Some i => Some (i, 1%N)
    | None => None
    end
| String _ fp =>
    if all_chars is_digit fp
       && negb ((String.length ip =? 0)%nat && (String.length fp =? 0)%nat)
    then
      match digits_value ip, digits_value fp with
      | Some i, Some f =>
          let den := (10 ^ N.of_nat (String.length fp))%N in
          Some ((i * den + f)%N, den)
      | _, _ => None
      end
    else None
end.

(** [float (value)] for [value] matching [[\d.]+]: the float nearest to the
  number ([None] for the [ValueError]). *)
Definition float_of (value : string) : option float :=
match decimal_of value with
| Some (num, den) => Some (nearest num den)
| None => None
end.

(** [int (float (value) * units[unit])]: the multiplier becomes a float, the
  product is rounded, [int] takes its integer part. *)
Definition parse_size (size_str : string) : size_error + N :=
let size_str := upper (strip size_str) in
match match_size size_str with
| None => inl (InvalidSizeFormat size_str)
| Some (value, unit) =>
    match unit_multiplier unit with
    | None => inl (UnknownUnit unit)
    | Some m =>
        match float_of value with
        | None => inl (InvalidFloat value)
        | Some x =>
            match float_floor (float_mul x (float_of_int m)) with
            | Some n => inr n
            | None => inl InfiniteFloat
            end
        end
    end
end.

End SizeUtils.

(* ===================================================================== *)
(** * Python dictionaries of lists ([collections.defaultdict (list)]) *)
(* ===================================================================== *)

Section Dict.
Context {K A : Type} `{EqDecision K}.

(** [d.get (k)]. *)
Fixpoint dict_get (k : K) (d : list (K * A)) : option A :=
  match d with
  | [] => None
  | (k', v) :: d' => if decide (k' = k) then Some v else dict_get k d'
  end.

(** [d[k].append (v)] on a [defaultdict (list)]: an existing key keeps its
    position and its list grows at the end; a new key is inserted last. *)
Fixpoint dict_append (k : K) (v : A) (d : list (K * list A))
  : list (K * list A) :=
  match d with
  | [] => [(k, [v])]
  | (k', vs) :: d' =>
      if decide (k' = k) then (k', vs ++ [v]) :: d'
      else (k', vs) :: dict_append k v d'
  end.

(** [{k: vs for k, vs in d.items () if len (vs) > 1}]. *)
Definition more_than_one (d : list (K * list A)) : list (K * list A) :=
  List.filter (fun e => (1 <? length (snd e))%nat) d.

(** The [(key, value)] pairs of a dictionary of lists, in iteration order. *)
Definition items_flat (d : list (K * list A)) : list (K * A) :=
  flat_map (fun e => map (pair (fst e)) (snd e)) d.

(** The values filed under [k] in a sequence of [(key, value)] pairs. *)
Definition values_of (k : K) (kvs : list (K * A)) : list A :=
  map snd (List.filter (fun kv => bool_decide (fst kv = k)) kvs).
End Dict.

(* ===================================================================== *)
(** * The operating system as seen by the program *)
(* ===================================================================== *)

(** What a call of the progress callback raises, by the handlers that catch
    it: an [OSError] or an exception of one of its subclasses, with the text
    [str (e)]; another [Exception]; an exception that is no [Exception]
    ([KeyboardInterrupt], [SystemExit]). *)
Inductive raised : Type :=
| RaisedOSError (msg : string)
| RaisedException (name : string)
| RaisedBaseException (name : string).

(** The exceptions that leave a function: the [OSError] of a probe, the
    [IndexError] of an index, and what the callback raised and no handler
    caught. *)
Inductive exn : Type :=
| OSError (msg : string)
| IndexError
| Escaped (e : raised).

Inductive result (A : Type) : Type :=
| Ok (a : A)
| Raise (e : exn).
Arguments Ok {A} a.
Arguments Raise {A} e.

(** The calls the program makes into [os], [os.path], [hashlib] and
    [send2trash], over a type [W] of file-system states.  A query returns
    [inl msg] when the call raises an [OSError]; a mutation returns the new
    state together with [Some msg] when it raises. *)
Class OS (W : Type) : Type := {
  (** the paths [os.path.join (dirpath, filename)] in the order in which
      [os.walk (directory)] yields them *)
  os_walk : string -> W -> list string;
  os_path_islink : string -> W -> bool;
  os_path_getsize : string -> W -> string + N;
  os_path_getmtime : string -> W -> string + Z;
  os_path_abspath : string -> W -> string;
  (** the bytes [open (path, 'rb')] delivers *)
  read_bytes : string -> W -> string + string;
  (** [hashlib.sha256 (data).hexdigest ()] *)
  sha256_hex : string -> string;
  send2trash : string -> W -> option string * W;
  os_remove : string -> W -> option string * W;
  os_link : string -> string -> W -> option string * W;
  os_symlink : string -> string -> W -> option string * W
}.

(* ===================================================================== *)
(** * File probes ([cleanipy/utils/file_utils.py]) *)
(* ===================================================================== *)

Section FileUtils.
Context {W : Type} `{!OS W}.

(** [FileNotFoundError] and [PermissionError] are answered with 0 (the call
    is taken to raise nothing else). *)
Definition get_file_size (file_path : string) (w : W) : N :=
  match os_path_getsize file_path w with
  | inr n => n
  | inl _ => 0%N
  end.

(** The file is read in blocks of 65536 bytes that are fed to one hasher, so
    the digest is that of the whole content; an unreadable file yields the
    empty string. *)
Definition get_file_hash (file_path : string) (w : W) : string :=
  match read_bytes file_path w with
  | inr data => sha256_hex data
  | inl _ => ""
  end.
End FileUtils.

(* ===================================================================== *)
(** * Duplicate detection ([cleanipy/analyzers/duplicate_analyzer.py]) *)
(* ===================================================================== *)

(** The dictionaries [{"path": .., "size_bytes": .., "size": ..}]. *)
Record file_info : Type := FileInfo {
  path : string;
  size_bytes : N;
  size : string
}.

#[global] Instance file_info_eq_dec : EqDecision file_info.
Proof. solve_decision. Defined.

Section DuplicateAnalyzer.
Context {W : Type} `{!OS W}.

(** The body of the loop over the walked files (lines 27-40). *)
Definition size_step (min_size : Z) (w : W)
    (size_dict : list (N * list string)) (file_path : string)
  : list (N * list string) :=
  if os_path_islink file_path w then size_dict
  else
    let size := get_file_size file_path w in
    if (min_size <=? Z.of_N size)%Z
    then dict_append size file_path size_dict
    else size_dict.

Definition find_duplicate_files_by_size
    (directory : string) (min_size : Z) (w : W) : list (N * list string) :=
  let size_dict := fold_left (size_step min_size w) (os_walk directory w) [] in
  more_than_one size_dict.

(** The body of the inner loop (lines 65-77).  The second component of the
    accumulator lists the paths handed to [get_file_hash], in call order. *)
Definition hash_step (w : W) (size : N)
    (acc : list (string * list file_info) * list string) (file_path : string)
  : list (string * list file_info) * list string :=
  let '(hash_dict, hashed) := acc in
  let file_hash := get_file_hash file_path w in
  let hashed := hashed ++ [file_path] in
  if String.eqb file_hash "" then (hash_dict, hashed)
  else
    (dict_append file_hash
       {| path := file_path; size_bytes := size;
          size := SizeUtils.format_size size |} hash_dict,
     hashed).

(** [find_duplicate_files_by_content] together with the log of the files
    that were hashed. *)
Definition find_duplicate_files_by_content_logged
    (directory : string) (min_size : Z) (w : W)
  : list (string * list file_info) * list string :=
  let size_dict := find_duplicate_files_by_size directory min_size w in
  let '(hash_dict, hashed) :=
    fold_left (fun acc e => fold_left (hash_step w (fst e)) (snd e) acc)
              size_dict ([], []) in
  (more_than_one hash_dict, hashed).

Definition find_duplicate_files_by_content
    (directory : string) (min_size : Z) (w : W)
  : list (string * list file_info) :=
  fst (find_duplicate_files_by_content_logged directory min_size w).

(** The files [get_file_hash] is called on during detection. *)
Definition hashed_files (directory : string) (min_size : Z) (w : W)
  : list string :=
  snd (find_duplicate_files_by_content_logged directory min_size w).
End DuplicateAnalyzer.

(* ===================================================================== *)
(** * Consolidation ([cleanipy/cleaners/duplicate_cleaner.py]) *)
(* ===================================================================== *)

(** One entry of [result["details"]].  The delete strategy writes the keys
    [path, size_bytes, size, success, error]; the link strategies write
    [source, target, size_bytes, size, success, error].  [d_target] holds the
    processed member ([path], respectively [target]); [d_source] is [None]
    for the delete strategy; [d_error] is [None] when the key is absent. *)
Record detail : Type := Detail {
  d_source : option string;
  d_target : string;
  d_size_bytes : N;
  d_size : string;
  d_success : bool;
  d_error : option string
}.

(** The dictionary the three functions return.  [total_size] is set when the
    loops are over and is empty before. *)
Record cleaning_result : Type := CleaningResult {
  total_size_bytes : N;
  total_count : nat;
  details : list detail;
  total_size : string
}.

(** The calls that change the file system, with the message of the exception
    they raised, if any. *)
Inductive event : Type :=
| Send2trash (file_path : string) (err : option string)
| Remove (file_path : string) (err : option string)
| Link (source_file target_file : string) (err : option string)
| Symlink (link_target target_file : string) (err : option string).

(** The state a consolidation run threads through its loops: the file
    system, the log of mutating calls, the state of the progress reporter and
    the [result] dictionary under construction. *)
Record state (W C : Type) : Type := State {
  world : W;
  calls : list event;
  progress : C;
  res : cleaning_result
}.
Arguments State {W C} _ _ _ _.
Arguments world {W C} _.
Arguments calls {W C} _.
Arguments progress {W C} _.
Arguments res {W C} _.

(** What a run leaves behind: the returned dictionary or the exception that
    escaped, the file system, the log of calls and the reporter's state. *)
Record outcome (W C : Type) : Type := Outcome {
  returned : result cleaning_result;
  final_world : W;
  os_calls : list event;
  final_progress : C
}.
Arguments Outcome {W C} _ _ _ _.
Arguments returned {W C} _.
Arguments final_world {W C} _.
Arguments os_calls {W C} _.
Arguments final_progress {W C} _.

Section Sorting.
Context {A : Type}.

(** Insertion into a list sorted by decreasing key, before the first
    element whose key is not larger: elements with equal keys keep the order
    in which they are inserted from the right. *)
Fixpoint insert_desc (x : Z * A) (l : list (Z * A)) : list (Z * A) :=
  match l with
  | [] => [x]
  | y :: l' =>
      if (fst x <? fst y)%Z then y :: insert_desc x l' else x :: l
  end.

(** The stable sort by decreasing key that [sorted (.., reverse=True)]
    performs on the decorated list. *)
Definition sort_desc (l : list (Z * A)) : list (Z * A) :=
  fold_right insert_desc [] l.

(** [l[-1]]. *)
Definition last_item (l : list A) : result A :=
  match List.last (map Some l) None with
  | Some x => Ok x
  | None => Raise IndexError
  end.

(** [l[0]]. *)
Definition first_item (l : list A) : result A :=
  match l with
  | x :: _ => Ok x
  | [] => Raise IndexError
  end.
End Sorting.

Section DuplicateCleaner.
Context {W C : Type} `{!OS W}.

(** The keys [os.path.getmtime (x["path"])], computed for every element in
    order; the first call that raises ends the computation. *)
Fixpoint decorate (files : list file_info) (w : W)
  : result (list (Z * file_info)) :=
  match files with
  | [] => Ok []
  | x :: files' =>
      match os_path_getmtime (path x) w with
      | inl msg => Raise (OSError msg)
      | inr t =>
          match decorate files' w with
          | Ok l => Ok ((t, x) :: l)
          | Raise e => Raise e
          end
      end
  end.

(** [sorted (files, key=lambda x: os.path.getmtime (x["path"]),
    reverse=True)]. *)
Definition files_sorted (files : list file_info) (w : W)
  : result (list file_info) :=
  match decorate files w with
  | Ok l => Ok (map snd (sort_desc l))
  | Raise e => Raise e
  end.

(** [files_sorted[1:] if keep_newest else files_sorted[:-1]]. *)
Definition files_to_remove (keep_newest : bool) (sorted : list file_info)
  : list file_info :=
  if keep_newest then tail sorted else removelast sorted.

(** [files_sorted[0]["path"] if keep_newest else files_sorted[-1]["path"]]. *)
Definition source_file (keep_newest : bool) (sorted : list file_info)
  : result string :=
  match (if keep_newest then first_item sorted else last_item sorted) with
  | Ok x => Ok (path x)
  | Raise e => Raise e
  end.

(** [if callback: callback (file_path)]. *)
Definition notify (callback : option (string -> C -> C))
    (file_path : string) (c : C) : C :=
  match callback with
  | Some f => f file_path c
  | None => c
  end.

(** The three statements that follow a successful operation: both totals
    grow, a detail with [success = True] is appended, the callback runs. *)
Definition record_success (callback : option (string -> C -> C))
    (source : option string) (fi : file_info) (w : W) (log : list event)
    (st : state W C) : state W C :=
  let r := res st in
  State w log (notify callback (path fi) (progress st))
    {| total_size_bytes := total_size_bytes r + size_bytes fi;
       total_count := S (total_count r);
       details := details r ++
         [{| d_source := source; d_target := path fi;
             d_size_bytes := size_bytes fi; d_size := size fi;
             d_success := true; d_error := None |}];
       total_size := total_size r |}.

(** The handler of the last [except]: a detail with [success = False] and
    the message of the exception is appended; nothing else changes. *)
Definition record_failure (source : option string) (fi : file_info)
    (msg : string) (w : W) (log : list event) (st : state W C)
  : state W C :=
  let r := res st in
  State w log (progress st)
    {| total_size_bytes := total_size_bytes r;
       total_count := total_count r;
       details := details r ++
         [{| d_source := source; d_target := path fi;
             d_size_bytes := size_bytes fi; d_size := size fi;
             d_success := false; d_error := Some msg |}];
       total_size := total_size r |}.

(** Lines 47-90: [send2trash], and [os.remove] in the handler of its
    failure. *)
Definition delete_member (callback : option (string -> C -> C))
    (st : state W C) (fi : file_info) : state W C :=
  let file_path := path fi in
  let '(e1, w1) := send2trash file_path (world st) in
  let log1 := calls st ++ [Send2trash file_path e1] in
  match e1 with
  | None => record_success callback None fi w1 log1 st
  | Some _ =>
      let '(e2, w2) := os_remove file_path w1 in
      let log2 := log1 ++ [Remove file_path e2] in
      match e2 with
      | None => record_success callback None fi w2 log2 st
      | Some msg => record_failure None fi msg w2 log2 st
      end
  end.

(** Lines 133-165: [os.remove] then [os.link]. *)
Definition hardlink_member (callback : option (string -> C -> C))
    (source : string) (st : state W C) (fi : file_info) : state W C :=
  let target_file := path fi in
  let '(e1, w1) := os_remove target_file (world st) in
  let log1 := calls st ++ [Remove target_file e1] in
  match e1 with
  | Some msg => record_failure (Some source) fi msg w1 log1 st
  | None =>
      let '(e2, w2) := os_link source target_file w1 in
      let log2 := log1 ++ [Link source target_file e2] in
      match e2 with
      | None => record_success callback (Some source) fi w2 log2 st
      | Some msg => record_failure (Some source) fi msg w2 log2 st
      end
  end.

(** Lines 208-240: [os.remove] then [os.symlink] to the absolute path of the
    source. *)
Definition symlink_member (callback : option (string -> C -> C))
    (source : string) (st : state W C) (fi : file_info) : state W C :=
  let target_file := path fi in
  let '(e1, w1) := os_remove target_file (world st) in
  let log1 := calls st ++ [Remove target_file e1] in
  match e1 with
  | Some msg => record_failure (Some source) fi msg w1 log1 st
  | None =>
      let link_target := os_path_abspath source w1 in
      let '(e2, w2) := os_symlink link_target target_file w1 in
      let log2 := log1 ++ [Symlink link_target target_file e2] in
      match e2 with
      | None => record_success callback (Some source) fi w2 log2 st
      | Some msg => record_failure (Some source) fi msg w2 log2 st
      end
  end.

(** One iteration of the loop over [duplicates.items ()] in
    [clean_duplicate_files]. *)
Definition clean_group (keep_newest : bool)
    (callback : option (string -> C -> C))
    (st : state W C) (files : list file_info) : result (state W C) :=
  match files_sorted files (world st) with
  | Raise e => Raise e
  | Ok sorted =>
      Ok (fold_left (delete_member callback)
                    (files_to_remove keep_newest sorted) st)
  end.

(** One iteration of the loop over [duplicates.items ()] in the two link
    strategies; [member] is the body of the inner loop. *)
Definition link_group
    (member : string -> state W C -> file_info -> state W C)
    (keep_newest : bool) (st : state W C) (files : list file_info)
  : result (state W C) :=
  match files_sorted files (world st) with
  | Raise e => Raise e
  | Ok sorted =>
      match source_file keep_newest sorted with
      | Raise e => Raise e
      | Ok source =>
          Ok (fold_left (member source)
                        (files_to_remove keep_newest sorted) st)
      end
  end.

(** The loop over the groups.  An exception leaves the loop at once; the
    state reached so far stays as it is. *)
Fixpoint for_each_group
    (body : state W C -> list file_info -> result (state W C))
    (groups : list (string * list file_info)) (st : state W C)
  : option exn * state W C :=
  match groups with
  | [] => (None, st)
  | (_, files) :: groups' =>
      match body st files with
      | Raise e => (Some e, st)
      | Ok st' => for_each_group body groups' st'
      end
  end.

(** [if duplicates is None:
       duplicates = find_duplicate_files_by_content (directory)]. *)
Definition given_or_found (directory : string)
    (duplicates : option (list (string * list file_info))) (w : W)
  : list (string * list file_info) :=
  match duplicates with
  | Some d => d
  | None => find_duplicate_files_by_content directory 1024 w
  end.

(** The frame shared by the three functions: the empty result, the default
    for [duplicates], the loop, and [total_size] at the end. *)
Definition consolidate
    (body : state W C -> list file_info -> result (state W C))
    (directory : string)
    (duplicates : option (list (string * list file_info)))
    (w : W) (c : C) : outcome W C :=
  let result0 :=
    {| total_size_bytes := 0; total_count := 0; details := [];
       total_size := "" |} in
  let duplicates := given_or_found directory duplicates w in
  let '(e, st) := for_each_group body duplicates (State w [] c result0) in
  let r := res st in
  Outcome
    match e with
    | Some e => Raise e
    | None =>
        Ok {| total_size_bytes := total_size_bytes r;
              total_count := total_count r;
              details := details r;
              total_size := SizeUtils.format_size (total_size_bytes r) |}
    end
    (world st) (calls st) (progress st).

Definition clean_duplicate_files (directory : string)
    (duplicates : option (list (string * list file_info)))
    (keep_newest : bool) (callback : option (string -> C -> C))
    (w : W) (c : C) : outcome W C :=
  consolidate (clean_group keep_newest callback) directory duplicates w c.

Definition replace_duplicates_with_hardlinks (directory : string)
    (duplicates : option (list (string * list file_info)))
    (keep_newest : bool) (callback : option (string -> C -> C))
    (w : W) (c : C) : outcome W C :=
  consolidate (link_group (hardlink_member callback) keep_newest)
              directory duplicates w c.

Definition replace_duplicates_with_symlinks (directory : string)
    (duplicates : option (list (string * list file_info)))
    (keep_newest : bool) (callback : option (string -> C -> C))
    (w : W) (c : C) : outcome W C :=
  consolidate (link_group (symlink_member callback) keep_newest)
              directory duplicates w c.
End DuplicateCleaner.

(* ===================================================================== *)
(** * Consolidation with a callback that may raise *)
(* ===================================================================== *)

(** The three functions again, for any callback.  A call of the callback
    returns or raises, and changes the state of the progress reporter on the
    way; it is taken to leave the files alone.  The callback is called
    inside the [try] blocks, so what it raises meets their handlers:
    - under the delete strategy an [Exception] raised after a successful
      [send2trash] reaches [except Exception], whose handler calls
      [os.remove] on the file that is already in the trash;
    - in the handler of the delete strategy and under the link strategies an
      [OSError] reaches [except (PermissionError, FileNotFoundError,
      OSError)], whose handler appends a failing detail after the
      successful one;
    - anything else leaves the function: nothing is returned. *)
Module General.
Section DuplicateCleaner.
Context {W C : Type} `{!OS W}.

(** [if callback: callback (file_path)]: what the call raised, and the state
    of the reporter after it. *)
Definition notify (callback : option (string -> C -> option raised * C))
    (file_path : string) (c : C) : option raised * C :=
  match callback with
  | Some f => f file_path c
  | None => (None, c)
  end.

Definition success_detail (source : option string) (fi : file_info)
  : detail :=
  {| d_source := source; d_target := path fi;
     d_size_bytes := size_bytes fi; d_size := size fi;
     d_success := true; d_error := None |}.

Definition failure_detail (source : option string) (fi : file_info)
    (msg : string) : detail :=
  {| d_source := source; d_target := path fi;
     d_size_bytes := size_bytes fi; d_size := size fi;
     d_success := false; d_error := Some msg |}.

(** [result["total_size_bytes"] += ..; result["total_count"] += 1;
    result["details"].append ({.., "success": True})]. *)
Definition add_success (source : option string) (fi : file_info)
    (r : cleaning_result) : cleaning_result :=
  {| total_size_bytes := total_size_bytes r + size_bytes fi;
     total_count := S (total_count r);
     details := details r ++ [success_detail source fi];
     total_size := total_size r |}.

(** [result["details"].append ({.., "success": False, "error": str (e)})]. *)
Definition add_failure (source : option string) (fi : file_info)
    (msg : string) (r : cleaning_result) : cleaning_result :=
  {| total_size_bytes := total_size_bytes r;
     total_count := total_count r;
     details := details r ++ [failure_detail source fi msg];
     total_size := total_size r |}.

(** The statements that follow a successful operation in its [try] block:
    both totals grow, a detail with [success = True] is appended, the
    callback runs.  The first component is what the callback raised. *)
Definition record_success
    (callback : option (string -> C -> option raised * C))
    (source : option string) (fi : file_info) (w : W) (log : list event)
    (st : state W C) : option raised * state W C :=
  let '(e, c) := notify callback (path fi) (progress st) in
  (e, State w log c (add_success source fi (res st))).

(** The handler [except (PermissionError, FileNotFoundError, OSError) as e]
    for an exception [e] raised in its [try] block when the state was [st]:
    an [OSError] becomes a failing detail, anything else goes on to the
    caller. *)
Definition except_os_error (source : option string) (fi : file_info)
    (e : raised) (st : state W C) : option exn * state W C :=
  match e with
  | RaisedOSError msg =>
      (None,
       State (world st) (calls st) (progress st)
             (add_failure source fi msg (res st)))
  | _ => (Some (Escaped e), st)
  end.

(** The handler of [except Exception] (lines 66-90): [os.remove] and the
    statements of success in a [try] of their own. *)
Definition remove_fallback
    (callback : option (string -> C -> option raised * C))
    (st : state W C) (fi : file_info) : option exn * state W C :=
  let file_path := path fi in
  let '(e2, w2) := os_remove file_path (world st) in
  let log2 := calls st ++ [Remove file_path e2] in
  match e2 with
  | Some msg =>
      except_os_error None fi (RaisedOSError msg)
        (State w2 log2 (progress st) (res st))
  | None =>
      match record_success callback None fi w2 log2 st with
      | (None, st2) => (None, st2)
      | (Some e, st2) => except_os_error None fi e st2
      end
  end.

(** Lines 47-90.  The first component is the exception that leaves the
    function, if any. *)
Definition delete_member
    (callback : option (string -> C -> option raised * C))
    (st : state W C) (fi : file_info) : option exn * state W C :=
  let file_path := path fi in
  let '(e1, w1) := send2trash file_path (world st) in
  let log1 := calls st ++ [Send2trash file_path e1] in
  match e1 with
  | Some _ =>
      remove_fallback callback (State w1 log1 (progress st) (res st)) fi
  | None =>
      match record_success callback None fi w1 log1 st with
      | (None, st1) => (None, st1)
      | (Some (RaisedBaseException name), st1) =>
          (Some (Escaped (RaisedBaseException name)), st1)
      | (Some _, st1) => remove_fallback callback st1 fi
      end
  end.

(** Lines 133-165: [os.remove], [os.link] and the statements of success in
    one [try]. *)
Definition hardlink_member
    (callback : option (string -> C -> option raised * C))
    (source : string) (st : state W C) (fi : file_info)
  : option exn * state W C :=
  let target_file := path fi in
  let '(e1, w1) := os_remove target_file (world st) in
  let log1 := calls st ++ [Remove target_file e1] in
  match e1 with
  | Some msg =>
      except_os_error (Some source) fi (RaisedOSError msg)
        (State w1 log1 (progress st) (res st))
  | None =>
      let '(e2, w2) := os_link source target_file w1 in
      let log2 := log1 ++ [Link source target_file e2] in
      match e2 with
      | Some msg =>
          except_os_error (Some source) fi (RaisedOSError msg)
            (State w2 log2 (progress st) (res st))
      | None =>
          match record_success callback (Some source) fi w2 log2 st with
          | (None, st2) => (None, st2)
          | (Some e, st2) => except_os_error (Some source) fi e st2
          end
      end
  end.

(** Lines 208-240: [os.remove], [os.symlink] to the absolute path of the
    source and the statements of success in one [try]. *)
Definition symlink_member
    (callback : option (string -> C -> option raised * C))
    (source : string) (st : state W C) (fi : file_info)
  : option exn * state W C :=
  let target_file := path fi in
  let '(e1, w1) := os_remove target_file (world st) in
  let log1 := calls st ++ [Remove target_file e1] in
  match e1 with
  | Some msg =>
      except_os_error (Some source) fi (RaisedOSError msg)
        (State w1 log1 (progress st) (res st))
  | None =>
      let link_target := os_path_abspath source w1 in
      let '(e2, w2) := os_symlink link_target target_file w1 in
      let log2 := log1 ++ [Symlink link_target target_file e2] in
      match e2 with
      | Some msg =>
          except_os_error (Some source) fi (RaisedOSError msg)
            (State w2 log2 (progress st) (res st))
      | None =>
          match record_success callback (Some source) fi w2 log2 st with
          | (None, st2) => (None, st2)
          | (Some e, st2) => except_os_error (Some source) fi e st2
          end
      end
  end.

(** A [for] loop: an exception that leaves the body leaves the loop, with
    the state as the body left it. *)
Fixpoint for_each {A : Type}
    (body : state W C -> A -> option exn * state W C)
    (items : list A) (st : state W C) : option exn * state W C :=
  match items with
  | [] => (None, st)
  | x :: items' =>
      match body st x with
      | (Some e, st') => (Some e, st')
      | (None, st') => for_each body items' st'
      end
  end.

(** One iteration of the loop over [duplicates.items ()] in
    [clean_duplicate_files]. *)
Definition clean_group (keep_newest : bool)
    (callback : option (string -> C -> option raised * C))
    (st : state W C) (files : list file_info) : option exn * state W C :=
  match files_sorted files (world st) with
  | Raise e => (Some e, st)
  | Ok sorted =>
      for_each (delete_member callback)
               (files_to_remove keep_newest sorted) st
  end.

(** One iteration of the loop over [duplicates.items ()] in the two link
    strategies; [member] is the body of the inner loop. *)
Definition link_group
    (member : string -> state W C -> file_info -> option exn * state W C)
    (keep_newest : bool) (st : state W C) (files : list file_info)
  : option exn * state W C :=
  match files_sorted files (world st) with
  | Raise e => (Some e, st)
  | Ok sorted =>
      match source_file keep_newest sorted with
      | Raise e => (Some e, st)
      | Ok source =>
          for_each (member source) (files_to_remove keep_newest sorted) st
      end
  end.

(** The frame shared by the three functions: the empty result, the default
    for [duplicates], the loop, and [total_size] at the end. *)
Definition consolidate
    (body : state W C -> list file_info -> option exn * state W C)
    (directory : string)
    (duplicates : option (list (string * list file_info)))
    (w : W) (c : C) : outcome W C :=
  let result0 :=
    {| total_size_bytes := 0; total_count := 0; details := [];
       total_size := "" |} in
  let duplicates := given_or_found directory duplicates w in
  let '(e, st) :=
    for_each (fun st (item : string * list file_info) => body st (snd item))
             duplicates (State w [] c result0) in
  let r := res st in
  Outcome
    match e with
    | Some e => Raise e
    | None =>
        Ok {| total_size_bytes := total_size_bytes r;
              total_count := total_count r;
              details := details r;
              total_size := SizeUtils.format_size (total_size_bytes r) |}
    end
    (world st) (calls st) (progress st).

Definition clean_duplicate_files (directory : string)
    (duplicates : option (list (string * list file_info)))
    (keep_newest : bool)
    (callback : option (string -> C -> option raised * C))
    (w : W) (c : C) : outcome W C :=
  consolidate (clean_group keep_newest callback) directory duplicates w c.

Definition replace_duplicates_with_hardlinks (directory : string)
    (duplicates : option (list (string * list file_info)))
    (keep_newest : bool)
    (callback : option (string -> C -> option raised * C))
    (w : W) (c : C) : outcome W C :=
  consolidate (link_group (hardlink_member callback) keep_newest)
              directory duplicates w c.

Definition replace_duplicates_with_symlinks (directory : string)
    (duplicates : option (list (string * list file_info)))
    (keep_newest : bool)
    (callback : option (string -> C -> option raised * C))
    (w : W) (c : C) : outcome W C :=
  consolidate (link_group (symlink_member callback) keep_newest)
              directory duplicates w c.
End DuplicateCleaner.
End General.

(* ===================================================================== *)
(** * A file system *)
(* ===================================================================== *)

(** A model of the operating system interface: regular files and symbolic
    links under absolute paths, a working directory, entries that cannot be
    unlinked or created (read-only directories), a trash that may be
    unavailable, and devices that hard links cannot cross.  Paths are taken to
    be normalised. *)
Module FS.

Inductive node : Type :=
| Regular (data : string) (mtime : Z) (readable : bool)
| SymbolicLink (link_target : string).

Record t : Type := Make {
  nodes : gmap string node;
  cwd : string;
  (** the order in which a directory walk meets the entries *)
  enumeration : list string;
  protected : gset string;
  trash_available : bool;
  device : string -> nat
}.

Definition is_absolute (p : string) : bool :=
  match p with
  | String c _ => Ascii.eqb c "/"
  | EmptyString => false
  end.

Definition abspath (p : string) (w : t) : string :=
  if is_absolute p then p else cwd w ++ "/" ++ p.

Fixpoint has_slash (s : string) : bool :=
  match s with
  | EmptyString => false
  | String c s' => Ascii.eqb c "/" || has_slash s'
  end.

(** Everything before the last slash. *)
Fixpoint dirname (s : string) : string :=
  match s with
  | EmptyString => EmptyString
  | String c s' => if has_slash s' then String c (dirname s') else EmptyString
  end.

Fixpoint strip_prefix (pre s : string) : option string :=
  match pre, s with
  | EmptyString, _ => Some s
  | String a pre', String b s' =>
      if Ascii.eqb a b then strip_prefix pre' s' else None
  | String _ _, EmptyString => None
  end.

(** Follows symbolic links from the entry [key], at most [fuel] of them
    (the kernel gives up after 40); a relative target is taken from the
    directory of the link. *)
Fixpoint follow (fuel : nat) (w : t) (key : string)
  : option (string * Z * bool) :=
  match nodes w !! key with
  | None => None
  | Some (Regular data mtime readable) => Some (data, mtime, readable)
  | Some (SymbolicLink target) =>
      match fuel with
      | O => None
      | S fuel' =>
          follow fuel' w
            (if is_absolute target then target
             else dirname key ++ "/" ++ target)
      end
  end.

Definition stat (p : string) (w : t) : option (string * Z * bool) :=
  follow 40 w (abspath p w).

Definition not_found : string := "No such file or directory".
Definition denied : string := "Permission denied".

Definition walk (directory : string) (w : t) : list string :=
  flat_map
    (fun key =>
       match nodes w !! key, strip_prefix (abspath directory w ++ "/") key with
       | Some _, Some rest => [(directory ++ "/" ++ rest)%string]
       | _, _ => []
       end)
    (enumeration w).

Definition islink (p : string) (w : t) : bool :=
  match nodes w !! abspath p w with
  | Some (SymbolicLink _) => true
  | _ => false
  end.

Definition getsize (p : string) (w : t) : string + N :=
  match stat p w with
  | Some (data, _, _) => inr (N.of_nat (String.length data))
  | None => inl not_found
  end.

Definition getmtime (p : string) (w : t) : string + Z :=
  match stat p w with
  | Some (_, mtime, _) => inr mtime
  | None => inl not_found
  end.

Definition read (p : string) (w : t) : string + string :=
  match stat p w with
  | Some (data, _, true) => inr data
  | Some (_, _, false) => inl denied
  | None => inl not_found
  end.

Definition set_nodes (m : gmap string node) (w : t) : t :=
  {| nodes := m; cwd := cwd w; enumeration := enumeration w;
     protected := protected w; trash_available := trash_available w;
     device := device w |}.

(** [os.remove]: unlinks the entry itself, be it a file or a link. *)
Definition remove (p : string) (w : t) : option string * t :=
  let key := abspath p w in
  match nodes w !! key with
  | None => (Some not_found, w)
  | Some _ =>
      if bool_decide (key ∈ protected w) then (Some denied, w)
      else (None, set_nodes (delete key (nodes w)) w)
  end.

(** [send2trash]: as [remove] when there is a trash; the trashed file
    leaves the tree. *)
Definition trash (p : string) (w : t) : option string * t :=
  if trash_available w then remove p w
  else (Some "Trash is not available", w).

(** [os.link]: a second entry for the file [source] names. *)
Definition link (source target : string) (w : t) : option string * t :=
  let skey := abspath source w in
  let tkey := abspath target w in
  match nodes w !! skey, nodes w !! tkey with
  | None, _ => (Some not_found, w)
  | Some _, Some _ => (Some "File exists", w)
  | Some n, None =>
      if bool_decide (tkey ∈ protected w) then (Some denied, w)
      else if negb (device w skey =? device w tkey)%nat
      then (Some "Invalid cross-device link", w)
      else (None, set_nodes (<[tkey := n]> (nodes w)) w)
  end.

(** [os.symlink]: a new link entry; the target is stored as given. *)
Definition symlink (link_target target : string) (w : t)
  : option string * t :=
  let tkey := abspath target w in
  match nodes w !! tkey with
  | Some _ => (Some "File exists", w)
  | None =>
      if bool_decide (tkey ∈ protected w) then (Some denied, w)
      else (None, set_nodes (<[tkey := SymbolicLink link_target]> (nodes w)) w)
  end.

(** The interface the program sees, for a digest function [digest]. *)
Definition os (digest : string -> string) : OS t :=
  {| os_walk := walk;
     os_path_islink := islink;
     os_path_getsize := getsize;
     os_path_getmtime := getmtime;
     os_path_abspath := abspath;
     read_bytes := read;
     sha256_hex := digest;
     send2trash := trash;
     os_remove := remove;
     os_link := link;
     os_symlink := symlink |}.

(** A digest without collisions that stands in for SHA-256 where a
    concrete one is needed. *)
Definition tagged_digest (data : string) : string := "sha:" ++ data.

End FS.

(** ** Sample file systems *)

Module Samples.
Import FS.

Definition os : OS FS.t := FS.os FS.tagged_digest.

Definition kib (c : ascii) : string :=
  Eval vm_compute in
    fold_right String EmptyString (List.repeat c 1024).

(** The scenario of the specification: A and B hold 1024 times "x", C holds
    1024 times "y"; their time stamps are 0, 1 and 2. *)
Definition scenario : FS.t :=
  {| nodes := {[ "/d/A" := Regular (kib "x") 0 true;
                 "/d/B" := Regular (kib "x") 1 true;
                 "/d/C" := Regular (kib "y") 2 true ]};
     cwd := "/";
     enumeration := ["/d/A"; "/d/B"; "/d/C"];
     protected := ∅;
     trash_available := true;
     device := fun _ => O |}.

(** Small files: [a] and [b] are equal and equally old, [c] has their size
    and another content, [e] is shorter, [l] is a link to [a]. *)
Definition small_nodes : gmap string node :=
  {[ "/d/a" := Regular "xx" 5 true;
     "/d/b" := Regular "xx" 5 true;
     "/d/c" := Regular "yy" 7 true;
     "/d/e" := Regular "x" 1 true;
     "/d/l" := SymbolicLink "/d/a" ]}.

Definition small : FS.t :=
  {| nodes := small_nodes;
     cwd := "/";
     enumeration := ["/d/a"; "/d/b"; "/d/c"; "/d/e"; "/d/l"];
     protected := ∅;
     trash_available := true;
     device := fun _ => O |}.

(** The same files, met in another order by the walk. *)
Definition small_reordered : FS.t :=
  {| nodes := small_nodes;
     cwd := "/";
     enumeration := ["/d/b"; "/d/a"; "/d/c"; "/d/e"; "/d/l"];
     protected := ∅;
     trash_available := true;
     device := fun _ => O |}.

Definition info (p : string) (n : N) : file_info :=
  {| path := p; size_bytes := n; size := SizeUtils.format_size n |}.


Definition group_abc : list file_info :=
  [info "/d/a" 2; info "/d/b" 2; info "/d/c" 2].

(** Three copies of one content; [p] sits in a read-only directory and
    there is no trash. *)
Definition locked : FS.t :=
  {| nodes := {[ "/d/p" := Regular "zz" 1 true;
                 "/d/q" := Regular "zz" 2 true;
                 "/d/r" := Regular "zz" 3 true ]};
     cwd := "/";
     enumeration := ["/d/p"; "/d/q"; "/d/r"];
     protected := {[ "/d/p" ]};
     trash_available := false;
     device := fun _ => O |}.

Definition group_pqr : list (string * list file_info) :=
  [("sha:zz", [info "/d/p" 2; info "/d/q" 2; info "/d/r" 2])].

(** A progress callback that keeps the paths it is called with. *)
Definition remember : option (string -> list string -> list string) :=
  Some (fun file_path seen => seen ++ [file_path]).


(** What the symlink strategy returns on [scenario] when it looks for the
    duplicates itself and keeps the newest: A becomes a link to B. *)
Definition scenario_result : cleaning_result :=
  {| total_size_bytes := 1024;
     total_count := 1;
     details :=
       [{| d_source := Some "/d/B"; d_target := "/d/A";
           d_size_bytes := 1024; d_size := "1.00 KB"; d_success := true;
           d_error := None |}];
     total_size := "1.00 KB" |}.

(** Groups found by an earlier scan of [small]; [/d/gone] has been deleted
    since. *)
Definition stale_groups : list (string * list file_info) :=
  [("sha:xx", [info "/d/a" 2; info "/d/b" 2]);
   ("sha:yy", [info "/d/c" 2; info "/d/gone" 2]);
   ("sha:x", [info "/d/e" 1; info "/d/e2" 1])].
End Samples.

(* ===================================================================== *)
(** * Notions used to state the properties *)
(* ===================================================================== *)

Section GroupBy.
Context {K A : Type} `{EqDecision K}.

(** Filing a sequence of [(key, value)] pairs into a dictionary of lists. *)
Definition group_by (kvs : list (K * A)) (d : list (K * list A))
  : list (K * list A) :=
  fold_left (fun d kv => dict_append (fst kv) (snd kv) d) kvs d.

Definition nonempty (l : list A) : option (list A) :=
  match l with
  | [] => None
  | _ => Some l
  end.

(** [d] holds exactly the pairs [kvs]: the keys are distinct and each key is
    bound to the values filed under it, in their order. *)
Definition grouped (kvs : list (K * A)) (d : list (K * list A)) : Prop :=
  NoDup (map fst d) /\
  forall k, dict_get k d = nonempty (values_of k kvs).
End GroupBy.

Section DetectionNotions.
Context {W : Type} `{!OS W}.

(** A walked file is retained when it is not a symbolic link and its size
    reaches the threshold. *)
Definition retained (min_size : Z) (w : W) (file_path : string) : bool :=
  negb (os_path_islink file_path w)
  && (min_size <=? Z.of_N (get_file_size file_path w))%Z.

(** The retained files of a listing with their sizes, in walk order. *)
Definition candidates (min_size : Z) (w : W) (listing : list string)
  : list (N * string) :=
  flat_map
    (fun p => if retained min_size w p then [(get_file_size p w, p)] else [])
    listing.

(** The retained files of a listing whose size is [sz], in walk order: the
    size bucket of [sz] before the buckets with one file are dropped. *)
Definition size_bucket (min_size : Z) (w : W) (listing : list string)
    (sz : N) : list string :=
  List.filter
    (fun q => retained min_size w q && (get_file_size q w =? sz)%N)
    listing.

(** The records filed under their digests, for files [(size, path)] in
    hashing order; files whose digest is empty are left out. *)
Definition hash_pairs (w : W) (items : list (N * string))
  : list (string * file_info) :=
  flat_map
    (fun sp =>
       let h := get_file_hash (snd sp) w in
       if String.eqb h "" then []
       else [(h, {| path := snd sp; size_bytes := fst sp;
                    size := SizeUtils.format_size (fst sp) |})])
    items.

(** Two states show the same content under [directory]: the walk meets the
    same files, possibly in another order, and the probes answer alike. *)
Definition unchanged (directory : string) (w1 w2 : W) : Prop :=
  os_walk directory w1 ≡ₚ os_walk directory w2 /\
  forall p, p ∈ os_walk directory w1 ->
    os_path_islink p w1 = os_path_islink p w2 /\
    os_path_getsize p w1 = os_path_getsize p w2 /\
    read_bytes p w1 = read_bytes p w2.

(** The same groups, up to the order of the groups and of their members. *)
Definition same_groups (r1 r2 : list (string * list file_info)) : Prop :=
  map fst r1 ≡ₚ map fst r2 /\
  (forall h g1, (h, g1) ∈ r1 -> exists g2, (h, g2) ∈ r2 /\ g1 ≡ₚ g2) /\
  (forall h g2, (h, g2) ∈ r2 -> exists g1, (h, g1) ∈ r1 /\ g1 ≡ₚ g2).

(** The size the system reports for a readable file is the number of
    bytes that can be read from it. *)
Definition sizes_match_content (w : W) : Prop :=
  forall p data,
    read_bytes p w = inr data ->
    os_path_getsize p w = inr (N.of_nat (String.length data)).

(** The digest is taken to be free of collisions. *)
Definition collision_free : Prop :=
  forall d1 d2 : string, sha256_hex d1 = sha256_hex d2 -> d1 = d2.
End DetectionNotions.

Section ConsolidationNotions.
Context {W : Type} `{!OS W}.

(** The sort key of a member: its modification time (0 stands for a call
    that raises; the sort does not take place then). *)
Definition mtime_key (w : W) (x : file_info) : Z :=
  match os_path_getmtime (path x) w with
  | inr t => t
  | inl _ => 0%Z
  end.

(** The list [sorted] decorates before it sorts. *)
Definition keyed (w : W) (files : list file_info) : list (Z * file_info) :=
  map (fun x => (mtime_key w x, x)) files.

(** The members of [l] whose modification time is [t], in their order. *)
Definition with_mtime (w : W) (t : Z) (l : list file_info)
  : list file_info :=
  List.filter (fun x => (mtime_key w x =? t)%Z) l.

(** Modification times do not increase along [l]. *)
Definition newest_first (w : W) (l : list file_info) : Prop :=
  StronglySorted (fun a b => (mtime_key w b <= mtime_key w a)%Z) l.

(** [s] is the newest member of [files] and, among the newest ones, the
    first that was enumerated. *)
Definition first_newest (w : W) (files : list file_info) (s : file_info)
  : Prop :=
  exists before after,
    files = before ++ s :: after /\
    (forall m, m ∈ before -> (mtime_key w m < mtime_key w s)%Z) /\
    (forall m, m ∈ after -> (mtime_key w m <= mtime_key w s)%Z).

(** [s] is the oldest member of [files] and, among the oldest ones, the
    last that was enumerated. *)
Definition last_oldest (w : W) (files : list file_info) (s : file_info)
  : Prop :=
  exists before after,
    files = before ++ s :: after /\
    (forall m, m ∈ before -> (mtime_key w s <= mtime_key w m)%Z) /\
    (forall m, m ∈ after -> (mtime_key w s < mtime_key w m)%Z).
End ConsolidationNotions.


Section RunNotions.
Context {W C : Type} `{!OS W}.

(** The details of the members that were processed successfully. *)
Definition successes (ds : list detail) : list detail :=
  List.filter d_success ds.

Definition sum_sizes (ds : list detail) : N :=
  fold_right (fun d n => (d_size_bytes d + n)%N) 0%N ds.

(** The totals count exactly the successful details. *)
Definition tally_consistent (r : cleaning_result) : Prop :=
  total_count r = length (successes (details r)) /\
  total_size_bytes r = sum_sizes (successes (details r)).

(** What processing one member does to the result: the detail is appended,
    and it is added to the totals when it reports success. *)
Definition push (d : detail) (r : cleaning_result) : cleaning_result :=
  {| total_size_bytes :=
       if d_success d then (total_size_bytes r + d_size_bytes d)%N
       else total_size_bytes r;
     total_count :=
       if d_success d then S (total_count r) else total_count r;
     details := details r ++ [d];
     total_size := total_size r |}.

(** The calls made for one member of the delete strategy, and its detail:
    the trash first; [os.remove] if and only if the trash failed; failure,
    with the message of [os.remove], only when both failed. *)
Definition delete_attempt (d : detail) (chunk : list event) : Prop :=
  d_source d = None /\
  ((chunk = [Send2trash (d_target d) None] /\
    d_success d = true /\ d_error d = None) \/
   (exists e1,
      chunk = [Send2trash (d_target d) (Some e1);
               Remove (d_target d) None] /\
      d_success d = true /\ d_error d = None) \/
   (exists e1 e2,
      chunk = [Send2trash (d_target d) (Some e1);
               Remove (d_target d) (Some e2)] /\
      d_success d = false /\ d_error d = Some e2)).

(** The calls made for one member of a link strategy: [os.remove], then the
    creation of the link [mk source target] if the removal succeeded. *)
Definition link_attempt
    (mk : string -> string -> option string -> event -> Prop)
    (d : detail) (chunk : list event) : Prop :=
  exists source,
    d_source d = Some source /\
    ((exists ev,
        chunk = [Remove (d_target d) None; ev] /\
        mk source (d_target d) None ev /\
        d_success d = true /\ d_error d = None) \/
     (exists e,
        chunk = [Remove (d_target d) (Some e)] /\
        d_success d = false /\ d_error d = Some e) \/
     (exists e ev,
        chunk = [Remove (d_target d) None; ev] /\
        mk source (d_target d) (Some e) ev /\
        d_success d = false /\ d_error d = Some e)).

Definition hardlink_event (source target : string) (err : option string)
    (ev : event) : Prop :=
  ev = Link source target err.

(** The link is made to the absolute path of the source. *)
Definition symlink_event (source target : string) (err : option string)
    (ev : event) : Prop :=
  exists w : W, ev = Symlink (os_path_abspath source w) target err.

(** [st'] is reached from [st] by processing [members] one after the
    other: each member gets one detail, made by calls that follow the
    policy [P]; the callback has run, in order, for the members whose detail
    reports success and for no other. *)
Definition processes (P : detail -> list event -> Prop)
    (callback : option (string -> C -> C)) (members : list file_info)
    (st st' : state W C) : Prop :=
  exists ds chunks,
    Forall2 P ds chunks /\
    Forall2 (fun d fi => d_target d = path fi /\
                         d_size_bytes d = size_bytes fi /\
                         d_size d = size fi) ds members /\
    calls st' = calls st ++ concat chunks /\
    res st' = fold_left (fun r d => push d r) ds (res st) /\
    progress st' =
      fold_left (fun c d => notify callback (d_target d) c)
                (successes ds) (progress st).
End RunNotions.


Section Strategies.
Context {W C : Type} `{!OS W}.

Inductive strategy : Type := Delete | Hardlink | Softlink.

(** The function the menu calls for a strategy. *)
Definition run_strategy (s : strategy) :
    string -> option (list (string * list file_info)) -> bool ->
    option (string -> C -> C) -> W -> C -> outcome W C :=
  match s with
  | Delete => clean_duplicate_files
  | Hardlink => replace_duplicates_with_hardlinks
  | Softlink => replace_duplicates_with_symlinks
  end.

(** The loop body of a strategy. *)
Definition group_body (s : strategy) (keep_newest : bool)
    (callback : option (string -> C -> C))
  : state W C -> list file_info -> result (state W C) :=
  match s with
  | Delete => clean_group keep_newest callback
  | Hardlink => link_group (hardlink_member callback) keep_newest
  | Softlink => link_group (symlink_member callback) keep_newest
  end.

(** The policy the calls of a strategy follow. *)
Definition policy (s : strategy) : detail -> list event -> Prop :=
  match s with
  | Delete => delete_attempt
  | Hardlink => link_attempt hardlink_event
  | Softlink => link_attempt (symlink_event (W := W))
  end.



End Strategies.


Section FSNotions.

(** [p] names a regular file, not a link. *)
Definition is_regular (w : FS.t) (p : string) : Prop :=
  exists data mtime readable,
    FS.nodes w !! FS.abspath p w = Some (FS.Regular data mtime readable).

(** The entries the members of the groups stand for. *)
Definition member_keys (w : FS.t) (members : list file_info) : list string :=
  map (fun fi => FS.abspath (path fi) w) members.

Definition all_members (groups : list (string * list file_info))
  : list file_info :=
  concat (map snd groups).

(** Groups as the detection builds them: no file is listed twice, and every
    member is a regular file; the working directory is absolute. *)
Definition well_formed_groups (w : FS.t)
    (groups : list (string * list file_info)) : Prop :=
  FS.is_absolute (FS.cwd w) = true /\
  NoDup (member_keys w (all_members groups)) /\
  forall fi, fi ∈ all_members groups -> is_regular w (path fi).

(** The log shows [target] being removed and, in the next call, re-created as
    a symbolic link to [link_target]. *)
Definition relinks (log : list event) (link_target target : string) : Prop :=
  exists before after,
    log = before ++ [Remove target None; Symlink link_target target None]
                 ++ after.

(** [w'] differs from [w] at most in the entries [keys]. *)
Definition same_off (keys : list string) (w w' : FS.t) : Prop :=
  FS.cwd w' = FS.cwd w /\
  forall k, k ∉ keys -> FS.nodes w' !! k = FS.nodes w !! k.
End FSNotions.


Section SizeNotions.
Import SizeUtils.

(** [m] recovers [n] up to the rounding of the two-decimal format: exactly
    when [n] is printed in bytes, and otherwise within half a hundredth of
    the unit it is printed in, and one byte of truncation. *)
Definition within_roundingb (n m : N) : bool :=
  ((if unit_index n =? 0 then m =? n else true)
   && (200 * m <=? 200 * n + 1024 ^ unit_index n)
   && (200 * n <? 200 * m + 1024 ^ unit_index n + 200))%N.

(** Byte counts around every unit boundary, with and without fractions;
    among them [2 ^ 50 - 1], which is printed as "1.00 PB", and
    [2 ^ 53 + 1], which is no float. *)
Definition representative_sizes : list N :=
  [0; 1; 512; 1023; 1024; 1025; 1152; 1536; 10000; 1048575; 1048576;
   1572864; 123456789; 1073741823; 1073741824; 5368709120;
   1099511627775; 1099511627776; 1125899906842620; 1125899906842623;
   1125899906842624; 9007199254740993; 1152921504606846976]%N.

(** [parse_size (format_size (n))] returns and is within rounding of [n]. *)
Definition round_trips (n : N) : bool :=
  match parse_size (format_size n) with
  | inr m => within_roundingb n m
  | inl _ => false
  end.
End SizeNotions.


(* ===================================================================== *)
(** * The size histogram ([cleanipy/utils/size_utils.py], lines 74-107) *)
(* ===================================================================== *)

Section SizeDistribution.

(** [d[k] += 1] on a dictionary of counters: the entry keeps its place;
    [None] stands for the [KeyError] of a key that is not there. *)
Fixpoint dict_incr (k : string) (d : list (string * nat))
  : option (list (string * nat)) :=
  match d with
  | [] => None
  | (k', v) :: d' =>
      if decide (k' = k) then Some ((k', S v) :: d')
      else
        match dict_incr k d' with
        | Some d'' => Some ((k', v) :: d'')
        | None => None
        end
  end.

(** The dictionary [ranges] as lines 84-91 build it. *)
Definition initial_ranges : list (string * nat) :=
  [("< 1 KB", 0); ("1 KB - 1 MB", 0); ("1 MB - 10 MB", 0);
   ("10 MB - 100 MB", 0); ("100 MB - 1 GB", 0); ("> 1 GB", 0)].

(** The key the chain of comparisons of lines 94-105 selects. *)
Definition size_range (size : Z) : string :=
  if (size <? 1024)%Z then "< 1 KB"
  else if (size <? 1024 ^ 2)%Z then "1 KB - 1 MB"
  else if (size <? 10 * 1024 ^ 2)%Z then "1 MB - 10 MB"
  else if (size <? 100 * 1024 ^ 2)%Z then "10 MB - 100 MB"
  else if (size <? 1024 ^ 3)%Z then "100 MB - 1 GB"
  else "> 1 GB".

(** Sizes are Python integers, of either sign. *)
Definition get_size_distribution (sizes : list Z)
  : option (list (string * nat)) :=
  fold_left
    (fun ranges size =>
       match ranges with
       | Some d => dict_incr (size_range size) d
       | None => None
       end)
    sizes (Some initial_ranges).
End SizeDistribution.

(* ===================================================================== *)
(** * More file probes ([cleanipy/utils/file_utils.py]) *)
(* ===================================================================== *)

Section PathText.

(** [os.path.basename]: what follows the last slash. *)
Fixpoint os_path_basename (p : string) : string :=
  match p with
  | EmptyString => EmptyString
  | String c p' =>
      if FS.has_slash p' then os_path_basename p'
      else if Ascii.eqb c "/" then p' else p
  end.

(** [s.endswith (suffix)]: [suffix] is [s] itself or ends what follows the
    first character of [s]. *)
Fixpoint str_endswith (s suffix : string) : bool :=
  String.eqb s suffix
  || match s with
     | String _ s' => str_endswith s' suffix
     | EmptyString => false
     end.
End PathText.

Section MoreFileUtils.
Context {W : Type} `{!OS W}.

(** Lines 36-44.  [os.walk] reports no error of its own and
    [get_file_size] answers the two that the handler names, so the handler
    of line 43 is never entered. *)
Definition get_directory_size (directory : string) (w : W) : N :=
  fold_left
    (fun total_size file_path =>
       if os_path_islink file_path w then total_size
       else (total_size + get_file_size file_path w)%N)
    (os_walk directory w) 0%N.

(** Lines 82-86: the paths the generator yields, in order.  The name
    [os.walk] gives for a file is the last component of the joined path. *)
Definition find_files_by_extension (directory : string)
    (extensions : list string) (w : W) : list string :=
  List.filter
    (fun file_path =>
       existsb (str_endswith (os_path_basename file_path)) extensions)
    (os_walk directory w).

(** Lines 113-123; [current_time] is what [time.time ()] returns in this
    call.  Time stamps are whole seconds. *)
Definition is_file_older_than (file_path : string) (days : Z)
    (current_time : Z) (w : W) : bool :=
  match os_path_getmtime file_path w with
  | inl _ => false
  | inr file_time =>
      if (days <=? 0)%Z then false
      else (days * 86400 <? current_time - file_time)%Z
  end.
End MoreFileUtils.

(* ===================================================================== *)
(** * Duplicate statistics ([cleanipy/analyzers/duplicate_analyzer.py]) *)
(* ===================================================================== *)

(** The dictionary [analyze_duplicate_files] returns. *)
Record duplicate_analysis : Type := DuplicateAnalysis {
  a_directory : string;
  total_duplicate_sets : nat;
  total_duplicate_files : Z;
  total_wasted_space_bytes : Z;
  total_wasted_space : string;
  a_duplicates : list (string * list file_info)
}.

(** One element of the list [get_duplicate_sets] returns. *)
Record duplicate_set : Type := DuplicateSet {
  ds_hash : string;
  ds_files : list file_info;
  ds_count : nat;
  ds_wasted_space_bytes : Z;
  ds_wasted_space : string;
  ds_file_size : string
}.

Section DuplicateStatistics.
Context {W : Type} `{!OS W}.

(** [(len (files) - 1) * files[0]["size_bytes"]]. *)
Definition wasted_in (files : list file_info) : result Z :=
  match first_item files with
  | Ok x => Ok ((Z.of_nat (length files) - 1) * Z.of_N (size_bytes x))%Z
  | Raise e => Raise e
  end.

(** [sum (..)] over a generator whose items may raise: the first exception
    ends the summation. *)
Fixpoint sum_results (items : list (result Z)) : result Z :=
  match items with
  | [] => Ok 0%Z
  | Raise e :: _ => Raise e
  | Ok x :: items' =>
      match sum_results items' with
      | Ok total => Ok (x + total)%Z
      | Raise e => Raise e
      end
  end.

(** Lines 95-112.  The wasted space is formatted only when no group was
    empty, and is not negative then. *)
Definition analyze_duplicate_files (directory : string) (min_size : Z)
    (w : W) : result duplicate_analysis :=
  let duplicates := find_duplicate_files_by_content directory min_size w in
  let sets := length duplicates in
  let redundant :=
    fold_right Z.add 0%Z
      (map (fun e => (Z.of_nat (length (snd e)) - 1)%Z) duplicates) in
  match sum_results (map (fun e => wasted_in (snd e)) duplicates) with
  | Raise e => Raise e
  | Ok wasted =>
      Ok {| a_directory := directory;
            total_duplicate_sets := sets;
            total_duplicate_files := redundant;
            total_wasted_space_bytes := wasted;
            total_wasted_space := SizeUtils.format_size (Z.to_N wasted);
            a_duplicates := duplicates |}
  end.

(** The body of the loop of lines 132-141. *)
Definition duplicate_set_of (hash_val : string) (files : list file_info)
  : result duplicate_set :=
  match wasted_in files, first_item files with
  | Ok wasted, Ok x =>
      Ok {| ds_hash := hash_val;
            ds_files := files;
            ds_count := length files;
            ds_wasted_space_bytes := wasted;
            ds_wasted_space := SizeUtils.format_size (Z.to_N wasted);
            ds_file_size := size x |}
  | Raise e, _ => Raise e
  | _, Raise e => Raise e
  end.

(** The loop of lines 131-141. *)
Fixpoint collect_sets (duplicates : list (string * list file_info))
  : result (list duplicate_set) :=
  match duplicates with
  | [] => Ok []
  | (hash_val, files) :: duplicates' =>
      match duplicate_set_of hash_val files with
      | Raise e => Raise e
      | Ok x =>
          match collect_sets duplicates' with
          | Ok l => Ok (x :: l)
          | Raise e => Raise e
          end
      end
  end.

(** [l[:limit]]: a negative [limit] counts from the end. *)
Definition slice_to {A : Type} (limit : Z) (l : list A) : list A :=
  if (0 <=? limit)%Z then firstn (Z.to_nat limit) l
  else firstn (length l - Z.to_nat (- limit)) l.

(** Lines 127-147: the sets, sorted by wasted space (largest first, a
    stable sort), cut to [limit]. *)
Definition get_duplicate_sets (directory : string) (min_size : Z)
    (limit : Z) (w : W) : result (list duplicate_set) :=
  match collect_sets
          (find_duplicate_files_by_content directory min_size w) with
  | Raise e => Raise e
  | Ok duplicate_sets =>
      Ok (slice_to limit
            (map snd
               (sort_desc
                  (map (fun x => (ds_wasted_space_bytes x, x))
                       duplicate_sets))))
  end.
End DuplicateStatistics.

(* ===================================================================== *)
(** * Disk analysis ([cleanipy/analyzers/disk_analyzer.py]) *)
(* ===================================================================== *)

Section ExtensionText.

Definition lower_char (c : ascii) : ascii :=
  if SizeUtils.is_upper c then ascii_of_nat (nat_of_ascii c + 32) else c.

(** [s.lower ()] on ASCII text. *)
Fixpoint str_lower (s : string) : string :=
  match s with
  | EmptyString => EmptyString
  | String c s' => String (lower_char c) (str_lower s')
  end.

(** The suffix that starts at the last dot, if there is a dot. *)
Fixpoint from_last_dot (s : string) : option string :=
  match s with
  | EmptyString => None
  | String c s' =>
      match from_last_dot s' with
      | Some e => Some e
      | None => if Ascii.eqb c "." then Some s else None
      end
  end.

Fixpoint drop_dots (s : string) : string :=
  match s with
  | String c s' => if Ascii.eqb c "." then drop_dots s' else s
  | EmptyString => EmptyString
  end.

(** The second component of [os.path.splitext (filename)] for a name
    without a slash: the suffix from the last dot on, unless only dots
    precede that dot. *)
Definition splitext_ext (filename : string) : string :=
  match from_last_dot (drop_dots filename) with
  | Some e => e
  | None => EmptyString
  end.

(** Lines 143-144: the key a file is counted under. *)
Definition type_key (filename : string) : string :=
  match splitext_ext filename with
  | EmptyString => "no extension"
  | ext => str_lower ext
  end.
End ExtensionText.

(** The statistics of one file type. *)
Record type_stats : Type := TypeStats {
  ts_count : nat;
  ts_total_size_bytes : N;
  ts_total_size : string
}.

Section DiskAnalyzer.
Context {W : Type} `{!OS W}.

(** The body of the loop of [find_large_files] (lines 101-115). *)
Definition large_step (min_size_bytes : Z) (w : W)
    (large_files : list file_info) (file_path : string) : list file_info :=
  if os_path_islink file_path w then large_files
  else
    let size := get_file_size file_path w in
    if (min_size_bytes <=? Z.of_N size)%Z
    then large_files ++
         [{| path := file_path; size_bytes := size;
             size := SizeUtils.format_size size |}]
    else large_files.

(** Lines 97-120: the list is sorted by size, largest first. *)
Definition find_large_files (directory : string) (min_size_bytes : Z)
    (w : W) : list file_info :=
  let large_files :=
    fold_left (large_step min_size_bytes w) (os_walk directory w) [] in
  map snd (sort_desc (map (fun x => (Z.of_N (size_bytes x), x)) large_files)).

(** Lines 150-157: a new key is inserted with both counters at zero, then
    the counters of the key grow; the totals are formatted later, so
    [ts_total_size] stays empty here. *)
Fixpoint type_add (ext : string) (size : N)
    (file_types : list (string * type_stats))
  : list (string * type_stats) :=
  match file_types with
  | [] =>
      [(ext, {| ts_count := 1; ts_total_size_bytes := size;
                ts_total_size := "" |})]
  | (k, v) :: file_types' =>
      if decide (k = ext)
      then (k, {| ts_count := S (ts_count v);
                  ts_total_size_bytes := ts_total_size_bytes v + size;
                  ts_total_size := ts_total_size v |}) :: file_types'
      else (k, v) :: type_add ext size file_types'
  end.

(** The body of the loop of [get_file_types_summary] (lines 137-160). *)
Definition type_step (w : W) (file_types : list (string * type_stats))
    (file_path : string) : list (string * type_stats) :=
  if os_path_islink file_path w then file_types
  else
    type_add (type_key (os_path_basename file_path))
             (get_file_size file_path w) file_types.

(** Lines 133-166; the last loop adds the formatted totals. *)
Definition get_file_types_summary (directory : string) (w : W)
  : list (string * type_stats) :=
  map (fun e =>
         (fst e,
          {| ts_count := ts_count (snd e);
             ts_total_size_bytes := ts_total_size_bytes (snd e);
             ts_total_size :=
               SizeUtils.format_size (ts_total_size_bytes (snd e)) |}))
      (fold_left (type_step w) (os_walk directory w) []).
End DiskAnalyzer.

(* ===================================================================== *)
(** * Temporary files ([cleanipy/analyzers/temp_analyzer.py]) *)
(* ===================================================================== *)

(** The dictionary [analyze_temp_files] returns. *)
Record temp_analysis : Type := TempAnalysis {
  ta_directory : string;
  ta_total_size_bytes : N;
  ta_total_count : nat;
  ta_old_files_size_bytes : N;
  ta_old_files_count : nat;
  ta_old_files : list file_info;
  ta_total_size : string;
  ta_old_files_size : string
}.

Section TempAnalyzer.
Context {W : Type} `{!OS W}.

(** The body of the loop (lines 157-181).  The second component counts the
    calls of [is_file_older_than]; [clock k] is the time the call number [k]
    reads. *)
Definition temp_step (min_age_days : Z) (clock : nat -> Z) (w : W)
    (acc : temp_analysis * nat) (file_path : string)
  : temp_analysis * nat :=
  let '(r, k) := acc in
  if os_path_islink file_path w then acc
  else
    let size := get_file_size file_path w in
    let old := is_file_older_than file_path min_age_days (clock k) w in
    ({| ta_directory := ta_directory r;
        ta_total_size_bytes := ta_total_size_bytes r + size;
        ta_total_count := S (ta_total_count r);
        ta_old_files_size_bytes :=
          if old then (ta_old_files_size_bytes r + size)%N
          else ta_old_files_size_bytes r;
        ta_old_files_count :=
          if old then S (ta_old_files_count r) else ta_old_files_count r;
        ta_old_files :=
          if old && (length (ta_old_files r) <? 1000)%nat
          then ta_old_files r ++
               [{| path := file_path; size_bytes := size;
                   size := SizeUtils.format_size size |}]
          else ta_old_files r;
        ta_total_size := ta_total_size r;
        ta_old_files_size := ta_old_files_size r |},
     S k).

(** Lines 145-190. *)
Definition analyze_temp_files (directory : string) (min_age_days : Z)
    (clock : nat -> Z) (w : W) : temp_analysis :=
  let result0 :=
    {| ta_directory := directory; ta_total_size_bytes := 0;
       ta_total_count := 0; ta_old_files_size_bytes := 0;
       ta_old_files_count := 0; ta_old_files := [];
       ta_total_size := ""; ta_old_files_size := "" |} in
  let r :=
    fst (fold_left (temp_step min_age_days clock w)
                   (os_walk directory w) (result0, O)) in
  {| ta_directory := ta_directory r;
     ta_total_size_bytes := ta_total_size_bytes r;
     ta_total_count := ta_total_count r;
     ta_old_files_size_bytes := ta_old_files_size_bytes r;
     ta_old_files_count := ta_old_files_count r;
     ta_old_files := ta_old_files r;
     ta_total_size := SizeUtils.format_size (ta_total_size_bytes r);
     ta_old_files_size :=
       SizeUtils.format_size (ta_old_files_size_bytes r) |}.
End TempAnalyzer.

(* ===================================================================== *)
(** * Notions used to state the further properties *)
(* ===================================================================== *)

Section ExtraNotions.

(** The number of sizes [s] with [lo <= s < hi]; a missing bound does not
    restrict. *)
Definition count_between (lo hi : option Z) (sizes : list Z) : nat :=
  length
    (List.filter
       (fun s =>
          match lo with Some a => (a <=? s)%Z | None => true end
          && match hi with Some b => (s <? b)%Z | None => true end)
       sizes).

Definition sum_nat (l : list nat) : nat := fold_right Nat.add 0 l.
End ExtraNotions.

Section ParseNotions.
Import SizeUtils.

(** Text whose characters are all below 128. *)
Definition ascii_text (s : string) : bool :=
  all_chars (fun c => (nat_of_ascii c <? 128)%nat) s.

(** A digit or a dot: the class [[\d.]] on ASCII text. *)
Definition numeric (c : ascii) : bool := is_digit c || is_dot c.

(** [t] is what the pattern of line 61 matches, with the groups [value] and
    [unit]: digits and dots, then blanks, then capital letters up to the
    end. *)
Definition size_shape (t value unit : string) : Prop :=
  exists blanks,
    t = (value ++ blanks ++ unit)%string /\
    value <> "" /\ all_chars numeric value = true /\
    all_chars is_space blanks = true /\
    unit <> "" /\ all_chars is_upper unit = true.

(** Among the texts of digits and dots, the literals [float] accepts:
    digits with at most one dot, and at least one digit. *)
Definition decimal_literal (value : string) : Prop :=
  exists ip fp,
    all_chars is_digit ip = true /\ all_chars is_digit fp = true /\
    ((value = ip /\ ip <> "") \/
     (value = (ip ++ "." ++ fp)%string /\ (ip <> "" \/ fp <> ""))).
End ParseNotions.

Section WalkNotions.
Context {W : Type} `{!OS W}.

Definition sum_N (l : list N) : N := fold_right N.add 0%N l.

(** The walked files that are not symbolic links, in walk order. *)
Definition non_links (directory : string) (w : W) : list string :=
  List.filter (fun p => negb (os_path_islink p w)) (os_walk directory w).

(** The record the analyzers write for a file. *)
Definition record_of (w : W) (file_path : string) : file_info :=
  {| path := file_path;
     size_bytes := get_file_size file_path w;
     size := SizeUtils.format_size (get_file_size file_path w) |}.

(** The files of [listing] that are not links and are counted under the
    type [key], in their order. *)
Definition typed_files (w : W) (listing : list string) (key : string)
  : list string :=
  List.filter (fun p => bool_decide (type_key (os_path_basename p) = key))
              (List.filter (fun p => negb (os_path_islink p w)) listing).

Definition files_of_type (directory : string) (w : W) (key : string)
  : list string :=
  typed_files w (os_walk directory w) key.

(** The statistics of a non-empty list of files of one type; [fmt] prints
    the total. *)
Definition stats_of (w : W) (fmt : N -> string) (files : list string)
  : option type_stats :=
  match files with
  | [] => None
  | _ =>
      let total := sum_N (map (fun p => get_file_size p w) files) in
      Some {| ts_count := length files;
              ts_total_size_bytes := total;
              ts_total_size := fmt total |}
  end.

(** The non-link files that a scan with the clock readings [clock] finds
    older than [days] days, in walk order: the file number [k] among the
    non-links is tested at the time [clock k]. *)
Definition old_files_at (days : Z) (clock : nat -> Z) (w : W)
    (files : list string) : list string :=
  map snd
    (List.filter
       (fun kp => is_file_older_than (snd kp) days (clock (fst kp)) w)
       (imap pair files)).
End WalkNotions.

Section StatisticsNotions.

Definition sum_Z (l : list Z) : Z := fold_right Z.add 0%Z l.

(** The size recorded for the first member of a group. *)
Definition head_size (files : list file_info) : Z :=
  match files with
  | x :: _ => Z.of_N (size_bytes x)
  | [] => 0%Z
  end.

(** The space a group wastes: all members but one, at the size of the
    first. *)
Definition wasted_of (files : list file_info) : Z :=
  ((Z.of_nat (length files) - 1) * head_size files)%Z.

(** The length of [l[:limit]] for a list of [n] elements. *)
Definition slice_length (limit : Z) (n : nat) : nat :=
  if (0 <=? limit)%Z then Nat.min (Z.to_nat limit) n
  else n - Z.to_nat (- limit).
End StatisticsNotions.

Section SetNotions.

(** The dictionary [get_duplicate_sets] builds for a group. *)
Definition set_record (g : string * list file_info) : duplicate_set :=
  {| ds_hash := fst g;
     ds_files := snd g;
     ds_count := length (snd g);
     ds_wasted_space_bytes := wasted_of (snd g);
     ds_wasted_space := SizeUtils.format_size (Z.to_N (wasted_of (snd g)));
     ds_file_size :=
       match snd g with
       | x :: _ => size x
       | [] => EmptyString
       end |}.
End SetNotions.

Section SafetyNotions.
Context {C : Type} (digest : string -> string).

(** The body of the inner loop of a strategy, for a group whose survivor is
    [source] (the delete strategy does not look at it). *)
Definition member_of (s : strategy)
    (callback : option (string -> C -> C)) (source : string)
  : state FS.t C -> file_info -> state FS.t C :=
  match s with
  | Delete => delete_member (OS0 := FS.os digest) callback
  | Hardlink => hardlink_member (OS0 := FS.os digest) callback source
  | Softlink => symlink_member (OS0 := FS.os digest) callback source
  end.

(** The members of a group that a run processes: all but the survivor the
    modification times in [w] select. *)
Definition doomed (keep_newest : bool) (w : FS.t) (files : list file_info)
  : list file_info :=
  match files_sorted (OS0 := FS.os digest) files w with
  | Ok sorted => files_to_remove keep_newest sorted
  | Raise _ => []
  end.

Definition all_doomed (keep_newest : bool) (w : FS.t)
    (groups : list (string * list file_info)) : list file_info :=
  flat_map (fun g => doomed keep_newest w (snd g)) groups.
End SafetyNotions.

Section EffectNotions.

(** [w'] is [w] with other entries: working directory, walk order,
    read-only entries, trash and devices are the same. *)
Definition only_nodes_differ (w w' : FS.t) : Prop :=
  w' = FS.set_nodes (FS.nodes w') w.

(** What processing a member with the strategy [s] does, told from the
    file system [w] before the run: [d] is the member's detail, [chunk] the
    calls made for it and [after] what its entry holds afterwards.
    - Delete: on success the entry is gone; on failure it is as before, and
      it was missing or read-only.
    - Hardlink: on success the entry is a second name of the file of
      [source]; on failure either the removal failed and the entry is as
      before, or the removal succeeded, [os.link] failed and the entry is
      gone.
    - Softlink: on success the entry is a link to the absolute path of
      [source]; on failure the removal failed and the entry is as before. *)
Definition effect (s : strategy) (w : FS.t) (source : string) (d : detail)
    (chunk : list event) (after : option FS.node) : Prop :=
  let key := FS.abspath (d_target d) w in
  let skey := FS.abspath source w in
  let before := FS.nodes w !! key in
  match s with
  | Delete =>
      if d_success d
      then after = None /\ before <> None /\ key ∉ FS.protected w
      else after = before /\ (before = None \/ key ∈ FS.protected w)
  | Hardlink =>
      if d_success d
      then after = FS.nodes w !! skey /\ after <> None /\ before <> None /\
           skey <> key /\
           chunk = [Remove (d_target d) None; Link source (d_target d) None]
      else
        (after = before /\ (before = None \/ key ∈ FS.protected w) /\
         exists msg,
           d_error d = Some msg /\ chunk = [Remove (d_target d) (Some msg)])
        \/
        (after = None /\ before <> None /\ (key ∉ FS.protected w) /\
         (FS.nodes w !! skey = None \/ skey = key \/
          FS.device w skey <> FS.device w key) /\
         exists msg,
           d_error d = Some msg /\
           chunk = [Remove (d_target d) None;
                    Link source (d_target d) (Some msg)])
  | Softlink =>
      if d_success d
      then after = Some (FS.SymbolicLink skey) /\ before <> None /\
           chunk = [Remove (d_target d) None;
                    Symlink skey (d_target d) None]
      else
        after = before /\ (before = None \/ key ∈ FS.protected w) /\
        exists msg,
          d_error d = Some msg /\ chunk = [Remove (d_target d) (Some msg)]
  end.
End EffectNotions.

Section CheckNotions.

(** [well_formed_groups] as a test, for groups that are given. *)
Definition is_regular_b (w : FS.t) (p : string) : bool :=
  match FS.nodes w !! FS.abspath p w with
  | Some (FS.Regular _ _ _) => true
  | _ => false
  end.

Definition well_formed_b (w : FS.t)
    (groups : list (string * list file_info)) : bool :=
  FS.is_absolute (FS.cwd w)
  && bool_decide (NoDup (member_keys w (all_members groups)))
  && forallb (fun fi => is_regular_b w (path fi)) (all_members groups).
End CheckNotions.

Section GeneralNotions.
Context {W C : Type} `{!OS W}.

(** The function the menu calls for a strategy, for any callback. *)
Definition general_run_strategy (s : strategy) :
    string -> option (list (string * list file_info)) -> bool ->
    option (string -> C -> option raised * C) -> W -> C -> outcome W C :=
  match s with
  | Delete => General.clean_duplicate_files
  | Hardlink => General.replace_duplicates_with_hardlinks
  | Softlink => General.replace_duplicates_with_symlinks
  end.

(** The loop body of a strategy, for any callback. *)
Definition general_group_body (s : strategy) (keep_newest : bool)
    (callback : option (string -> C -> option raised * C))
  : state W C -> list file_info -> option exn * state W C :=
  match s with
  | Delete => General.clean_group keep_newest callback
  | Hardlink =>
      General.link_group (General.hardlink_member callback) keep_newest
  | Softlink =>
      General.link_group (General.symlink_member callback) keep_newest
  end.

(** No call of the callback raises. *)
Definition never_raises
    (callback : option (string -> C -> option raised * C)) : Prop :=
  forall f file_path c, callback = Some f -> fst (f file_path c) = None.

(** What the calls of a callback do to the reporter. *)
Definition on_return (callback : option (string -> C -> option raised * C))
  : option (string -> C -> C) :=
  option_map (fun f file_path c => snd (f file_path c)) callback.

(** The call a logged event stands for, and the message the log gives for
    it. *)
Definition perform (ev : event) (w : W) : option string * W :=
  match ev with
  | Send2trash file_path _ => send2trash file_path w
  | Remove file_path _ => os_remove file_path w
  | Link source target _ => os_link source target w
  | Symlink link_target target _ => os_symlink link_target target w
  end.

Definition logged_error (ev : event) : option string :=
  match ev with
  | Send2trash _ err | Remove _ err | Link _ _ err | Symlink _ _ err => err
  end.

(** The calls of [log], made one after the other from [w], raise what the
    log says they raised and leave [w']: the log is what was done to the
    file system, and all that was done. *)
Fixpoint replays (log : list event) (w w' : W) : Prop :=
  match log with
  | [] => w' = w
  | ev :: log' =>
      fst (perform ev w) = logged_error ev /\
      replays log' (snd (perform ev w)) w'
  end.

(** The detail [d] is about the member [fi]. *)
Definition about (fi : file_info) (d : detail) : Prop :=
  d_target d = path fi /\ d_size_bytes d = size_bytes fi /\
  d_size d = size fi.

(** The details a processed member leaves: at least one; those that report
    success, then at most one that reports failure, with a message. *)
Definition member_details (fi : file_info) (ds : list detail) : Prop :=
  exists ok failed,
    ds = ok ++ failed /\ ds <> [] /\
    Forall (fun d => about fi d /\ d_success d = true /\ d_error d = None)
           ok /\
    (failed = [] \/
     exists d msg,
       failed = [d] /\ about fi d /\ d_success d = false /\
       d_error d = Some msg).

(** [members] lists, group after group, all the files of the group but one
    (the survivor), in some order. *)
Definition survivors_dropped (keep_newest : bool)
    (groups : list (string * list file_info)) (members : list file_info)
  : Prop :=
  exists lists,
    members = concat lists /\
    Forall2 (fun (g : string * list file_info) ms =>
               exists sorted,
                 sorted ≡ₚ snd g /\ ms = files_to_remove keep_newest sorted)
            groups lists.

(** The reading of the first claim of the specification: the members of a
    group have one digest and one size. *)
Definition one_hash_one_size (w : W)
    (groups : list (string * list file_info)) : Prop :=
  forall h g, (h, g) ∈ groups ->
    2 <= length g /\
    forall m1 m2, m1 ∈ g -> m2 ∈ g ->
      get_file_hash (path m1) w = get_file_hash (path m2) w /\
      size_bytes m1 = size_bytes m2.
End GeneralNotions.

(* ===================================================================== *)
(** * More sample data *)
(* ===================================================================== *)

Module MoreSamples.
Import FS.

(** Two copies of one content on two devices: [/n] is a mount point. *)
Definition two_devices : FS.t :=
  {| nodes := {[ "/m/a" := Regular "zz" 1 true;
                 "/n/b" := Regular "zz" 2 true ]};
     cwd := "/";
     enumeration := ["/m/a"; "/n/b"];
     protected := ∅;
     trash_available := true;
     device := fun key =>
                 match strip_prefix "/n/" key with
                 | Some _ => 1
                 | None => 0
                 end |}.

Definition group_mn : list (string * list file_info) :=
  [("sha:zz", [Samples.info "/m/a" 2; Samples.info "/n/b" 2])].

(** What the hard-link strategy returns for [group_mn] on [two_devices],
    keeping the newest: [a] is removed, and linking it to [b] fails. *)
Definition two_devices_result : cleaning_result :=
  {| total_size_bytes := 0;
     total_count := 0;
     details :=
       [{| d_source := Some "/n/b"; d_target := "/m/a"; d_size_bytes := 2;
           d_size := "2 B"; d_success := false;
           d_error := Some "Invalid cross-device link" |}];
     total_size := "0 B" |}.

End MoreSamples.

Module CallbackSamples.
Import FS.

(** A callback that keeps the paths it is called with and returns. *)
Definition keep_paths
  : option (string -> list string -> option raised * list string) :=
  Some (fun file_path seen => (None, seen ++ [file_path])).

(** A callback that writes to a pipe nobody reads any more: it keeps the
    path and raises [BrokenPipeError], an [OSError]. *)
Definition broken_pipe
  : option (string -> list string -> option raised * list string) :=
  Some (fun file_path seen =>
          (Some (RaisedOSError "Broken pipe"), seen ++ [file_path])).

(** What the delete strategy returns on [Samples.scenario] with
    [broken_pipe]: A is in the trash and counted, and then reported as not
    deleted. *)
Definition scenario_broken_pipe : cleaning_result :=
  {| total_size_bytes := 1024;
     total_count := 1;
     details :=
       [{| d_source := None; d_target := "/d/A"; d_size_bytes := 1024;
           d_size := "1.00 KB"; d_success := true; d_error := None |};
        {| d_source := None; d_target := "/d/A"; d_size_bytes := 1024;
           d_size := "1.00 KB"; d_success := false;
           d_error := Some "No such file or directory" |}];
     total_size := "1.00 KB" |}.

(** What the hard-link strategy returns for [Samples.group_pqr] on
    [Samples.locked], keeping the newest: [q] becomes a link to [r], [p]
    cannot be removed. *)
Definition locked_linked : cleaning_result :=
  {| total_size_bytes := 2;
     total_count := 1;
     details :=
       [{| d_source := Some "/d/r"; d_target := "/d/q"; d_size_bytes := 2;
           d_size := "2 B"; d_success := true; d_error := None |};
        {| d_source := Some "/d/r"; d_target := "/d/p"; d_size_bytes := 2;
           d_size := "2 B"; d_success := false;
           d_error := Some "Permission denied" |}];
     total_size := "2 B" |}.

(** A digest with collisions: every content has the same one. *)
Definition colliding_digest (data : string) : string := "h".

(** Two files of two bytes and two files of three bytes, all different. *)
Definition mixed_sizes : FS.t :=
  {| nodes := {[ "/d/a" := Regular "xx" 1 true;
                 "/d/b" := Regular "yy" 2 true;
                 "/d/c" := Regular "zzz" 3 true;
                 "/d/e" := Regular "www" 4 true ]};
     cwd := "/";
     enumeration := ["/d/a"; "/d/b"; "/d/c"; "/d/e"];
     protected := ∅;
     trash_available := true;
     device := fun _ => O |}.
End CallbackSamples.


(* ===================================================================== *)
(** * Dictionaries of lists: facts *)
(* ===================================================================== *)

Section DictFacts.
Context {K A : Type} `{EqDecision K}.
Implicit Types (k : K) (v : A) (d : list (K * list A)) (kvs : list (K * A)).

Lemma values_of_app k kvs kvs' :
  values_of k (kvs ++ kvs') = values_of k kvs ++ values_of k kvs'.
Proof. unfold values_of. by rewrite List.filter_app, map_app. Qed.

Lemma values_of_In k v kvs : v ∈ values_of k kvs <-> (k, v) ∈ kvs.
Proof.
  unfold values_of. rewrite list_elem_of_fmap. split.
  - intros [[k' v'] [-> Hin]]. apply list_elem_of_In, List.filter_In in Hin.
    destruct Hin as [Hin Hk]. apply bool_decide_eq_true in Hk. simpl in *.
    subst. by apply list_elem_of_In.
  - intros Hin. exists (k, v). split; [done|].
    apply list_elem_of_In, List.filter_In. split.
    + by apply list_elem_of_In.
    + by apply bool_decide_eq_true.
Qed.

Lemma values_of_perm k kvs kvs' :
  kvs ≡ₚ kvs' -> values_of k kvs ≡ₚ values_of k kvs'.
Proof.
  intros Hp. unfold values_of. apply Permutation_map.
  induction Hp; simpl; repeat case_match; eauto using Permutation.
Qed.

Lemma dict_get_None k d : dict_get k d = None <-> k ∉ map fst d.
Proof.
  induction d as [|[k' vs] d IH]; simpl.
  - split; [intros _ Hin; inversion Hin | done].
  - rewrite not_elem_of_cons. destruct (decide (k' = k)) as [->|Hne].
    + split; [done | intros [? _]; done].
    + rewrite IH. split; [intros ?; split; [congruence | done] | tauto].
Qed.

Lemma dict_get_In k d (vs : list A) :
  NoDup (map fst d) -> (k, vs) ∈ d <-> dict_get k d = Some vs.
Proof.
  induction d as [|[k' vs'] d IH]; simpl; intros Hnd.
  - split; [intros Hin; inversion Hin | done].
  - apply NoDup_cons in Hnd as [Hk' Hnd]. rewrite elem_of_cons.
    destruct (decide (k' = k)) as [->|Hne].
    + split.
      * intros [Heq | Hin]; [congruence|].
        exfalso. apply Hk'. apply list_elem_of_fmap. by exists (k, vs).
      * intros [= ->]. by left.
    + rewrite <- IH by done. split; [intros [?|?]; [congruence | done] | auto].
Qed.

Lemma dict_get_append k k' v d :
  dict_get k' (dict_append k v d) =
    if decide (k = k') then Some (default [] (dict_get k d) ++ [v])
    else dict_get k' d.
Proof.
  induction d as [|[k0 vs] d IH]; simpl.
  - repeat case_decide; congruence.
  - destruct (decide (k0 = k)) as [->|Hne]; simpl.
    + repeat case_decide; congruence.
    + rewrite IH. repeat case_decide; congruence.
Qed.

Lemma keys_append k v d :
  map fst (dict_append k v d) =
    map fst d ++ match dict_get k d with Some _ => [] | None => [k] end.
Proof.
  induction d as [|[k0 vs] d IH]; simpl; [done|].
  destruct (decide (k0 = k)) as [->|Hne]; simpl.
  - by rewrite app_nil_r.
  - by rewrite IH.
Qed.

Lemma grouped_nil : grouped (@nil (K * A)) [].
Proof. split; [constructor | done]. Qed.

Lemma grouped_append k v kvs d :
  grouped kvs d -> grouped (kvs ++ [(k, v)]) (dict_append k v d).
Proof.
  intros [Hnd Hget]. split.
  - rewrite keys_append. destruct (dict_get k d) eqn:Hk.
    + by rewrite app_nil_r.
    + apply NoDup_app. split; [done|]. split; [|apply NoDup_singleton].
      intros x Hx ->%list_elem_of_singleton. by apply dict_get_None in Hk.
  - intros k'. rewrite dict_get_append, values_of_app, !Hget.
    unfold values_of at 2 4. simpl. case_decide as Hkk'.
    + subst k'. rewrite bool_decide_eq_true_2 by done. simpl.
      destruct (values_of k kvs); done.
    + rewrite bool_decide_eq_false_2 by done. simpl. by rewrite app_nil_r.
Qed.

Lemma grouped_group_by kvs kvs0 d :
  grouped kvs0 d -> grouped (kvs0 ++ kvs) (group_by kvs d).
Proof.
  revert kvs0 d. induction kvs as [|[k v] kvs IH]; intros kvs0 d Hg; simpl.
  - by rewrite app_nil_r.
  - replace (kvs0 ++ (k, v) :: kvs) with ((kvs0 ++ [(k, v)]) ++ kvs)
      by (by rewrite <- app_assoc).
    apply IH. by apply grouped_append.
Qed.

Lemma grouped_entry kvs d k (vs : list A) :
  grouped kvs d -> (k, vs) ∈ d -> vs = values_of k kvs /\ vs <> [].
Proof.
  intros [Hnd Hget] Hin. apply dict_get_In in Hin; [|done].
  rewrite Hget in Hin. destruct (values_of k kvs) eqn:Hv; simpl in Hin.
  - done.
  - injection Hin as <-. done.
Qed.

Lemma items_flat_append k v d :
  items_flat (dict_append k v d) ≡ₚ items_flat d ++ [(k, v)].
Proof.
  induction d as [|[k0 vs] d IH]; simpl; [done|].
  destruct (decide (k0 = k)) as [->|Hne]; unfold items_flat in *; simpl.
  - rewrite map_app. simpl. rewrite <- !app_assoc.
    apply Permutation_app_head. apply Permutation_app_comm.
  - rewrite IH. by rewrite app_assoc.
Qed.

Lemma items_flat_group_by kvs d :
  items_flat (group_by kvs d) ≡ₚ items_flat d ++ kvs.
Proof.
  revert d. induction kvs as [|[k v] kvs IH]; intros d; simpl.
  - by rewrite app_nil_r.
  - rewrite IH, items_flat_append. by rewrite <- app_assoc.
Qed.

Lemma more_than_one_In d (e : K * list A) :
  e ∈ more_than_one d <-> e ∈ d /\ 1 < length (snd e).
Proof.
  unfold more_than_one. rewrite !list_elem_of_In, List.filter_In.
  by rewrite Nat.ltb_lt.
Qed.

Lemma more_than_one_keys d :
  NoDup (map fst d) -> NoDup (map fst (more_than_one d)).
Proof.
  induction d as [|e d IH]; simpl; [done|].
  intros [Hk Hnd]%NoDup_cons. case_match; simpl; [|by apply IH].
  apply NoDup_cons. split; [|by apply IH].
  intros Hin. apply Hk. apply list_elem_of_fmap in Hin as [e' [-> Hin]].
  apply more_than_one_In in Hin as [Hin _].
  apply list_elem_of_fmap. by exists e'.
Qed.

Lemma dict_get_more_than_one k d :
  NoDup (map fst d) ->
  dict_get k (more_than_one d) =
    match dict_get k d with
    | Some vs => if (1 <? length vs)%nat then Some vs else None
    | None => None
    end.
Proof.
  induction d as [|[k0 vs] d IH]; simpl; [done|].
  intros [Hk Hnd]%NoDup_cons. destruct (decide (k0 = k)) as [->|Hne].
  - destruct (1 <? length vs)%nat eqn:Hlen; simpl.
    + by rewrite decide_True.
    + rewrite IH by done. apply dict_get_None in Hk. by rewrite Hk.
  - destruct (1 <? length vs)%nat eqn:Hlen; simpl.
    + rewrite decide_False by done. by apply IH.
    + by apply IH.
Qed.

(** Dropping the short entries of a dictionary drops the pairs whose key
    has at most one value. *)
Lemma items_flat_more_than_one kvs d :
  grouped kvs d ->
  items_flat (more_than_one d) =
    List.filter (fun kv => (1 <? length (values_of (fst kv) kvs))%nat)
                (items_flat d).
Proof.
  intros Hg.
  assert (Hall : forall e, e ∈ d -> snd e = values_of (fst e) kvs).
  { intros [k vs] Hin. by apply (grouped_entry _ _ _ _ Hg) in Hin as [? _]. }
  clear Hg. induction d as [|[k vs] d IH]; simpl; [done|].
  unfold items_flat in *. simpl. rewrite List.filter_app.
  rewrite <- IH by (intros e He; apply Hall; by right).
  specialize (Hall (k, vs) ltac:(by left)). simpl in Hall.
  assert (Hf : forall l : list A,
    List.filter (fun kv => (1 <? length (values_of (fst kv) kvs))%nat)
                (map (pair k) l) =
    if (1 <? length vs)%nat then map (pair k) l else []).
  { intros l. induction l as [|x l IHl]; simpl.
    - by destruct (1 <? length vs)%nat.
    - rewrite IHl, <- Hall. by destruct (1 <? length vs)%nat. }
  rewrite Hf. by destruct (1 <? length vs)%nat.
Qed.

Lemma filter_length_perm (kvs kvs' : list (K * A)) :
  kvs ≡ₚ kvs' ->
  List.filter (fun kv => (1 <? length (values_of (fst kv) kvs))%nat) kvs ≡ₚ
  List.filter (fun kv => (1 <? length (values_of (fst kv) kvs'))%nat) kvs'.
Proof.
  intros Hp.
  rewrite (List.filter_ext
             (fun kv => (1 <? length (values_of (fst kv) kvs))%nat)
             (fun kv => (1 <? length (values_of (fst kv) kvs'))%nat)).
  - generalize (fun kv : K * A =>
                  (1 <? length (values_of (fst kv) kvs'))%nat) as f.
    intros f. induction Hp; simpl; repeat case_match; eauto using Permutation.
  - intros kv. by rewrite (Permutation_length (values_of_perm _ _ _ Hp)).
Qed.
End DictFacts.

(* ===================================================================== *)
(** * Duplicate detection: facts *)
(* ===================================================================== *)

Section ListFacts.
Context {A B : Type}.

Lemma filter_perm (f : A -> bool) (l l' : list A) :
  l ≡ₚ l' -> List.filter f l ≡ₚ List.filter f l'.
Proof.
  intros Hp. induction Hp; simpl; repeat case_match; eauto using Permutation.
Qed.

Lemma flat_map_perm_ext (f g : A -> list B) (l l' : list A) :
  l ≡ₚ l' -> (forall x, x ∈ l -> f x = g x) ->
  flat_map f l ≡ₚ flat_map g l'.
Proof.
  intros Hp Hext. transitivity (flat_map g l).
  - clear Hp. induction l as [|x l IH]; simpl; [done|].
    rewrite (Hext x) by (by left). apply Permutation_app_head, IH.
    intros y Hy. apply Hext. by right.
  - by apply Permutation_flat_map.
Qed.

Lemma fold_left_flat_map {C} (f : B -> C -> B) (g : A -> list C) l b :
  fold_left f (flat_map g l) b =
  fold_left (fun b x => fold_left f (g x) b) l b.
Proof.
  revert b. induction l as [|x l IH]; intros b; simpl; [done|].
  by rewrite fold_left_app, IH.
Qed.

Lemma two_distinct `{EqDecision A} (l : list A) (p : A) :
  NoDup l -> 2 <= length l -> exists q, q ∈ l /\ q <> p.
Proof.
  destruct l as [|a [|b l]]; simpl; [lia | lia |].
  intros [Ha _]%NoDup_cons _.
  destruct (decide (a = p)) as [->|Hne].
  - exists b. split; [set_solver|]. intros ->. apply Ha. by left.
  - exists a. split; [by left | done].
Qed.
End ListFacts.

Section DetectionFacts.
Context {W : Type} `{!OS W}.
Implicit Types (w : W) (p q : string) (min_size : Z).

Lemma size_loop_group_by min_size w listing d :
  fold_left (size_step min_size w) listing d =
  group_by (candidates min_size w listing) d.
Proof.
  unfold group_by, candidates. rewrite fold_left_flat_map.
  revert d. induction listing as [|p l IH]; intros d; simpl; [done|].
  rewrite <- IH. f_equal. unfold size_step, retained.
  destruct (os_path_islink p w); simpl; [done|].
  by destruct (min_size <=? Z.of_N (get_file_size p w))%Z.
Qed.

Lemma candidates_In min_size w listing sz p :
  (sz, p) ∈ candidates min_size w listing <->
  p ∈ listing /\ retained min_size w p = true /\ sz = get_file_size p w.
Proof.
  unfold candidates. rewrite list_elem_of_In, in_flat_map. split.
  - intros [x [Hx Hin]]. destruct (retained min_size w x) eqn:Hr.
    + destruct Hin as [[= <- <-]|[]]. by rewrite <- list_elem_of_In in Hx.
    + destruct Hin.
  - intros (Hp & Hr & ->). exists p. rewrite Hr.
    split; [by apply list_elem_of_In | by left].
Qed.

Lemma values_of_candidates min_size w listing sz :
  values_of sz (candidates min_size w listing) =
  size_bucket min_size w listing sz.
Proof.
  unfold values_of, candidates, size_bucket.
  induction listing as [|p l IH]; simpl; [done|].
  rewrite List.filter_app, map_app, IH.
  destruct (retained min_size w p); simpl; [|done].
  destruct (N.eqb_spec (get_file_size p w) sz) as [Heq|Hne].
  - by rewrite bool_decide_eq_true_2.
  - by rewrite bool_decide_eq_false_2.
Qed.

Lemma size_dict_grouped directory min_size w :
  grouped (candidates min_size w (os_walk directory w))
          (fold_left (size_step min_size w) (os_walk directory w) []).
Proof.
  rewrite size_loop_group_by.
  apply (grouped_group_by _ [] []), grouped_nil.
Qed.

(** The files of the retained size buckets, in hashing order: the
    candidates whose size occurs more than once. *)
Lemma hashing_order_perm directory min_size w :
  let c := candidates min_size w (os_walk directory w) in
  items_flat (find_duplicate_files_by_size directory min_size w) ≡ₚ
  List.filter (fun kv => (1 <? length (values_of (fst kv) c))%nat) c.
Proof.
  intros c. unfold find_duplicate_files_by_size.
  rewrite (items_flat_more_than_one c)
    by apply size_dict_grouped.
  apply filter_perm. rewrite size_loop_group_by.
  by rewrite items_flat_group_by.
Qed.

Lemma hashing_order_In directory min_size w sz p :
  (sz, p) ∈ items_flat (find_duplicate_files_by_size directory min_size w) <->
  p ∈ os_walk directory w /\ retained min_size w p = true /\
  sz = get_file_size p w /\
  1 < length (size_bucket min_size w (os_walk directory w) sz).
Proof.
  rewrite (hashing_order_perm directory min_size w).
  rewrite list_elem_of_In, List.filter_In, <- list_elem_of_In.
  rewrite candidates_In. simpl. rewrite values_of_candidates, Nat.ltb_lt.
  tauto.
Qed.

Lemma hash_inner_loop w sz files acc :
  fold_left (hash_step w sz) files acc =
  fold_left (fun acc sp => hash_step w (fst sp) acc (snd sp))
            (map (pair sz) files) acc.
Proof.
  revert acc. induction files as [|p l IH]; intros acc; simpl; [done|].
  by rewrite IH.
Qed.

Lemma hash_loops_flat w size_dict acc :
  fold_left (fun acc e => fold_left (hash_step w (fst e)) (snd e) acc)
            size_dict acc =
  fold_left (fun acc sp => hash_step w (fst sp) acc (snd sp))
            (items_flat size_dict) acc.
Proof.
  revert acc. induction size_dict as [|[sz files] d IH]; intros acc; simpl.
  - done.
  - unfold items_flat in *. simpl.
    by rewrite fold_left_app, IH, hash_inner_loop.
Qed.

Lemma hash_loop_group_by w items hash_dict hashed :
  fold_left (fun acc sp => hash_step w (fst sp) acc (snd sp)) items
            (hash_dict, hashed) =
  (group_by (hash_pairs w items) hash_dict, hashed ++ map snd items).
Proof.
  revert hash_dict hashed.
  induction items as [|[sz p] l IH]; intros hd hs; simpl.
  - by rewrite app_nil_r.
  - destruct (String.eqb (get_file_hash p w) ""); rewrite IH; simpl;
      by rewrite <- app_assoc.
Qed.

(** The function in closed form. *)
Lemma find_duplicates_unfold directory min_size w :
  let items :=
    items_flat (find_duplicate_files_by_size directory min_size w) in
  find_duplicate_files_by_content_logged directory min_size w =
  (more_than_one (group_by (hash_pairs w items) []), map snd items).
Proof.
  intros items. unfold find_duplicate_files_by_content_logged.
  rewrite hash_loops_flat, hash_loop_group_by. done.
Qed.

Lemma hash_pairs_In w items h (m : file_info) :
  (h, m) ∈ hash_pairs w items <->
  (size_bytes m, path m) ∈ items /\ get_file_hash (path m) w = h /\
  h <> "" /\ size m = SizeUtils.format_size (size_bytes m).
Proof.
  unfold hash_pairs. rewrite list_elem_of_In, in_flat_map. split.
  - intros [[sz p] [Hin Hm]]. simpl in Hm.
    destruct (String.eqb_spec (get_file_hash p w) "") as [Heq|Hne].
    + destruct Hm.
    + destruct Hm as [[= <- <-]|[]]. simpl. by rewrite list_elem_of_In.
  - intros (Hin & Hh & Hne & Hs). exists (size_bytes m, path m).
    split; [by apply list_elem_of_In|]. simpl. rewrite Hh.
    destruct (String.eqb_spec h "") as [Heq|_]; [done|]. left.
    destruct m; simpl in *. by subst.
Qed.

(** An entry of a dictionary with the short entries dropped. *)
Lemma more_than_one_entry {K A} `{EqDecision K}
    (kvs : list (K * A)) d k (vs : list A) :
  grouped kvs d ->
  (k, vs) ∈ more_than_one d <-> vs = values_of k kvs /\ 1 < length vs.
Proof.
  intros Hg. rewrite more_than_one_In. simpl. split.
  - intros [Hin Hlen]. by apply (grouped_entry _ _ _ _ Hg) in Hin as [? _].
  - intros [-> Hlen]. split; [|done]. destruct Hg as [Hnd Hget].
    apply dict_get_In; [done|]. rewrite Hget.
    destruct (values_of k kvs); simpl in *; [lia | done].
Qed.

(** The groups returned, described without the loops. *)
Lemma duplicate_group_entry directory min_size w h (g : list file_info) :
  (h, g) ∈ find_duplicate_files_by_content directory min_size w <->
  g = values_of h
        (hash_pairs w
           (items_flat (find_duplicate_files_by_size directory min_size w)))
  /\ 1 < length g.
Proof.
  unfold find_duplicate_files_by_content.
  rewrite find_duplicates_unfold. simpl.
  apply more_than_one_entry, (grouped_group_by _ [] []), grouped_nil.
Qed.

Lemma duplicate_member directory min_size w h (g : list file_info) m :
  (h, g) ∈ find_duplicate_files_by_content directory min_size w -> m ∈ g ->
  (size_bytes m, path m)
    ∈ items_flat (find_duplicate_files_by_size directory min_size w) /\
  get_file_hash (path m) w = h /\ h <> "".
Proof.
  intros [-> _]%duplicate_group_entry Hm.
  apply values_of_In, hash_pairs_In in Hm. tauto.
Qed.

Lemma hashed_files_In directory min_size w p :
  p ∈ hashed_files directory min_size w <->
  exists sz,
    (sz, p) ∈ items_flat (find_duplicate_files_by_size directory min_size w).
Proof.
  unfold hashed_files. rewrite find_duplicates_unfold. simpl.
  rewrite list_elem_of_fmap. split.
  - intros [[sz q] [-> Hin]]. by exists sz.
  - intros [sz Hin]. by exists (sz, p).
Qed.
End DetectionFacts.

Section DetectionProperties.
Context {W : Type} `{!OS W}.
Implicit Types (w : W) (p q : string) (min_size : Z).

Lemma same_size_of_same_hash w p q :
  sizes_match_content w -> collision_free ->
  get_file_hash p w = get_file_hash q w -> get_file_hash p w <> "" ->
  get_file_size p w = get_file_size q w.
Proof.
  unfold get_file_hash, get_file_size. intros Hsz Hcf Heq Hne.
  destruct (read_bytes p w) as [?|dp] eqn:Hp; [done|].
  destruct (read_bytes q w) as [?|dq] eqn:Hq; [congruence|].
  apply Hsz in Hp, Hq. rewrite Hp, Hq. by rewrite (Hcf _ _ Heq).
Qed.


(** C2.  [get_file_hash] is called only on walked files that are not links,
    whose size reaches [min_size] and whose size bucket holds at least two
    retained files (hence, the walk listing no path twice, another retained
    file of the same size); a file below [min_size] is neither hashed nor a
    member of a returned group. *)
Theorem hashing_only_on_size_collisions directory min_size w :
  (forall p, p ∈ hashed_files directory min_size w ->
     p ∈ os_walk directory w /\
     os_path_islink p w = false /\
     (min_size <= Z.of_N (get_file_size p w))%Z /\
     2 <= length (size_bucket min_size w (os_walk directory w)
                              (get_file_size p w)) /\
     (NoDup (os_walk directory w) ->
      exists q, q <> p /\ q ∈ os_walk directory w /\
                retained min_size w q = true /\
                get_file_size q w = get_file_size p w)) /\
  (forall p, (Z.of_N (get_file_size p w) < min_size)%Z ->
     (p ∉ hashed_files directory min_size w) /\
     forall h (g : list file_info) m,
       (h, g) ∈ find_duplicate_files_by_content directory min_size w ->
       m ∈ g -> path m <> p).
Proof.
  assert (Hhashed : forall p, p ∈ hashed_files directory min_size w ->
    p ∈ os_walk directory w /\ retained min_size w p = true /\
    1 < length (size_bucket min_size w (os_walk directory w)
                            (get_file_size p w))).
  { intros p [sz Hin]%hashed_files_In.
    apply hashing_order_In in Hin as (? & ? & -> & ?). done. }
  split.
  - intros p Hp. destruct (Hhashed p Hp) as (Hwalk & Hret & Hlen).
    pose proof Hret as Hret'. unfold retained in Hret'.
    apply andb_true_iff in Hret' as [Hl Hs].
    apply negb_true_iff in Hl. apply Z.leb_le in Hs.
    repeat split; [done | done | done | lia |].
    intros Hnd.
    destruct (two_distinct
                (size_bucket min_size w (os_walk directory w)
                             (get_file_size p w)) p) as (q & Hq & Hne).
    + by apply NoDup_ListNoDup, List.NoDup_filter, NoDup_ListNoDup.
    + lia.
    + exists q. unfold size_bucket in Hq.
      apply list_elem_of_In, List.filter_In in Hq as [Hq Hb].
      apply andb_true_iff in Hb as [Hrq Hsq]. apply N.eqb_eq in Hsq.
      by rewrite <- list_elem_of_In in Hq.
  - intros p Hlt.
    assert (Hnot : p ∉ hashed_files directory min_size w).
    { intros Hp. destruct (Hhashed p Hp) as (_ & Hret & _).
      unfold retained in Hret. apply andb_true_iff in Hret as [_ Hs].
      apply Z.leb_le in Hs. lia. }
    split; [done|]. intros h g m Hg Hm <-. apply Hnot.
    destruct (duplicate_member _ _ _ _ _ _ Hg Hm) as (Hin & _).
    apply hashed_files_In. by exists (size_bytes m).
Qed.

Lemma unchanged_probes directory w1 w2 p :
  unchanged directory w1 w2 -> p ∈ os_walk directory w1 ->
  get_file_size p w1 = get_file_size p w2 /\
  get_file_hash p w1 = get_file_hash p w2 /\
  forall min_size, retained min_size w1 p = retained min_size w2 p.
Proof.
  intros [_ Hsame] Hp. destruct (Hsame p Hp) as (Hl & Hs & Hr).
  unfold retained, get_file_size, get_file_hash. by rewrite Hl, Hs, Hr.
Qed.

Lemma unchanged_sym directory w1 w2 :
  unchanged directory w1 w2 -> unchanged directory w2 w1.
Proof.
  intros [Hp Hsame]. split; [done|]. intros p Hin.
  rewrite <- Hp in Hin. destruct (Hsame p Hin) as (? & ? & ?). done.
Qed.

Lemma unchanged_candidates directory min_size w1 w2 :
  unchanged directory w1 w2 ->
  candidates min_size w1 (os_walk directory w1) ≡ₚ
  candidates min_size w2 (os_walk directory w2).
Proof.
  intros Hu. apply flat_map_perm_ext; [by destruct Hu|].
  intros p Hp. destruct (unchanged_probes _ _ _ _ Hu Hp) as (-> & _ & ->).
  done.
Qed.

Lemma unchanged_hashing_order directory min_size w1 w2 :
  unchanged directory w1 w2 ->
  items_flat (find_duplicate_files_by_size directory min_size w1) ≡ₚ
  items_flat (find_duplicate_files_by_size directory min_size w2).
Proof.
  intros Hu. rewrite !hashing_order_perm.
  by apply filter_length_perm, unchanged_candidates.
Qed.

Lemma unchanged_hash_pairs directory min_size w1 w2 :
  unchanged directory w1 w2 ->
  hash_pairs w1
    (items_flat (find_duplicate_files_by_size directory min_size w1)) ≡ₚ
  hash_pairs w2
    (items_flat (find_duplicate_files_by_size directory min_size w2)).
Proof.
  intros Hu. apply flat_map_perm_ext.
  - by apply unchanged_hashing_order.
  - intros [sz p] Hin. apply hashing_order_In in Hin as (Hp & _). simpl.
    destruct (unchanged_probes _ _ _ _ Hu Hp) as (_ & -> & _). done.
Qed.

Lemma unchanged_groups directory min_size w1 w2 h (g1 : list file_info) :
  unchanged directory w1 w2 ->
  (h, g1) ∈ find_duplicate_files_by_content directory min_size w1 ->
  exists g2,
    (h, g2) ∈ find_duplicate_files_by_content directory min_size w2 /\
    g1 ≡ₚ g2.
Proof.
  intros Hu [-> Hlen]%duplicate_group_entry.
  pose proof (values_of_perm h _ _
                (unchanged_hash_pairs _ min_size _ _ Hu)) as Hperm.
  eexists. split; [|exact Hperm].
  apply duplicate_group_entry. split; [done|].
  by rewrite <- (Permutation_length Hperm).
Qed.

Lemma duplicate_keys_NoDup directory min_size w :
  NoDup (map fst (find_duplicate_files_by_content directory min_size w)).
Proof.
  unfold find_duplicate_files_by_content.
  rewrite find_duplicates_unfold. simpl.
  apply more_than_one_keys.
  apply (grouped_group_by _ [] []), grouped_nil.
Qed.

(** C7.  Two runs of the detection over a directory whose content is
    unchanged (the walk may list the files in another order) return the
    same groups up to the order of the groups and of the members; when the
    walk lists the files in the same order, they return the same
    dictionary. *)
Theorem detection_repeatable directory min_size w1 w2 :
  unchanged directory w1 w2 ->
  same_groups (find_duplicate_files_by_content directory min_size w1)
              (find_duplicate_files_by_content directory min_size w2) /\
  (os_walk directory w1 = os_walk directory w2 ->
   find_duplicate_files_by_content directory min_size w1 =
   find_duplicate_files_by_content directory min_size w2).
Proof.
  intros Hu. split; [split; [|split]|].
  - apply NoDup_Permutation; [apply duplicate_keys_NoDup ..|].
    intros h. rewrite !list_elem_of_fmap. split.
    + intros [[h' g1] [-> Hin]].
      destruct (unchanged_groups _ _ _ _ _ _ Hu Hin) as (g2 & Hin2 & _).
      by exists (h', g2).
    + intros [[h' g2] [-> Hin]].
      destruct (unchanged_groups _ _ _ _ _ _ (unchanged_sym _ _ _ Hu) Hin)
        as (g1 & Hin1 & _).
      by exists (h', g1).
  - intros h g1 Hin. by apply (unchanged_groups _ _ w1).
  - intros h g2 Hin.
    destruct (unchanged_groups _ _ _ _ _ _ (unchanged_sym _ _ _ Hu) Hin)
      as (g1 & Hin1 & Hp).
    by exists g1.
  - intros Hwalk.
    assert (Hc : candidates min_size w1 (os_walk directory w1) =
                 candidates min_size w2 (os_walk directory w2)).
    { rewrite <- Hwalk. unfold candidates.
      generalize (fun p Hp => unchanged_probes _ _ _ p Hu Hp).
      generalize (os_walk directory w1) as l.
      induction l as [|p l IH]; intros Hl; simpl; [done|].
      destruct (Hl p ltac:(by left)) as (-> & _ & ->).
      f_equal. apply IH. intros q Hq. apply Hl. by right. }
    assert (Hi :
      items_flat (find_duplicate_files_by_size directory min_size w1) =
      items_flat (find_duplicate_files_by_size directory min_size w2)).
    { unfold find_duplicate_files_by_size.
      by rewrite !size_loop_group_by, Hc. }
    unfold find_duplicate_files_by_content.
    rewrite !find_duplicates_unfold. simpl. rewrite <- Hi. f_equal. f_equal.
    unfold hash_pairs.
    generalize (fun sp =>
      proj1 (hashing_order_In directory min_size w1 (fst sp) (snd sp))).
    generalize (items_flat
                  (find_duplicate_files_by_size directory min_size w1)) as l.
    induction l as [|[sz p] l IH]; intros Hl; simpl; [done|].
    destruct (Hl (sz, p) ltac:(by left)) as (Hp & _). simpl in Hp.
    destruct (unchanged_probes _ _ _ _ Hu Hp) as (_ & -> & _).
    f_equal. apply IH. intros sp Hsp. apply Hl. by right.
Qed.
End DetectionProperties.

(* ===================================================================== *)
(** * Survivor selection: facts *)
(* ===================================================================== *)

Section SortFacts.
Context {A : Type}.
Implicit Types (x y : Z * A) (l : list (Z * A)).

Lemma insert_desc_perm x l : insert_desc x l ≡ₚ x :: l.
Proof.
  induction l as [|y l IH]; simpl; [done|].
  destruct (fst x <? fst y)%Z; [|done].
  rewrite IH. apply perm_swap.
Qed.

Lemma sort_desc_perm l : sort_desc l ≡ₚ l.
Proof.
  induction l as [|x l IH]; simpl; [done|].
  by rewrite insert_desc_perm, IH.
Qed.

Lemma insert_desc_sorted x l :
  StronglySorted (fun a b => (fst b <= fst a)%Z) l ->
  StronglySorted (fun a b => (fst b <= fst a)%Z) (insert_desc x l).
Proof.
  induction 1 as [|y l Hs IH Hy]; simpl.
  - repeat constructor.
  - destruct (Z.ltb_spec (fst x) (fst y)) as [Hlt|Hge].
    + constructor; [done|].
      apply List.Forall_forall. intros z Hz.
      apply list_elem_of_In in Hz. rewrite insert_desc_perm in Hz.
      apply elem_of_cons in Hz as [->|Hz]; [lia|].
      rewrite List.Forall_forall in Hy. apply Hy. by apply list_elem_of_In.
    + constructor; [by constructor|].
      constructor; [done|].
      rewrite List.Forall_forall in Hy |- *. intros z Hz.
      specialize (Hy z Hz). lia.
Qed.

Lemma sort_desc_sorted l :
  StronglySorted (fun a b => (fst b <= fst a)%Z) (sort_desc l).
Proof.
  induction l as [|x l IH]; simpl; [constructor|].
  by apply insert_desc_sorted.
Qed.

(** Stability: the elements with a given key keep their order. *)
Lemma insert_desc_stable (t : Z) x l :
  List.filter (fun e => (fst e =? t)%Z) (insert_desc x l) =
  List.filter (fun e => (fst e =? t)%Z) (x :: l).
Proof.
  induction l as [|y l IH]; simpl; [done|].
  destruct (Z.ltb_spec (fst x) (fst y)) as [Hlt|Hge]; [|done].
  simpl in *. rewrite IH.
  destruct (Z.eqb_spec (fst x) t), (Z.eqb_spec (fst y) t); try done. lia.
Qed.

Lemma sort_desc_stable (t : Z) l :
  List.filter (fun e => (fst e =? t)%Z) (sort_desc l) =
  List.filter (fun e => (fst e =? t)%Z) l.
Proof.
  induction l as [|x l IH]; simpl; [done|].
  rewrite insert_desc_stable. simpl. by rewrite IH.
Qed.

(** The head of the sorted list: the first of the largest. *)
Lemma sort_desc_head l s rest :
  sort_desc l = s :: rest ->
  exists before after,
    l = before ++ s :: after /\
    (forall m, m ∈ before -> (fst m < fst s)%Z) /\
    (forall m, m ∈ after -> (fst m <= fst s)%Z).
Proof.
  revert s rest. induction l as [|x l IH]; intros s rest; simpl; [done|].
  destruct (sort_desc l) as [|y r] eqn:Hsort; simpl.
  - intros [= <- <-]. pose proof (sort_desc_perm l) as Hp.
    rewrite Hsort in Hp. apply Permutation_nil in Hp as ->.
    exists [], []. split; [done|]. split; intros m Hm; inversion Hm.
  - destruct (IH y r eq_refl) as (before & after & -> & Hb & Ha).
    destruct (Z.ltb_spec (fst x) (fst y)) as [Hlt|Hge].
    + intros [= <- <-]. exists (x :: before), after.
      split; [done|]. split; [|done].
      intros m [->|Hm]%elem_of_cons; [done | by apply Hb].
    + intros [= <- <-]. exists [], (before ++ y :: after).
      split; [done|]. split; [intros m Hm; inversion Hm|].
      intros m [Hm|[->|Hm]%elem_of_cons]%elem_of_app.
      * specialize (Hb m Hm). lia.
      * done.
      * specialize (Ha m Hm). lia.
Qed.

Lemma snoc_cases {B} (l : list B) : l = [] \/ exists r s, l = r ++ [s].
Proof.
  induction l as [|s r _] using rev_ind; [by left | right; eauto].
Qed.

Lemma insert_desc_last x r s :
  StronglySorted (fun a b => (fst b <= fst a)%Z) (r ++ [s]) ->
  ((fst x < fst s)%Z -> insert_desc x (r ++ [s]) = r ++ [s; x]) /\
  ((fst s <= fst x)%Z -> exists r', insert_desc x (r ++ [s]) = r' ++ [s]).
Proof.
  induction r as [|y r IH]; simpl; intros Hs.
  - split; intros Hx.
    + by rewrite (proj2 (Z.ltb_lt _ _) Hx).
    + rewrite (proj2 (Z.ltb_ge _ _) Hx). by exists [x].
  - apply StronglySorted_inv in Hs as [Hs Hy].
    destruct (IH Hs) as [IH1 IH2].
    assert (Hsy : (fst s <= fst y)%Z).
    { rewrite List.Forall_forall in Hy. apply Hy, in_app_iff. right. by left. }
    split; intros Hx.
    + rewrite (proj2 (Z.ltb_lt (fst x) (fst y))) by lia. by rewrite IH1.
    + destruct (Z.ltb_spec (fst x) (fst y)).
      * destruct (IH2 Hx) as [r' ->]. by exists (y :: r').
      * by exists (x :: y :: r).
Qed.

(** The last element of the sorted list: the last of the smallest. *)
Lemma sort_desc_last l s rest :
  sort_desc l = rest ++ [s] ->
  exists before after,
    l = before ++ s :: after /\
    (forall m, m ∈ before -> (fst s <= fst m)%Z) /\
    (forall m, m ∈ after -> (fst s < fst m)%Z).
Proof.
  revert s rest. induction l as [|x l IH]; intros s rest; simpl.
  - by destruct rest.
  - destruct (snoc_cases (sort_desc l)) as [Hnil|(r & s' & Hsort)].
    + rewrite Hnil. simpl. pose proof (sort_desc_perm l) as Hp.
      rewrite Hnil in Hp. apply Permutation_nil in Hp as ->.
      intros Heq. apply (app_inj_tail [] rest) in Heq as [_ <-].
      exists [], []. split; [done|]. split; intros m Hm; inversion Hm.
    + destruct (IH s' r Hsort) as (before & after & -> & Hb & Ha).
      pose proof (sort_desc_sorted (before ++ s' :: after)) as Hs.
      rewrite Hsort in *.
      destruct (insert_desc_last x r s' Hs) as [H1 H2].
      destruct (Z.lt_ge_cases (fst x) (fst s')) as [Hlt|Hge].
      * rewrite (H1 Hlt).
        replace (r ++ [s'; x]) with ((r ++ [s']) ++ [x])
          by (by rewrite <- app_assoc).
        intros [_ <-]%app_inj_tail.
        exists [], (before ++ s' :: after). split; [done|].
        split; [intros m Hm; inversion Hm|].
        intros m [Hm|[->|Hm]%elem_of_cons]%elem_of_app.
        -- specialize (Hb m Hm). lia.
        -- done.
        -- specialize (Ha m Hm). lia.
      * destruct (H2 Hge) as [r' ->].
        intros [_ <-]%app_inj_tail.
        exists (x :: before), after. split; [done|]. split; [|done].
        intros m [->|Hm]%elem_of_cons; [done | by apply Hb].
Qed.
End SortFacts.

Section SurvivorSelection.
Context {W C : Type} `{!OS W}.
Implicit Types (w : W) (files sorted : list file_info) (st : state W C).

Lemma decorate_Ok w files l :
  decorate files w = Ok l -> l = keyed w files.
Proof.
  revert l. induction files as [|x files IH]; simpl; intros l.
  - by intros [= <-].
  - unfold mtime_key. destruct (os_path_getmtime (path x) w); [done|].
    destruct (decorate files w) as [l'|]; [|done].
    intros [= <-]. by rewrite (IH l' eq_refl).
Qed.

Lemma files_sorted_Ok w files sorted :
  files_sorted files w = Ok sorted ->
  sorted = map snd (sort_desc (keyed w files)).
Proof.
  unfold files_sorted. destruct (decorate files w) as [l|] eqn:Hd; [|done].
  intros [= <-]. by rewrite (decorate_Ok _ _ _ Hd).
Qed.

Lemma keyed_snd w files : map snd (keyed w files) = files.
Proof.
  unfold keyed. rewrite List.map_map. simpl. apply List.map_id.
Qed.

Lemma keyed_fst w files (e : Z * file_info) :
  e ∈ keyed w files -> fst e = mtime_key w (snd e).
Proof.
  unfold keyed. intros Hin. apply list_elem_of_fmap in Hin as [x [-> _]].
  done.
Qed.

Lemma keyed_sorted_fst w files (e : Z * file_info) :
  e ∈ sort_desc (keyed w files) -> fst e = mtime_key w (snd e).
Proof. rewrite sort_desc_perm. apply keyed_fst. Qed.

Lemma filter_keyed w (t : Z) (l : list (Z * file_info)) :
  (forall e, e ∈ l -> fst e = mtime_key w (snd e)) ->
  with_mtime w t (map snd l) =
  map snd (List.filter (fun e => (fst e =? t)%Z) l).
Proof.
  unfold with_mtime. induction l as [|e l IH]; simpl; intros Hl; [done|].
  rewrite <- (Hl e) by (by left). rewrite IH by (intros; apply Hl; by right).
  by destruct (fst e =? t)%Z.
Qed.

Lemma sorted_keyed w (l : list (Z * file_info)) :
  (forall e, e ∈ l -> fst e = mtime_key w (snd e)) ->
  StronglySorted (fun a b => (fst b <= fst a)%Z) l ->
  newest_first w (map snd l).
Proof.
  intros Hl Hs. induction Hs as [|e l Hs IH He]; simpl; [constructor|].
  constructor.
  - apply IH. intros; apply Hl; by right.
  - rewrite List.Forall_forall in He |- *. intros x Hx.
    apply in_map_iff in Hx as [e' [<- He']].
    rewrite <- (Hl e) by (by left).
    rewrite <- (Hl e') by (right; by apply list_elem_of_In).
    by apply He.
Qed.

Lemma keyed_split w files before (e : Z * file_info) after :
  keyed w files = before ++ e :: after ->
  exists fb fa,
    files = fb ++ snd e :: fa /\ before = keyed w fb /\
    after = keyed w fa /\ fst e = mtime_key w (snd e).
Proof.
  unfold keyed. intros Heq.
  apply List.map_eq_app in Heq as (fb & rest & -> & <- & Heq).
  apply List.map_eq_cons in Heq as (x & fa & -> & <- & <-).
  by exists fb, fa.
Qed.

Lemma last_item_snoc {B} (l : list B) (x : B) : last_item (l ++ [x]) = Ok x.
Proof.
  unfold last_item. rewrite map_app. simpl. by rewrite List.last_last.
Qed.

(** The sorted list is the group in another order, with the survivor at
    the end that [keep_newest] selects. *)
Lemma sorted_split w files (keep_newest : bool) sorted :
  files_sorted files w = Ok sorted ->
  sorted ≡ₚ files /\
  (files <> [] ->
   exists s,
     (if keep_newest
      then sorted = s :: files_to_remove keep_newest sorted
      else sorted = files_to_remove keep_newest sorted ++ [s]) /\
     source_file keep_newest sorted = Ok (path s)).
Proof.
  intros Hsorted.
  assert (Hperm : sorted ≡ₚ files).
  { rewrite (files_sorted_Ok _ _ _ Hsorted), sort_desc_perm.
    by rewrite keyed_snd. }
  split; [done|]. intros Hne. destruct keep_newest.
  - destruct sorted as [|s rest].
    + by apply Permutation_nil in Hperm.
    + by exists s.
  - destruct (snoc_cases sorted) as [->|(rest & s & ->)].
    + by apply Permutation_nil in Hperm.
    + exists s. simpl. rewrite removelast_last. split; [done|].
      unfold source_file. by rewrite last_item_snoc.
Qed.

(** C3.  When the modification times can be read, the members of a group
    are sorted by modification time, newest first, and members with equal
    times keep their enumeration order; with [keep_newest] the survivor is
    the head of that list, the newest member and among the newest the one
    enumerated first; otherwise it is the last element, the oldest member
    and among the oldest the one enumerated last.  The delete strategy
    processes the other members in sorted order, and the link strategies
    do so with the survivor as their source. *)
Theorem survivor_selection w files keep_newest sorted :
  files_sorted files w = Ok sorted ->
  sorted ≡ₚ files /\
  newest_first w sorted /\
  (forall t, with_mtime w t sorted = with_mtime w t files) /\
  (forall callback st, world st = w ->
     clean_group keep_newest callback st files =
     Ok (fold_left (delete_member callback)
                   (files_to_remove keep_newest sorted) st)) /\
  (files <> [] ->
   exists s,
     (if keep_newest
      then sorted = s :: files_to_remove keep_newest sorted /\
           first_newest w files s
      else sorted = files_to_remove keep_newest sorted ++ [s] /\
           last_oldest w files s) /\
     source_file keep_newest sorted = Ok (path s) /\
     forall member st, world st = w ->
       link_group member keep_newest st files =
       Ok (fold_left (member (path s))
                     (files_to_remove keep_newest sorted) st)).
Proof.
  intros Hsorted. pose proof (files_sorted_Ok _ _ _ Hsorted) as ->.
  assert (Hperm : map snd (sort_desc (keyed w files)) ≡ₚ files).
  { rewrite sort_desc_perm. by rewrite keyed_snd. }
  split; [done|]. split; [|split; [|split]].
  - apply sorted_keyed; [apply keyed_sorted_fst | apply sort_desc_sorted].
  - intros t. rewrite filter_keyed by apply keyed_sorted_fst.
    rewrite sort_desc_stable.
    rewrite <- (filter_keyed w t (keyed w files)) by apply keyed_fst.
    by rewrite keyed_snd.
  - intros callback st <-. unfold clean_group. by rewrite Hsorted.
  - intros Hne.
    assert (Hsrc : forall s,
      source_file keep_newest (map snd (sort_desc (keyed w files)))
        = Ok (path s) ->
      forall member st, world st = w ->
        link_group member keep_newest st files =
        Ok (fold_left (member (path s))
              (files_to_remove keep_newest
                 (map snd (sort_desc (keyed w files)))) st)).
    { intros s Hs member st <-. unfold link_group.
      by rewrite Hsorted, Hs. }
    destruct keep_newest.
    + destruct (sort_desc (keyed w files)) as [|e rest] eqn:Hsort.
      { simpl in Hperm. apply Permutation_nil in Hperm. done. }
      exists (snd e). split; [split; [done|]|split; [done|by apply Hsrc]].
      destruct (sort_desc_head _ _ _ Hsort)
        as (before & after & Hk & Hb & Ha).
      apply keyed_split in Hk as (fb & fa & -> & -> & -> & He).
      exists fb, fa. split; [done|]. rewrite <- He. split.
      * intros m Hm. rewrite <- (keyed_fst w fb (mtime_key w m, m)).
        -- apply (Hb (mtime_key w m, m)).
           apply list_elem_of_fmap. by exists m.
        -- apply list_elem_of_fmap. by exists m.
      * intros m Hm. rewrite <- (keyed_fst w fa (mtime_key w m, m)).
        -- apply (Ha (mtime_key w m, m)).
           apply list_elem_of_fmap. by exists m.
        -- apply list_elem_of_fmap. by exists m.
    + destruct (snoc_cases (sort_desc (keyed w files)))
        as [Hnil|(rest & e & Hsort)].
      { rewrite Hnil in Hperm. simpl in Hperm.
        apply Permutation_nil in Hperm. done. }
      assert (Hsplit : map snd (sort_desc (keyed w files)) =
                       map snd rest ++ [snd e]).
      { by rewrite Hsort, map_app. }
      assert (Hrm : files_to_remove false
                      (map snd (sort_desc (keyed w files))) = map snd rest).
      { simpl. rewrite Hsplit. by rewrite removelast_last. }
      exists (snd e). rewrite Hrm in *. split; [split; [done|]|].
      * destruct (sort_desc_last _ _ _ Hsort)
          as (before & after & Hk & Hb & Ha).
        apply keyed_split in Hk as (fb & fa & -> & -> & -> & He).
        exists fb, fa. split; [done|]. rewrite <- He. split.
        -- intros m Hm. rewrite <- (keyed_fst w fb (mtime_key w m, m)).
           ++ apply (Hb (mtime_key w m, m)).
              apply list_elem_of_fmap. by exists m.
           ++ apply list_elem_of_fmap. by exists m.
        -- intros m Hm. rewrite <- (keyed_fst w fa (mtime_key w m, m)).
           ++ apply (Ha (mtime_key w m, m)).
              apply list_elem_of_fmap. by exists m.
           ++ apply list_elem_of_fmap. by exists m.
      * assert (Hs : source_file false
                       (map snd (sort_desc (keyed w files)))
                     = Ok (path (snd e))).
        { unfold source_file. by rewrite Hsplit, last_item_snoc. }
        split; [done|]. intros member st Hw.
        exact (Hsrc _ Hs member st Hw).
Qed.

End SurvivorSelection.

(* ===================================================================== *)
(** * Consolidation runs: facts *)
(* ===================================================================== *)

Section RunFacts.
Context {W C : Type} `{!OS W}.
Implicit Types (st : state W C) (fi : file_info)
  (callback : option (string -> C -> C))
  (P : detail -> list event -> Prop).

Lemma processes_nil P callback st : processes P callback [] st st.
Proof.
  exists [], []. simpl. rewrite app_nil_r. repeat split; constructor.
Qed.

Lemma processes_app P callback l1 l2 st1 st2 st3 :
  processes P callback l1 st1 st2 -> processes P callback l2 st2 st3 ->
  processes P callback (l1 ++ l2) st1 st3.
Proof.
  intros (ds1 & ch1 & HP1 & Hm1 & Hc1 & Hr1 & Hp1)
         (ds2 & ch2 & HP2 & Hm2 & Hc2 & Hr2 & Hp2).
  exists (ds1 ++ ds2), (ch1 ++ ch2). repeat split.
  - by apply Forall2_app.
  - by apply Forall2_app.
  - rewrite Hc2, Hc1, concat_app. by rewrite <- app_assoc.
  - by rewrite Hr2, Hr1, fold_left_app.
  - unfold successes in *. rewrite Hp2, Hp1, List.filter_app.
    by rewrite fold_left_app.
Qed.

Lemma processes_fold P callback
    (member : state W C -> file_info -> state W C) :
  (forall st fi, processes P callback [fi] st (member st fi)) ->
  forall l st, processes P callback l st (fold_left member l st).
Proof.
  intros Hstep l. induction l as [|fi l IH]; intros st; simpl.
  - apply processes_nil.
  - apply (processes_app _ _ [fi] l _ (member st fi)); [apply Hstep|apply IH].
Qed.

(** A detail with its calls is the processing of one member. *)
Lemma processes_one P callback st st' fi d chunk :
  P d chunk ->
  d_target d = path fi -> d_size_bytes d = size_bytes fi ->
  d_size d = size fi ->
  calls st' = calls st ++ chunk ->
  res st' = push d (res st) ->
  progress st' =
    (if d_success d then notify callback (path fi) (progress st)
     else progress st) ->
  processes P callback [fi] st st'.
Proof.
  intros HP Ht Hs Hsz Hc Hr Hp. exists [d], [chunk]. simpl.
  rewrite app_nil_r. repeat split; try done.
  - by repeat constructor.
  - by repeat constructor.
  - rewrite Hp. unfold successes. simpl.
    destruct (d_success d); simpl; by rewrite ?Ht.
Qed.

Lemma delete_member_processes callback st fi :
  processes delete_attempt callback [fi] st (delete_member callback st fi).
Proof.
  unfold delete_member.
  destruct (send2trash (path fi) (world st)) as [[e1|] w1].
  - destruct (os_remove (path fi) w1) as [[e2|] w2].
    + eapply (processes_one _ _ _ _ _
        {| d_success := false; d_error := Some e2 |}); simpl; try done.
      * split; [done|]. right; right. by exists e1, e2.
      * by rewrite <- app_assoc.
    + eapply (processes_one _ _ _ _ _
        {| d_success := true; d_error := None |}); simpl; try done.
      * split; [done|]. right; left. by exists e1.
      * by rewrite <- app_assoc.
  - eapply (processes_one _ _ _ _ _
      {| d_success := true; d_error := None |}); simpl; try done.
    split; [done|]. by left.
Qed.

Lemma hardlink_member_processes callback source st fi :
  processes (link_attempt hardlink_event) callback [fi] st
            (hardlink_member callback source st fi).
Proof.
  unfold hardlink_member.
  destruct (os_remove (path fi) (world st)) as [[e1|] w1].
  - eapply (processes_one _ _ _ _ _
      {| d_success := false; d_error := Some e1 |}); simpl; try done.
    exists source. split; [done|]. right; left. by exists e1.
  - destruct (os_link source (path fi) w1) as [[e2|] w2].
    + eapply (processes_one _ _ _ _ _
        {| d_success := false; d_error := Some e2 |}); simpl; try done.
      * exists source. split; [done|]. right; right.
        by exists e2, (Link source (path fi) (Some e2)).
      * by rewrite <- app_assoc.
    + eapply (processes_one _ _ _ _ _
        {| d_success := true; d_error := None |}); simpl; try done.
      * exists source. split; [done|]. left.
        by exists (Link source (path fi) None).
      * by rewrite <- app_assoc.
Qed.

Lemma symlink_member_processes callback source st fi :
  processes (link_attempt symlink_event) callback [fi] st
            (symlink_member callback source st fi).
Proof.
  unfold symlink_member.
  destruct (os_remove (path fi) (world st)) as [[e1|] w1].
  - eapply (processes_one _ _ _ _ _
      {| d_success := false; d_error := Some e1 |}); simpl; try done.
    exists source. split; [done|]. right; left. by exists e1.
  - destruct (os_symlink (os_path_abspath source w1) (path fi) w1)
      as [[e2|] w2].
    + eapply (processes_one _ _ _ _ _
        {| d_success := false; d_error := Some e2 |}); simpl; try done.
      * exists source. split; [done|]. right; right.
        exists e2, (Symlink (os_path_abspath source w1) (path fi) (Some e2)).
        repeat split; try done. by exists w1.
      * by rewrite <- app_assoc.
    + eapply (processes_one _ _ _ _ _
        {| d_success := true; d_error := None |}); simpl; try done.
      * exists source. split; [done|]. left.
        exists (Symlink (os_path_abspath source w1) (path fi) None).
        repeat split; try done. by exists w1.
      * by rewrite <- app_assoc.
Qed.
End RunFacts.

Section GroupFacts.
Context {W C : Type} `{!OS W}.
Implicit Types (st : state W C) (fi : file_info)
  (callback : option (string -> C -> C)) (s : strategy).

Lemma run_strategy_unfold s directory duplicates keep_newest callback
    (w : W) (c : C) :
  run_strategy s directory duplicates keep_newest callback w c =
  consolidate (group_body s keep_newest callback) directory duplicates w c.
Proof. by destruct s. Qed.

(** A group whose members can be sorted is processed member by member:
    every member but the survivor gets its detail, whatever fails. *)
Lemma group_body_processes s keep_newest callback st files sorted :
  files_sorted files (world st) = Ok sorted ->
  (s = Delete \/ files <> []) ->
  exists st',
    group_body s keep_newest callback st files = Ok st' /\
    processes (policy s) callback (files_to_remove keep_newest sorted)
              st st'.
Proof.
  intros Hsorted Hne.
  destruct (sorted_split _ _ keep_newest _ Hsorted) as (_ & Hsv).
  destruct s; simpl; unfold clean_group, link_group; rewrite Hsorted.
  - eexists. split; [done|].
    apply processes_fold, delete_member_processes.
  - destruct Hne as [?|Hne]; [done|].
    destruct (Hsv Hne) as (sv & _ & ->).
    eexists. split; [done|].
    apply processes_fold, hardlink_member_processes.
  - destruct Hne as [?|Hne]; [done|].
    destruct (Hsv Hne) as (sv & _ & ->).
    eexists. split; [done|].
    apply processes_fold, symlink_member_processes.
Qed.

Lemma group_body_Ok s keep_newest callback st files st' :
  group_body s keep_newest callback st files = Ok st' ->
  exists members, processes (policy s) callback members st st'.
Proof.
  destruct s; simpl; unfold clean_group, link_group;
    destruct (files_sorted files (world st)) as [sorted|]; try done.
  - intros [= <-]. eexists. apply processes_fold, delete_member_processes.
  - destruct (source_file keep_newest sorted); [|done].
    intros [= <-]. eexists. apply processes_fold, hardlink_member_processes.
  - destruct (source_file keep_newest sorted); [|done].
    intros [= <-]. eexists. apply processes_fold, symlink_member_processes.
Qed.

Lemma for_each_group_processes s keep_newest callback groups st :
  exists members,
    processes (policy s) callback members st
      (snd (for_each_group (group_body s keep_newest callback) groups st)).
Proof.
  revert st. induction groups as [|[h files] groups IH]; intros st; simpl.
  - exists []. apply processes_nil.
  - destruct (group_body s keep_newest callback st files) as [st'|e] eqn:Hb.
    + destruct (group_body_Ok _ _ _ _ _ _ Hb) as [l1 H1].
      destruct (IH st') as [l2 H2].
      exists (l1 ++ l2). by apply (processes_app _ _ _ _ _ st').
    + exists []. apply processes_nil.
Qed.

Lemma fold_push_details ds (r : cleaning_result) :
  details (fold_left (fun r d => push d r) ds r) = details r ++ ds.
Proof.
  revert r. induction ds as [|d ds IH]; intros r; simpl.
  - by rewrite app_nil_r.
  - rewrite IH. simpl. by rewrite <- app_assoc.
Qed.

Lemma fold_push_count ds (r : cleaning_result) :
  total_count (fold_left (fun r d => push d r) ds r) =
  total_count r + length (successes ds).
Proof.
  revert r. induction ds as [|d ds IH]; intros r; simpl; [lia|].
  rewrite IH. unfold successes. simpl. destruct (d_success d); simpl; lia.
Qed.

Lemma fold_push_bytes ds (r : cleaning_result) :
  total_size_bytes (fold_left (fun r d => push d r) ds r) =
  (total_size_bytes r + sum_sizes (successes ds))%N.
Proof.
  revert r. induction ds as [|d ds IH]; intros r; simpl; [lia|].
  rewrite IH. unfold successes. simpl. destruct (d_success d); simpl; lia.
Qed.

(** What a run that returns has done: its details are those of the
    members it processed, its calls theirs, its totals their successes. *)
Lemma run_strategy_processes s directory duplicates keep_newest callback
    (w : W) (c : C) r :
  let o := run_strategy s directory duplicates keep_newest callback w c in
  returned o = Ok r ->
  exists chunks,
    Forall2 (policy s) (details r) chunks /\
    os_calls o = concat chunks /\
    final_progress o =
      fold_left (fun c d => notify callback (d_target d) c)
                (successes (details r)) c /\
    tally_consistent r /\
    total_size r = SizeUtils.format_size (total_size_bytes r).
Proof.
  intros o. subst o. rewrite run_strategy_unfold. unfold consolidate.
  set (groups := given_or_found directory duplicates w).
  set (st0 := State w [] c _).
  destruct (for_each_group_processes s keep_newest callback groups st0)
    as (members & ds & chunks & HP & _ & Hc & Hr & Hp).
  destruct (for_each_group _ groups st0) as [[e|] st'] eqn:Hrun;
    simpl in *; [done|].
  intros [= <-]. simpl. exists chunks.
  rewrite Hr, fold_push_details. simpl.
  repeat split; try done.
  - by rewrite fold_push_count.
  - by rewrite fold_push_bytes.
Qed.
End GroupFacts.

Section CallbackFacts.
Context {W C : Type} `{!OS W}.
Implicit Types (st : state W C) (fi : file_info)
  (callback : option (string -> C -> C)) (s : strategy).







End CallbackFacts.

(* ===================================================================== *)
(** * Consolidation: the properties *)
(* ===================================================================== *)

Section ConsolidationProperties.
Context {W C : Type} `{!OS W}.
Implicit Types (st : state W C) (fi : file_info)
  (callback : option (string -> C -> C)) (s : strategy).



End ConsolidationProperties.

(* ===================================================================== *)
(** * The symbolic-link strategy on the file system *)
(* ===================================================================== *)

Section SymlinkFacts.
Context {C : Type} (digest : string -> string).
Implicit Types (w : FS.t) (st : state FS.t C) (fi : file_info)
  (callback : option (string -> C -> C)).

Lemma abspath_cwd p w w' :
  FS.cwd w' = FS.cwd w -> FS.abspath p w' = FS.abspath p w.
Proof. unfold FS.abspath. by intros ->. Qed.

Lemma abspath_absolute p w :
  FS.is_absolute (FS.cwd w) = true ->
  FS.is_absolute (FS.abspath p w) = true.
Proof.
  unfold FS.abspath. intros Hc.
  destruct (FS.is_absolute p) eqn:Hp; [done|].
  destruct (FS.cwd w); done.
Qed.

Lemma same_off_refl keys w : same_off keys w w.
Proof. by split. Qed.

Lemma same_off_trans keys1 keys2 w1 w2 w3 :
  same_off keys1 w1 w2 -> same_off keys2 w2 w3 ->
  same_off (keys1 ++ keys2) w1 w3.
Proof.
  intros [Hc1 Hn1] [Hc2 Hn2]. split; [congruence|].
  intros k Hk. rewrite not_elem_of_app in Hk. destruct Hk.
  rewrite Hn2, Hn1; done.
Qed.

Lemma same_off_weaken keys keys' w w' :
  (forall k, k ∈ keys -> k ∈ keys') -> same_off keys w w' ->
  same_off keys' w w'.
Proof. intros Hsub [Hc Hn]. split; [done|]. intros k Hk. apply Hn. auto. Qed.

Lemma remove_spec p w e w' :
  FS.remove p w = (e, w') ->
  same_off [FS.abspath p w] w w' /\
  (e = None -> FS.nodes w' !! FS.abspath p w = None) /\
  FS.protected w' = FS.protected w.
Proof.
  unfold FS.remove.
  destruct (FS.nodes w !! FS.abspath p w) eqn:Hn.
  - case_bool_decide.
    + intros [= <- <-]. by repeat split.
    + intros [= <- <-]. simpl. repeat split.
      * intros k Hk. apply lookup_delete_ne. set_solver.
      * intros _. apply lookup_delete_eq.
  - intros [= <- <-]. by repeat split.
Qed.

Lemma symlink_spec target p w e w' :
  FS.symlink target p w = (e, w') ->
  same_off [FS.abspath p w] w w' /\
  (e = None ->
   FS.nodes w' !! FS.abspath p w = Some (FS.SymbolicLink target)).
Proof.
  unfold FS.symlink.
  destruct (FS.nodes w !! FS.abspath p w) eqn:Hn.
  - intros [= <- <-]. by repeat split.
  - case_bool_decide.
    + intros [= <- <-]. by repeat split.
    + intros [= <- <-]. simpl. repeat split.
      * intros k Hk. apply lookup_insert_ne. set_solver.
      * intros _. apply lookup_insert_eq.
Qed.

(** One member: only its own entry changes; when its detail reports
    success, the entry is a link to the absolute path of the source. *)
Lemma symlink_member_fs callback source st fi :
  let st' := symlink_member (OS0 := FS.os digest) callback source st fi in
  let key := FS.abspath (path fi) (world st) in
  same_off [key] (world st) (world st') /\
  (exists more, calls st' = calls st ++ more) /\
  exists d,
    details (res st') = details (res st) ++ [d] /\
    d_target d = path fi /\ d_source d = Some source /\
    (d_success d = true ->
     FS.nodes (world st') !! key =
       Some (FS.SymbolicLink (FS.abspath source (world st))) /\
     calls st' =
       calls st ++ [Remove (path fi) None;
                    Symlink (FS.abspath source (world st)) (path fi) None]).
Proof.
  unfold symlink_member. simpl.
  destruct (FS.remove (path fi) (world st)) as [e1 w1] eqn:Hrm.
  destruct (remove_spec _ _ _ _ Hrm) as (Hoff1 & Hnone & _).
  destruct e1 as [msg|]; simpl.
  - split; [done|]. split; [by eexists|]. eexists. by repeat split.
  - destruct (FS.symlink (FS.abspath source w1) (path fi) w1)
      as [e2 w2] eqn:Hsl.
    destruct (symlink_spec _ _ _ _ _ Hsl) as (Hoff2 & Hlink).
    rewrite (abspath_cwd _ _ _ (proj1 Hoff1)) in Hoff2, Hlink.
    rewrite (abspath_cwd source _ _ (proj1 Hoff1)) in Hlink.
    assert (Hoff : same_off [FS.abspath (path fi) (world st)]
                            (world st) w2).
    { apply (same_off_weaken
               ([FS.abspath (path fi) (world st)] ++
                [FS.abspath (path fi) (world st)])).
      - intros k [Hk|Hk]%elem_of_app; done.
      - apply (same_off_trans _ _ _ _ _ Hoff1 Hoff2). }
    destruct e2 as [msg|]; simpl.
    + split; [done|]. split; [rewrite <- app_assoc; by eexists|].
      eexists. by repeat split.
    + split; [done|]. split; [rewrite <- app_assoc; by eexists|].
      eexists. repeat split; try done.
      * by apply Hlink.
      * rewrite (abspath_cwd source _ _ (proj1 Hoff1)).
        by rewrite <- app_assoc.
Qed.

Lemma relinks_app log more link_target target :
  relinks log link_target target -> relinks (log ++ more) link_target target.
Proof.
  intros (before & after & ->). exists before, (after ++ more).
  by rewrite <- !app_assoc.
Qed.

(** The members of one group, linked to [source]. *)
Lemma symlink_fold_fs callback source members st :
  NoDup (member_keys (world st) members) ->
  let st' :=
    fold_left (symlink_member (OS0 := FS.os digest) callback source)
              members st in
  same_off (member_keys (world st) members) (world st) (world st') /\
  (exists more, calls st' = calls st ++ more) /\
  exists ds,
    details (res st') = details (res st) ++ ds /\
    forall d, d ∈ ds -> d_success d = true ->
      d_source d = Some source /\
      FS.abspath (d_target d) (world st)
        ∈ member_keys (world st) members /\
      FS.nodes (world st') !! FS.abspath (d_target d) (world st) =
        Some (FS.SymbolicLink (FS.abspath source (world st))) /\
      relinks (calls st') (FS.abspath source (world st)) (d_target d).
Proof.
  revert st. induction members as [|fi l IH]; intros st Hnd; simpl.
  - split; [apply same_off_refl|]. split; [exists []; by rewrite app_nil_r|].
    exists []. rewrite app_nil_r.
    split; [done|]. intros d Hd. inversion Hd.
  - simpl in Hnd. apply NoDup_cons in Hnd as [Hfi Hnd].
    destruct (symlink_member_fs callback source st fi)
      as (Hoff1 & [more1 Hc1] & d1 & Hd1 & Ht1 & Hs1 & Hl1).
    set (st1 := symlink_member (OS0 := FS.os digest) callback source st fi)
      in *.
    assert (Hkeys : member_keys (world st1) l = member_keys (world st) l).
    { unfold member_keys. apply map_ext. intros x.
      apply abspath_cwd, Hoff1. }
    destruct (IH st1) as (Hoff2 & [more2 Hc2] & ds & Hds & Hall).
    { by rewrite Hkeys. }
    rewrite Hkeys in Hoff2. split; [|split].
    + apply (same_off_trans [_] _ _ _ _ Hoff1 Hoff2).
    + exists (more1 ++ more2). by rewrite Hc2, Hc1, <- app_assoc.
    + exists (d1 :: ds). split.
      { rewrite Hds, Hd1. by rewrite <- app_assoc. }
      intros d [->|Hd]%elem_of_cons Hok.
      * rewrite Ht1. split; [done|]. split; [by left|].
        destruct (Hl1 Hok) as [Hnode Hcalls]. split.
        -- destruct Hoff2 as [_ Hn]. by rewrite Hn.
        -- rewrite Hc2, Hcalls. exists (calls st), more2.
           by rewrite <- app_assoc.
      * destruct (Hall d Hd Hok) as (Hsrc & Hin & Hlk & Hrl).
        rewrite Hkeys in Hin.
        rewrite (abspath_cwd _ _ _ (proj1 Hoff1)) in Hin, Hlk.
        rewrite (abspath_cwd source _ _ (proj1 Hoff1)) in Hlk, Hrl.
        split; [done|]. split; [by right | done].
Qed.

Lemma member_keys_cwd w w' members :
  FS.cwd w' = FS.cwd w -> member_keys w' members = member_keys w members.
Proof.
  intros Hc. unfold member_keys. apply map_ext. intros x.
  by apply abspath_cwd.
Qed.

Lemma source_file_nonempty keep_newest (sorted : list file_info) source :
  source_file keep_newest sorted = Ok source -> sorted <> [].
Proof. intros Hs ->. by destruct keep_newest. Qed.

(** One group: the entries of the members other than the survivor become
    links to it when their detail reports success; the entry of the
    survivor stays as it was. *)
Lemma symlink_group_fs callback keep_newest st files st' :
  link_group (OS0 := FS.os digest)
             (symlink_member (OS0 := FS.os digest) callback)
             keep_newest st files = Ok st' ->
  NoDup (member_keys (world st) files) ->
  same_off (member_keys (world st) files) (world st) (world st') /\
  (exists more, calls st' = calls st ++ more) /\
  exists ds,
    details (res st') = details (res st) ++ ds /\
    forall d, d ∈ ds -> d_success d = true ->
      exists source,
        d_source d = Some source /\
        FS.abspath (d_target d) (world st)
          ∈ member_keys (world st) files /\
        FS.abspath source (world st) ∈ member_keys (world st) files /\
        FS.nodes (world st') !! FS.abspath (d_target d) (world st) =
          Some (FS.SymbolicLink (FS.abspath source (world st))) /\
        FS.nodes (world st') !! FS.abspath source (world st) =
          FS.nodes (world st) !! FS.abspath source (world st) /\
        relinks (calls st') (FS.abspath source (world st)) (d_target d).
Proof.
  intros Hrun Hnd. unfold link_group in Hrun.
  destruct (files_sorted (OS0 := FS.os digest) files (world st))
    as [sorted|] eqn:Hsorted; [|done].
  destruct (source_file keep_newest sorted) as [source|] eqn:Hsrc; [|done].
  injection Hrun as <-.
  destruct (sorted_split (OS0 := FS.os digest) _ _ keep_newest _ Hsorted)
    as (Hperm & Hsurv).
  assert (Hne : files <> []).
  { intros ->. symmetry in Hperm. apply Permutation_nil in Hperm.
    by apply (source_file_nonempty _ _ _ Hsrc). }
  destruct (Hsurv Hne) as (sv & Hsplit & Hsv).
  rewrite Hsrc in Hsv. injection Hsv as ->.
  set (rest := files_to_remove keep_newest sorted) in *.
  assert (Hkperm : member_keys (world st) sorted ≡ₚ
                   member_keys (world st) files).
  { unfold member_keys. by apply Permutation_map. }
  assert (Hparts : NoDup (member_keys (world st) rest) /\
                   (FS.abspath (path sv) (world st)
                      ∉ member_keys (world st) rest) /\
                   member_keys (world st) sorted ≡ₚ
                     FS.abspath (path sv) (world st)
                       :: member_keys (world st) rest).
  { rewrite <- Hkperm in Hnd. destruct keep_newest.
    - rewrite Hsplit in Hnd |- *.
      simpl in *. apply NoDup_cons in Hnd as [? ?]. done.
    - rewrite Hsplit in Hnd |- *.
      unfold member_keys in *. rewrite map_app in *. simpl in *.
      apply NoDup_app in Hnd as (Hnd1 & Hdis & _). split; [done|].
      split.
      + intros Hin. apply (Hdis _ Hin). by left.
      + by rewrite Permutation_app_comm. }
  destruct Hparts as (Hnd' & Hsv & Hk).
  assert (Hsub : forall k, k ∈ member_keys (world st) rest ->
                           k ∈ member_keys (world st) files).
  { intros k Hin. rewrite <- Hkperm, Hk. by right. }
  destruct (symlink_fold_fs callback (path sv) rest st Hnd')
    as (Hoff & Hmore & ds & Hds & Hall).
  split; [by apply (same_off_weaken _ _ _ _ Hsub)|]. split; [done|].
  exists ds. split; [done|]. intros d Hd Hok.
  destruct (Hall d Hd Hok) as (Hs & Hin & Hl & Hrl).
  exists (path sv). repeat split; try done.
  - by apply Hsub.
  - rewrite <- Hkperm, Hk. by left.
  - destruct Hoff as [_ Hn]. by apply Hn.
Qed.

(** The whole loop. *)
Lemma symlink_run_fs callback keep_newest groups st :
  NoDup (member_keys (world st) (all_members groups)) ->
  let st' := snd (for_each_group
                    (link_group (OS0 := FS.os digest)
                       (symlink_member (OS0 := FS.os digest) callback)
                       keep_newest)
                    groups st) in
  same_off (member_keys (world st) (all_members groups))
           (world st) (world st') /\
  (exists more, calls st' = calls st ++ more) /\
  exists ds,
    details (res st') = details (res st) ++ ds /\
    forall d, d ∈ ds -> d_success d = true ->
      exists source,
        d_source d = Some source /\
        FS.abspath (d_target d) (world st)
          ∈ member_keys (world st) (all_members groups) /\
        FS.abspath source (world st)
          ∈ member_keys (world st) (all_members groups) /\
        FS.nodes (world st') !! FS.abspath (d_target d) (world st) =
          Some (FS.SymbolicLink (FS.abspath source (world st))) /\
        FS.nodes (world st') !! FS.abspath source (world st) =
          FS.nodes (world st) !! FS.abspath source (world st) /\
        relinks (calls st') (FS.abspath source (world st)) (d_target d).
Proof.
  revert st. induction groups as [|[h files] groups IH]; intros st Hnd.
  - simpl. split; [apply same_off_refl|].
    split; [exists []; by rewrite app_nil_r|]. exists []. rewrite app_nil_r.
    split; [done|]. intros d Hd. inversion Hd.
  - unfold all_members in *. simpl in *. unfold member_keys in Hnd |- *.
    rewrite map_app in *. fold (member_keys (world st) files) in *.
    fold (member_keys (world st) (concat (map snd groups))) in *.
    apply NoDup_app in Hnd as (Hnd1 & Hdis & Hnd2).
    destruct (link_group (OS0 := FS.os digest)
                (symlink_member (OS0 := FS.os digest) callback)
                keep_newest st files)
      as [st1|e] eqn:Hg.
    + destruct (symlink_group_fs _ _ _ _ _ Hg Hnd1)
        as (Hoff1 & [more1 Hc1] & ds1 & Hds1 & Hall1).
      pose proof (proj1 Hoff1) as Hcwd.
      specialize (IH st1). rewrite (member_keys_cwd _ _ _ Hcwd) in IH.
      destruct (IH Hnd2) as (Hoff2 & [more2 Hc2] & ds2 & Hds2 & Hall2).
      split; [by apply (same_off_trans _ _ _ _ _ Hoff1 Hoff2)|].
      split; [exists (more1 ++ more2); by rewrite Hc2, Hc1, <- app_assoc|].
      exists (ds1 ++ ds2). split.
      { rewrite Hds2, Hds1. by rewrite <- app_assoc. }
      intros d [Hd|Hd]%elem_of_app Hok.
      * destruct (Hall1 d Hd Hok)
          as (src & Hs & Ht & Hsk & Hl & Hr & Hrl).
        exists src. destruct Hoff2 as [_ Hn2].
        repeat split; try done.
        -- apply elem_of_app. by left.
        -- apply elem_of_app. by left.
        -- rewrite Hn2; [done|]. by apply Hdis.
        -- rewrite Hn2; [done|]. by apply Hdis.
        -- rewrite Hc2. by apply relinks_app.
      * destruct (Hall2 d Hd Hok)
          as (src & Hs & Ht & Hsk & Hl & Hr & Hrl).
        rewrite (abspath_cwd (d_target d) _ _ Hcwd) in Ht, Hl.
        rewrite (abspath_cwd src _ _ Hcwd) in Hsk, Hl, Hr, Hrl.
        exists src. destruct Hoff1 as [_ Hn1].
        repeat split; try done.
        -- apply elem_of_app. by right.
        -- apply elem_of_app. by right.
        -- rewrite Hr. apply Hn1. intros Hin. by apply (Hdis _ Hin).
    + simpl. split; [apply same_off_refl|].
      split; [exists []; by rewrite app_nil_r|]. exists []. rewrite app_nil_r.
      split; [done|]. intros d Hd. inversion Hd.
Qed.
End SymlinkFacts.

Section SymlinkProperty.
Context {C : Type} (digest : string -> string).

Lemma stat_through_link w p target data mtime readable :
  FS.is_absolute target = true ->
  FS.nodes w !! FS.abspath p w = Some (FS.SymbolicLink target) ->
  FS.nodes w !! target = Some (FS.Regular data mtime readable) ->
  FS.stat p w = Some (data, mtime, readable).
Proof.
  intros Habs Hlink Hreg. unfold FS.stat. simpl.
  rewrite Hlink, Habs. simpl. by rewrite Hreg.
Qed.

Lemma stat_regular w p data mtime readable :
  FS.nodes w !! FS.abspath p w = Some (FS.Regular data mtime readable) ->
  FS.stat p w = Some (data, mtime, readable).
Proof. intros Hreg. unfold FS.stat. simpl. by rewrite Hreg. Qed.

(** The members of a group of regular files can be sorted. *)
Lemma decorate_regular (w : FS.t) (files : list file_info) :
  (forall fi, fi ∈ files -> is_regular w (path fi)) ->
  exists l, decorate (OS0 := FS.os digest) files w = Ok l.
Proof.
  induction files as [|x files IH]; intros Hreg; simpl; [by eexists|].
  destruct (Hreg x ltac:(by left)) as (data & mtime & readable & Hnode).
  unfold FS.getmtime. rewrite (stat_regular _ _ _ _ _ Hnode).
  destruct IH as [l ->]; [|by eexists].
  intros fi Hfi. apply Hreg. by right.
Qed.

Lemma is_regular_same_off keys w w' p :
  same_off keys w w' -> FS.abspath p w ∉ keys ->
  is_regular w p -> is_regular w' p.
Proof.
  intros [Hcwd Hn] Hp (data & mtime & readable & Hnode).
  exists data, mtime, readable.
  rewrite (abspath_cwd _ _ _ Hcwd). by rewrite Hn.
Qed.

(** On groups of regular files without repetition, none of them empty, the
    loop of the symlink strategy raises nothing. *)
Lemma symlink_run_returns (callback : option (string -> C -> C))
    keep_newest groups (st : state FS.t C) :
  NoDup (member_keys (world st) (all_members groups)) ->
  (forall fi, fi ∈ all_members groups -> is_regular (world st) (path fi)) ->
  (forall g, g ∈ groups -> snd g <> []) ->
  fst (for_each_group
         (link_group (OS0 := FS.os digest)
            (symlink_member (OS0 := FS.os digest) callback) keep_newest)
         groups st) = None.
Proof.
  revert st. induction groups as [|[h files] groups IH];
    intros st Hnd Hreg Hne; [done|].
  unfold all_members in *. simpl in *. unfold member_keys in Hnd.
  rewrite map_app in Hnd. fold (member_keys (world st) files) in Hnd.
  fold (member_keys (world st) (concat (map snd groups))) in Hnd.
  pose proof Hnd as Hnd'. apply NoDup_app in Hnd' as (Hnd1 & Hdis & Hnd2).
  destruct (decorate_regular (world st) files) as [l Hl].
  { intros fi Hfi. apply Hreg, elem_of_app. by left. }
  assert (Hsorted : files_sorted (OS0 := FS.os digest) files (world st)
                    = Ok (map snd (sort_desc l))).
  { unfold files_sorted. by rewrite Hl. }
  destruct (sorted_split (OS0 := FS.os digest) _ _ keep_newest _ Hsorted)
    as (_ & Hsurv).
  destruct (Hsurv (Hne (h, files) ltac:(by left))) as (sv & _ & Hsrc).
  destruct (link_group (OS0 := FS.os digest)
              (symlink_member (OS0 := FS.os digest) callback)
              keep_newest st files) as [st1|e] eqn:Hg.
  - destruct (symlink_group_fs _ _ _ _ _ _ Hg Hnd1) as (Hoff & _ & _).
    apply IH.
    + by rewrite (member_keys_cwd _ _ _ (proj1 Hoff)).
    + intros fi Hfi. apply (is_regular_same_off _ _ _ _ Hoff).
      * intros Hin. apply (Hdis _ Hin).
        apply list_elem_of_fmap. by exists fi.
      * apply Hreg, elem_of_app. by right.
    + intros g Hgin. apply Hne. by right.
  - unfold link_group in Hg. by rewrite Hsorted, Hsrc in Hg.
Qed.

(** C8.  On the file system, for duplicate groups that list no file twice
    and consist of regular files: the run of the symlink strategy returns
    when no group is empty; every member it reports as processed
    successfully was first removed and then re-created as a symbolic link to
    the absolute path of its group's survivor; after the run its entry is
    that link, it resolves to the survivor's content, and the survivor is
    the regular file it was before the run. *)
Theorem symlinks_resolve_to_survivor directory duplicates keep_newest
    (callback : option (string -> C -> C)) (w : FS.t) (c : C) :
  let o := replace_duplicates_with_symlinks (OS0 := FS.os digest)
             directory duplicates keep_newest callback w c in
  let groups :=
    given_or_found (OS0 := FS.os digest) directory duplicates w in
  well_formed_groups w groups ->
  ((forall g, g ∈ groups -> snd g <> []) -> exists r, returned o = Ok r) /\
  forall r, returned o = Ok r ->
    (exists chunks,
       Forall2 (link_attempt (symlink_event (OS0 := FS.os digest)))
               (details r) chunks /\
       os_calls o = concat chunks) /\
    forall d, d ∈ details r -> d_success d = true ->
      exists source data mtime readable,
        d_source d = Some source /\
        relinks (os_calls o) (FS.abspath source w) (d_target d) /\
        FS.nodes (final_world o) !! FS.abspath (d_target d) w =
          Some (FS.SymbolicLink (FS.abspath source w)) /\
        FS.islink (d_target d) (final_world o) = true /\
        FS.stat (d_target d) (final_world o) = Some (data, mtime, readable) /\
        FS.stat source (final_world o) = Some (data, mtime, readable) /\
        FS.islink source (final_world o) = false /\
        FS.nodes (final_world o) !! FS.abspath source w =
          Some (FS.Regular data mtime readable) /\
        FS.nodes w !! FS.abspath source w =
          Some (FS.Regular data mtime readable).
Proof.
  intros o groups (Habs & Hnd & Hreg). split.
  { intros Hne. subst o.
    unfold replace_duplicates_with_symlinks, consolidate. fold groups.
    set (st0 := State w [] c _).
    pose proof (symlink_run_returns callback keep_newest groups st0
                  Hnd Hreg Hne) as He.
    destruct (for_each_group _ groups st0) as [e st']. simpl in He.
    subst e. by eexists. }
  intros r Hr. split.
  - destruct (run_strategy_processes (OS0 := FS.os digest) Softlink
                directory duplicates keep_newest callback w c r Hr)
      as (chunks & HP & Hc & _).
    by exists chunks.
  - subst o. unfold replace_duplicates_with_symlinks, consolidate in Hr |- *.
    fold groups in Hr |- *.
    set (st0 := State w [] c _) in *.
    destruct (symlink_run_fs digest callback keep_newest groups st0 Hnd)
      as (Hoff & _ & ds & Hds & Hall).
    destruct (for_each_group _ groups st0) as [[e|] st'] eqn:Hrun;
      simpl in *; [done|].
    injection Hr as <-. simpl. rewrite Hds.
    intros d Hd Hok. destruct (Hall d Hd Hok)
      as (source & Hs & Ht & Hsk & Hl & Hsame & Hrl).
    unfold member_keys in Hsk.
    apply list_elem_of_fmap in Hsk as (fi & Hkey & Hfi).
    destruct (Hreg fi Hfi) as (data & mtime & readable & Hnode).
    rewrite <- Hkey in Hnode. rewrite <- Hsame in Hnode.
    destruct Hoff as [Hcwd _].
    exists source, data, mtime, readable.
    assert (Hta : FS.abspath (d_target d) st'.(world) =
                  FS.abspath (d_target d) w) by by apply abspath_cwd.
    assert (Hsa : FS.abspath source st'.(world) = FS.abspath source w)
      by by apply abspath_cwd.
    repeat split; try done.
    + unfold FS.islink. by rewrite Hta, Hl.
    + apply (stat_through_link _ _ (FS.abspath source w)).
      * by apply abspath_absolute.
      * by rewrite Hta.
      * done.
    + apply stat_regular. by rewrite Hsa.
    + unfold FS.islink. by rewrite Hsa, Hnode.
    + by rewrite <- Hsame.
Qed.
End SymlinkProperty.

(* ===================================================================== *)
(** * Size utilities: facts *)
(* ===================================================================== *)

Section SizeFacts.
Import SizeUtils.
Implicit Types (s t : string) (c : ascii) (p : ascii -> bool) (n : N).

Lemma app_cons_s c s t : (String c s ++ t)%string = String c (s ++ t).
Proof. reflexivity. Qed.

Lemma app_nil_s t : ("" ++ t)%string = t.
Proof. reflexivity. Qed.

Lemma app_assoc_s s t u : ((s ++ t) ++ u = s ++ (t ++ u))%string.
Proof.
  induction s as [|c s IH]; [done|]. by rewrite !app_cons_s, IH.
Qed.

Lemma all_chars_app p s t :
  all_chars p (s ++ t) = all_chars p s && all_chars p t.
Proof.
  induction s as [|c s IH]; [done|].
  rewrite app_cons_s. simpl. by rewrite IH, andb_assoc.
Qed.

Lemma all_chars_impl p (q : ascii -> bool) s :
  (forall c, p c = true -> q c = true) ->
  all_chars p s = true -> all_chars q s = true.
Proof.
  intros Hpq. induction s as [|c s IH]; simpl; [done|].
  intros [Hc Hs]%andb_true_iff. by rewrite (Hpq c Hc), IH.
Qed.

Lemma digit_not_space c : is_digit c = true -> is_space c = false.
Proof. destruct c as [[] [] [] [] [] [] [] []]; by vm_compute. Qed.

Lemma digit_not_lower c : is_digit c = true -> negb (is_lower c) = true.
Proof. destruct c as [[] [] [] [] [] [] [] []]; by vm_compute. Qed.

Lemma upper_id s :
  all_chars (fun c => negb (is_lower c)) s = true -> upper s = s.
Proof.
  induction s as [|c s IH]; simpl; [done|].
  intros [Hc Hs]%andb_true_iff. rewrite IH by done.
  unfold upper_char. apply negb_true_iff in Hc. by rewrite Hc.
Qed.

Lemma lstrip_id c s : is_space c = false -> lstrip (String c s) = String c s.
Proof. intros Hc. simpl. by rewrite Hc. Qed.

Lemma span_app p s c t :
  all_chars p s = true -> p c = false ->
  span p (s ++ String c t) = (s, String c t).
Proof.
  intros Hs Hc. induction s as [|a s IH].
  - rewrite app_nil_s. simpl. by rewrite Hc.
  - rewrite app_cons_s. simpl in *.
    apply andb_true_iff in Hs as [Ha Hs]. by rewrite Ha, IH.
Qed.

Lemma span_all p s : all_chars p s = true -> span p s = (s, "").
Proof.
  induction s as [|a s IH]; simpl; [done|].
  intros [Ha Hs]%andb_true_iff. by rewrite Ha, IH.
Qed.

Lemma uint_digits (d : Decimal.uint) :
  all_chars is_digit (NilEmpty.string_of_uint d) = true.
Proof. induction d; simpl; by rewrite ?IHd. Qed.

Lemma str_of_N_digits n : all_chars is_digit (str_of_N n) = true.
Proof. apply uint_digits. Qed.

Lemma str_of_N_cons n : exists c s, str_of_N n = String c s.
Proof.
  unfold str_of_N. destruct n as [|q]; simpl; [by eexists _, _|].
  pose proof (DecimalPos.Unsigned.to_uint_nonnil q) as Hnn.
  destruct (Pos.to_uint q); simpl; try done; by eexists _, _.
Qed.

Lemma digits_value_str n : digits_value (str_of_N n) = Some n.
Proof.
  unfold digits_value, str_of_N. rewrite NilEmpty.usu. simpl.
  by rewrite DecimalN.Unsigned.of_to.
Qed.

Lemma numeric_not_space c :
  is_digit c || is_dot c = true -> is_space c = false.
Proof. destruct c as [[] [] [] [] [] [] [] []]; by vm_compute. Qed.

Lemma numeric_not_lower c :
  is_digit c || is_dot c = true -> negb (is_lower c) = true.
Proof. destruct c as [[] [] [] [] [] [] [] []]; by vm_compute. Qed.

Lemma upper_not_space c : is_upper c = true -> negb (is_space c) = true.
Proof. destruct c as [[] [] [] [] [] [] [] []]; by vm_compute. Qed.

Lemma upper_not_lower c : is_upper c = true -> negb (is_lower c) = true.
Proof. destruct c as [[] [] [] [] [] [] [] []]; by vm_compute. Qed.

Lemma rstrip_nospace t :
  all_chars (fun c => negb (is_space c)) t = true -> rstrip t = t.
Proof.
  induction t as [|a t IH]; simpl; [done|].
  intros [Ha Ht]%andb_true_iff. rewrite IH by done.
  apply negb_true_iff in Ha. rewrite Ha. by destruct t.
Qed.

Lemma rstrip_nospace_end s t :
  t <> "" -> all_chars (fun c => negb (is_space c)) t = true ->
  rstrip (s ++ t) = (s ++ t)%string.
Proof.
  intros Hne Ht. induction s as [|a s IH].
  - by apply rstrip_nospace.
  - rewrite app_cons_s. simpl. rewrite IH.
    destruct s; [|done]. rewrite app_nil_s. by destruct t.
Qed.

Lemma decimal_of_integer n : decimal_of (str_of_N n) = Some (n, 1%N).
Proof.
  unfold decimal_of. rewrite span_all by apply str_of_N_digits.
  by rewrite digits_value_str.
Qed.

(** C9.  [format_size (0)] is "0 B", [format_size (1536)] is "1.50 KB" and
    [parse_size ("1 MB")] is 1048576; for each of the representative sizes
    [parse_size (format_size (n))] returns a value within the rounding of
    the two decimals of [n]. *)
Theorem size_format_scenario :
  format_size 0 = "0 B" /\
  format_size 1536 = "1.50 KB" /\
  parse_size "1 MB" = inr 1048576%N /\
  Forall (fun n => round_trips n = true) representative_sizes.
Proof.
  split; [by vm_compute|]. split; [by vm_compute|].
  split; [by vm_compute|].
  assert (Hall : forallb round_trips representative_sizes = true)
    by (by vm_compute).
  apply List.Forall_forall. intros n Hn.
  exact (proj1 (forallb_forall _ _) Hall n Hn).
Qed.
End SizeFacts.

(* ===================================================================== *)
(** * Detection feeds consolidation: the groups found are well formed *)
(* ===================================================================== *)

Section DetectionOnFS.
Context (digest : string -> string).
Implicit Types (w : FS.t) (p : string).

Lemma NoDup_flat_map_keyed {A B K : Type} (ka : A -> K) (kb : B -> K)
    (g : A -> list B) (l : list A) :
  (forall x y, y ∈ g x -> kb y = ka x) ->
  (forall x, length (g x) <= 1) ->
  NoDup (map ka l) -> NoDup (map kb (flat_map g l)).
Proof.
  intros Hkey Hlen.
  assert (Hin : forall l' k, k ∈ map kb (flat_map g l') -> k ∈ map ka l').
  { intros l' k Hk. apply list_elem_of_fmap in Hk as (y & -> & Hy).
    apply list_elem_of_In, in_flat_map in Hy as (x & Hx & Hy).
    apply list_elem_of_fmap. exists x.
    split; [apply Hkey; by apply list_elem_of_In | by apply list_elem_of_In]. }
  induction l as [|x l IH]; simpl; [constructor|].
  intros [Hx Hnd]%NoDup_cons. rewrite map_app.
  specialize (Hlen x). specialize (Hkey x).
  destruct (g x) as [|y [|? ?]]; simpl in *; [by apply IH | | lia].
  apply NoDup_cons. split; [|by apply IH].
  rewrite (Hkey y) by (by left). intros Hk. by apply Hx, Hin.
Qed.

Lemma NoDup_map_filter {A K : Type} (k : A -> K) (f : A -> bool)
    (l : list A) :
  NoDup (map k l) -> NoDup (map k (List.filter f l)).
Proof.
  induction l as [|x l IH]; simpl; [done|].
  intros [Hx Hnd]%NoDup_cons. destruct (f x); simpl; [|by apply IH].
  apply NoDup_cons. split; [|by apply IH].
  intros Hin. apply Hx. apply list_elem_of_fmap in Hin as (y & -> & Hy).
  apply list_elem_of_In, List.filter_In in Hy as [Hy _].
  apply list_elem_of_fmap. exists y. by rewrite list_elem_of_In.
Qed.

Lemma concat_items_flat {K A : Type} (d : list (K * list A)) :
  concat (map snd d) = map snd (items_flat d).
Proof.
  unfold items_flat. induction d as [|[k vs] d IH]; simpl; [done|].
  rewrite map_app, IH, List.map_map. simpl. by rewrite List.map_id.
Qed.

Lemma strip_prefix_Some pre s rest :
  FS.strip_prefix pre s = Some rest -> s = (pre ++ rest)%string.
Proof.
  revert s. induction pre as [|a pre IH]; intros [|b s]; simpl.
  - by intros [= <-].
  - by intros [= <-].
  - done.
  - destruct (Ascii.eqb_spec a b) as [->|]; [|done].
    intros Hs. rewrite app_cons_s. by rewrite (IH _ Hs).
Qed.

Lemma abspath_join directory rest w :
  directory <> "" ->
  FS.abspath (directory ++ "/" ++ rest) w =
  (FS.abspath directory w ++ "/" ++ rest)%string.
Proof.
  intros Hne. unfold FS.abspath.
  destruct directory as [|c d]; [done|]. rewrite app_cons_s. simpl.
  destruct (Ascii.eqb c "/"); [done|].
  by rewrite <- !app_cons_s, !app_assoc_s.
Qed.

Lemma walk_keys_NoDup directory w :
  directory <> "" -> NoDup (FS.enumeration w) ->
  NoDup (map (fun p => FS.abspath p w) (FS.walk directory w)).
Proof.
  intros Hne Hnd. unfold FS.walk.
  apply (NoDup_flat_map_keyed id).
  - intros key p Hp. destruct (FS.nodes w !! key); [|inversion Hp].
    destruct (FS.strip_prefix _ key) as [rest|] eqn:Hs; [|inversion Hp].
    apply list_elem_of_singleton in Hp as ->.
    rewrite abspath_join by done. unfold id.
    rewrite (strip_prefix_Some _ _ _ Hs) at 1. by rewrite app_assoc_s.
  - intros key. destruct (FS.nodes w !! key); [|simpl; lia].
    destruct (FS.strip_prefix _ key); simpl; lia.
  - by rewrite List.map_id.
Qed.

Lemma found_keys_NoDup directory min_size w :
  directory <> "" -> NoDup (FS.enumeration w) ->
  NoDup (member_keys w
           (all_members
              (find_duplicate_files_by_content (OS0 := FS.os digest)
                 directory min_size w))).
Proof.
  intros Hne Hnd. unfold all_members, member_keys.
  rewrite concat_items_flat. unfold find_duplicate_files_by_content.
  rewrite find_duplicates_unfold. simpl.
  set (items := items_flat (find_duplicate_files_by_size directory min_size w)).
  set (hp := hash_pairs w items).
  rewrite (items_flat_more_than_one hp)
    by apply (grouped_group_by _ [] []), grouped_nil.
  rewrite List.map_map.
  apply NoDup_map_filter.
  rewrite (Permutation_map _ (items_flat_group_by hp [])). simpl.
  unfold hp, hash_pairs.
  apply (NoDup_flat_map_keyed (fun sp => FS.abspath (snd sp) w)).
  - intros sp y Hy. simpl in Hy.
    destruct (String.eqb _ ""); [inversion Hy|].
    by apply list_elem_of_singleton in Hy as ->.
  - intros sp. simpl. destruct (String.eqb _ ""); simpl; lia.
  - unfold items.
    rewrite (Permutation_map _ (hashing_order_perm directory min_size w)).
    simpl. apply NoDup_map_filter. unfold candidates.
    apply (NoDup_flat_map_keyed (fun p => FS.abspath p w)).
    + intros q y Hy. destruct (retained min_size w q); [|inversion Hy].
      by apply list_elem_of_singleton in Hy as ->.
    + intros q. destruct (retained min_size w q); simpl; lia.
    + by apply walk_keys_NoDup.
Qed.

Lemma found_member_regular directory min_size w fi :
  fi ∈ all_members
         (find_duplicate_files_by_content (OS0 := FS.os digest)
            directory min_size w) ->
  is_regular w (path fi).
Proof.
  unfold all_members. intros Hin.
  apply list_elem_of_In, in_concat in Hin as (g & Hg & Hfi).
  apply in_map_iff in Hg as ([h g'] & <- & Hg). simpl in Hfi.
  apply list_elem_of_In in Hg, Hfi.
  destruct (duplicate_member _ _ _ _ _ _ Hg Hfi) as (Hitem & Hhash & Hne).
  apply hashing_order_In in Hitem as (_ & Hret & _).
  unfold retained in Hret. apply andb_true_iff in Hret as [Hl _].
  apply negb_true_iff in Hl. simpl in Hl, Hhash.
  unfold get_file_hash in Hhash. simpl in Hhash.
  unfold FS.islink in Hl. unfold FS.read, FS.stat in Hhash. simpl in Hhash.
  unfold is_regular.
  destruct (FS.nodes w !! FS.abspath (path fi) w) as [[data mtime rd|t]|];
    [by eexists _, _, _ | done | by subst].
Qed.

(** The groups the detection returns satisfy what the symlink strategy is
    shown to need. *)
Lemma found_groups_well_formed directory min_size w :
  FS.is_absolute (FS.cwd w) = true ->
  directory <> "" -> NoDup (FS.enumeration w) ->
  well_formed_groups w
    (find_duplicate_files_by_content (OS0 := FS.os digest)
       directory min_size w).
Proof.
  intros Habs Hne Hnd. split; [done|]. split.
  - by apply found_keys_NoDup.
  - intros fi. apply found_member_regular.
Qed.
End DetectionOnFS.

(* ===================================================================== *)
(** * The properties on the sample file systems *)
(* ===================================================================== *)

Section Worked.
Import Samples.



(** The scenario of the specification: the detection with threshold 512
    finds the one group of A and B; deleting with [keep_newest] sends A to the
    trash and leaves B and C where they are. *)
Example scenario_detect_and_delete :
  let o := clean_duplicate_files (OS0 := Samples.os) "/d" None true remember
             scenario [] in
  map (fun e => map path (snd e))
      (find_duplicate_files_by_content (OS0 := Samples.os) "/d" 512 scenario)
    = [["/d/A"; "/d/B"]] /\
  os_calls o = [Send2trash "/d/A" None] /\
  final_progress o = ["/d/A"] /\
  FS.nodes (final_world o) !! "/d/A" = None /\
  FS.nodes (final_world o) !! "/d/B" = FS.nodes scenario !! "/d/B" /\
  FS.nodes (final_world o) !! "/d/C" = FS.nodes scenario !! "/d/C".
Proof. by vm_compute. Qed.


(** C2 on [small]: [b] is hashed, next to [a]; [e] is too short. *)
Lemma hashing_only_on_size_collisions_witness :
  "/d/b" ∈ hashed_files (OS0 := Samples.os) "/d" 2 small /\
  (exists q, q <> "/d/b" /\ q ∈ os_walk (OS := Samples.os) "/d" small /\
             retained (OS0 := Samples.os) 2 small q = true /\
             get_file_size (OS0 := Samples.os) q small =
             get_file_size (OS0 := Samples.os) "/d/b" small) /\
  "/d/e" ∉ hashed_files (OS0 := Samples.os) "/d" 2 small.
Proof.
  destruct (hashing_only_on_size_collisions (OS0 := Samples.os)
              "/d" 2 small) as [Hhashed Hsmall].
  assert (Hb : "/d/b" ∈ hashed_files (OS0 := Samples.os) "/d" 2 small).
  { vm_compute. right. left. }
  split; [exact Hb|]. split.
  - destruct (Hhashed "/d/b" Hb) as (_ & _ & _ & _ & Hother).
    apply Hother. apply (bool_decide_unpack _). by vm_compute.
  - apply (Hsmall "/d/e"). by vm_compute.
Defined.

(** C3 on [small]: [c] is the newest; [a] and [b] are equally old and keep
    their order. *)
Lemma survivor_selection_witness :
  let sorted := [info "/d/c" 2; info "/d/a" 2; info "/d/b" 2] in
  files_sorted (OS0 := Samples.os) group_abc small = Ok sorted /\
  sorted ≡ₚ group_abc /\
  newest_first (OS0 := Samples.os) small sorted /\
  (exists s,
     (sorted = files_to_remove false sorted ++ [s] /\
      last_oldest (OS0 := Samples.os) small group_abc s) /\
     source_file false sorted = Ok (path s)).
Proof.
  intros sorted.
  assert (Hs : files_sorted (OS0 := Samples.os) group_abc small = Ok sorted)
    by (by vm_compute).
  split; [exact Hs|].
  destruct (survivor_selection (C := unit) (OS0 := Samples.os)
              small group_abc false sorted Hs)
    as (Hperm & Hnf & _ & _ & Hsv).
  split; [exact Hperm|]. split; [exact Hnf|].
  destruct (Hsv ltac:(done)) as (s & Hsplit & Hsrc & _).
  exists s. split; [exact Hsplit | exact Hsrc].
Defined.

(** C7 on [small] and [small_reordered]. *)
Lemma detection_repeatable_witness :
  unchanged (OS0 := Samples.os) "/d" small small_reordered /\
  same_groups
    (find_duplicate_files_by_content (OS0 := Samples.os) "/d" 2 small)
    (find_duplicate_files_by_content (OS0 := Samples.os) "/d" 2
                                     small_reordered).
Proof.
  assert (Hu : unchanged (OS0 := Samples.os) "/d" small small_reordered).
  { split.
    - vm_compute. apply perm_swap.
    - intros p _. by repeat split. }
  split; [exact Hu|].
  apply (detection_repeatable (OS0 := Samples.os) "/d" 2 _ _ Hu).
Defined.





(** C8 on [scenario], the duplicates being looked for by the run itself:
    A becomes a link to [/d/B] and reads as B does. *)
Lemma symlinks_resolve_to_survivor_witness :
  let o := replace_duplicates_with_symlinks (OS0 := Samples.os) "/d"
             None true remember scenario [] in
  well_formed_groups scenario
    (given_or_found (OS0 := Samples.os) "/d" None scenario) /\
  returned o = Ok scenario_result /\
  forall d, d ∈ details scenario_result -> d_success d = true ->
    exists source data mtime readable,
      d_source d = Some source /\
      relinks (os_calls o) (FS.abspath source scenario) (d_target d) /\
      FS.nodes (final_world o) !! FS.abspath (d_target d) scenario =
        Some (FS.SymbolicLink (FS.abspath source scenario)) /\
      FS.islink (d_target d) (final_world o) = true /\
      FS.stat (d_target d) (final_world o) = Some (data, mtime, readable) /\
      FS.stat source (final_world o) = Some (data, mtime, readable) /\
      FS.islink source (final_world o) = false /\
      FS.nodes (final_world o) !! FS.abspath source scenario =
        Some (FS.Regular data mtime readable) /\
      FS.nodes scenario !! FS.abspath source scenario =
        Some (FS.Regular data mtime readable).
Proof.
  intros o.
  assert (Hwf : well_formed_groups scenario
                  (given_or_found (OS0 := Samples.os) "/d" None scenario)).
  { apply found_groups_well_formed; [done | done |].
    apply (bool_decide_unpack _). by vm_compute. }
  assert (Hr : returned o = Ok scenario_result) by (by vm_compute).
  split; [exact Hwf|]. split; [exact Hr|].
  exact (proj2 (proj2 (symlinks_resolve_to_survivor FS.tagged_digest "/d"
                         None true remember scenario [] Hwf)
                      scenario_result Hr)).
Defined.

(** C6 fails on [small] with groups from an earlier scan, one member of
    which has vanished: reading its modification time raises, the
    exception leaves the function, no dictionary is returned, and the
    third group is never looked at, under the delete strategy as under the
    symlink strategy. *)
Theorem stale_member_aborts_run :
  let o := clean_duplicate_files (OS0 := Samples.os) "/d"
             (Some stale_groups) true None small tt in
  let o' := replace_duplicates_with_symlinks (OS0 := Samples.os) "/d"
              (Some stale_groups) true None small tt in
  returned o = Raise (OSError FS.not_found) /\
  os_calls o = [Send2trash "/d/b" None] /\
  returned o' = Raise (OSError FS.not_found) /\
  os_calls o' = [Remove "/d/b" None; Symlink "/d/a" "/d/b" None].
Proof. by vm_compute. Qed.
End Worked.

(* ===================================================================== *)
(** * The size histogram: properties *)
(* ===================================================================== *)

Section SizeDistributionFacts.

Lemma count_between_cons lo hi s sizes :
  count_between lo hi (s :: sizes) =
  (if match lo with Some a => (a <=? s)%Z | None => true end
      && match hi with Some b => (s <? b)%Z | None => true end
   then 1 else 0) + count_between lo hi sizes.
Proof. unfold count_between. simpl. by case_match. Qed.

(** The loop, started from any six counters. *)
Lemma size_distribution_from (n1 n2 n3 n4 n5 n6 : nat) sizes :
  fold_left
    (fun ranges size =>
       match ranges with
       | Some d => dict_incr (size_range size) d
       | None => None
       end)
    sizes
    (Some [("< 1 KB", n1); ("1 KB - 1 MB", n2); ("1 MB - 10 MB", n3);
           ("10 MB - 100 MB", n4); ("100 MB - 1 GB", n5); ("> 1 GB", n6)]) =
  Some
    [("< 1 KB", n1 + count_between None (Some 1024%Z) sizes);
     ("1 KB - 1 MB",
      n2 + count_between (Some 1024%Z) (Some 1048576%Z) sizes);
     ("1 MB - 10 MB",
      n3 + count_between (Some 1048576%Z) (Some 10485760%Z) sizes);
     ("10 MB - 100 MB",
      n4 + count_between (Some 10485760%Z) (Some 104857600%Z) sizes);
     ("100 MB - 1 GB",
      n5 + count_between (Some 104857600%Z) (Some 1073741824%Z) sizes);
     ("> 1 GB", n6 + count_between (Some 1073741824%Z) None sizes)].
Proof.
  revert n1 n2 n3 n4 n5 n6.
  induction sizes as [|s sizes IH]; intros n1 n2 n3 n4 n5 n6.
  - simpl. unfold count_between. simpl. by rewrite !Nat.add_0_r.
  - cbn [fold_left]. rewrite !count_between_cons.
    assert (Hkey :
      size_range s =
        if (s <? 1024)%Z then "< 1 KB"
        else if (s <? 1048576)%Z then "1 KB - 1 MB"
        else if (s <? 10485760)%Z then "1 MB - 10 MB"
        else if (s <? 104857600)%Z then "10 MB - 100 MB"
        else if (s <? 1073741824)%Z then "100 MB - 1 GB"
        else "> 1 GB") by done.
    rewrite Hkey. clear Hkey.
    destruct (Z.ltb_spec s 1024); destruct (Z.ltb_spec s 1048576);
      destruct (Z.ltb_spec s 10485760); destruct (Z.ltb_spec s 104857600);
      destruct (Z.ltb_spec s 1073741824); try lia;
      destruct (Z.leb_spec 1024 s); destruct (Z.leb_spec 1048576 s);
      destruct (Z.leb_spec 10485760 s); destruct (Z.leb_spec 104857600 s);
      destruct (Z.leb_spec 1073741824 s); try lia;
      cbn [dict_incr andb]; repeat (case_decide; [try discriminate|try done]);
      rewrite IH;
      repeat match goal with
             | |- Some _ = Some _ => f_equal
             | |- _ :: _ = _ :: _ => f_equal
             | |- (_, _) = (_, _) => f_equal
             end; lia.
Qed.

Lemma count_between_perm lo hi sizes sizes' :
  sizes ≡ₚ sizes' -> count_between lo hi sizes = count_between lo hi sizes'.
Proof.
  intros Hp. unfold count_between. apply Permutation_length.
  by apply filter_perm.
Qed.

Lemma count_between_app lo hi sizes sizes' :
  count_between lo hi (sizes ++ sizes') =
  count_between lo hi sizes + count_between lo hi sizes'.
Proof. unfold count_between. by rewrite List.filter_app, length_app. Qed.

(** X1.  [get_size_distribution] never fails with a [KeyError] and returns
    the six ranges in their fixed order; the counter of a range is the
    number of sizes in its half-open interval: sizes below 1024 (negative
    ones too) are counted under "< 1 KB", a size of exactly 1024 ^ 3 under
    "> 1 GB". *)
Theorem size_distribution_counts sizes :
  get_size_distribution sizes =
  Some
    [("< 1 KB", count_between None (Some 1024%Z) sizes);
     ("1 KB - 1 MB", count_between (Some 1024%Z) (Some (1024 ^ 2)%Z) sizes);
     ("1 MB - 10 MB",
      count_between (Some (1024 ^ 2)%Z) (Some (10 * 1024 ^ 2)%Z) sizes);
     ("10 MB - 100 MB",
      count_between (Some (10 * 1024 ^ 2)%Z) (Some (100 * 1024 ^ 2)%Z) sizes);
     ("100 MB - 1 GB",
      count_between (Some (100 * 1024 ^ 2)%Z) (Some (1024 ^ 3)%Z) sizes);
     ("> 1 GB", count_between (Some (1024 ^ 3)%Z) None sizes)].
Proof.
  unfold get_size_distribution, initial_ranges.
  rewrite size_distribution_from.
  change (1024 ^ 2)%Z with 1048576%Z.
  change (10 * 1048576)%Z with 10485760%Z.
  change (100 * 1048576)%Z with 104857600%Z.
  change (1024 ^ 3)%Z with 1073741824%Z.
  done.
Qed.

(** X2.  Every size is counted once: the six counters add up to the number
    of sizes.  The histogram of a concatenation is the sum of the
    histograms, and the order of the sizes does not matter. *)
Theorem size_distribution_total sizes :
  exists d,
    get_size_distribution sizes = Some d /\
    map fst d = map fst initial_ranges /\
    sum_nat (map snd d) = length sizes /\
    (forall sizes', sizes ≡ₚ sizes' -> get_size_distribution sizes' = Some d) /\
    (forall sizes' d',
       get_size_distribution sizes' = Some d' ->
       exists d'',
         get_size_distribution (sizes ++ sizes') = Some d'' /\
         map fst d'' = map fst d /\
         map snd d'' = zip_with Nat.add (map snd d) (map snd d')).
Proof.
  unfold get_size_distribution, initial_ranges.
  rewrite size_distribution_from. eexists. split; [done|].
  split; [done|]. split; [|split].
  - unfold sum_nat. cbn [map snd fold_right]. clear.
    induction sizes as [|s sizes IH]; [done|].
    rewrite !count_between_cons. cbn [length].
    destruct (Z.ltb_spec s 1024); destruct (Z.ltb_spec s 1048576);
      destruct (Z.ltb_spec s 10485760); destruct (Z.ltb_spec s 104857600);
      destruct (Z.ltb_spec s 1073741824); try lia;
      destruct (Z.leb_spec 1024 s); destruct (Z.leb_spec 1048576 s);
      destruct (Z.leb_spec 10485760 s); destruct (Z.leb_spec 104857600 s);
      destruct (Z.leb_spec 1073741824 s); try lia;
      cbn [andb]; lia.
  - intros sizes' Hp. rewrite size_distribution_from.
    by rewrite !(count_between_perm _ _ _ _ Hp).
  - intros sizes' d'. rewrite !size_distribution_from.
    intros [= <-]. eexists. split; [done|]. split; [done|].
    simpl. by rewrite !count_between_app.
Qed.
End SizeDistributionFacts.

(* ===================================================================== *)
(** * Parsing sizes: which texts are accepted *)
(* ===================================================================== *)

Section ParseFacts.
Import SizeUtils.
Implicit Types (s t : string) (c : ascii) (p : ascii -> bool) (n : N).

Lemma span_spec p s a b :
  span p s = (a, b) ->
  s = (a ++ b)%string /\ all_chars p a = true /\
  match b with String c _ => p c = false | EmptyString => True end.
Proof.
  revert a b. induction s as [|c s IH]; intros a b; simpl.
  - by intros [= <- <-].
  - destruct (p c) eqn:Hc.
    + destruct (span p s) as [a' b'] eqn:Hs. intros [= <- <-].
      destruct (IH a' b' eq_refl) as (-> & Ha & Hb).
      simpl. by rewrite Hc, Ha.
    + intros [= <- <-]. simpl. by rewrite Hc.
Qed.

Lemma span_unique p a b :
  all_chars p a = true ->
  match b with String c _ => p c = false | EmptyString => True end ->
  span p (a ++ b) = (a, b).
Proof.
  intros Ha Hb. destruct b as [|c b].
  - assert (Hnil : (a ++ "")%string = a).
    { clear. induction a as [|c a IH]; [done|]. by rewrite app_cons_s, IH. }
    rewrite Hnil. by apply span_all.
  - by apply span_app.
Qed.

Lemma upper_not_numeric c : is_upper c = true -> numeric c = false.
Proof. destruct c as [[] [] [] [] [] [] [] []]; by vm_compute. Qed.

Lemma space_not_numeric c : is_space c = true -> numeric c = false.
Proof. destruct c as [[] [] [] [] [] [] [] []]; by vm_compute. Qed.

Lemma upper_is_not_space c : is_upper c = true -> is_space c = false.
Proof. destruct c as [[] [] [] [] [] [] [] []]; by vm_compute. Qed.

(** The pattern of line 61, declaratively. *)
Lemma match_size_shape t value unit :
  match_size t = Some (value, unit) <-> size_shape t value unit.
Proof.
  unfold match_size. fold numeric. split.
  - destruct (span numeric t) as [v rest] eqn:Hv.
    destruct (span is_space rest) as [blanks u] eqn:Hu.
    destruct (span_spec _ _ _ _ Hv) as (-> & Hnum & _).
    destruct (span_spec _ _ _ _ Hu) as (-> & Hsp & _).
    destruct v as [|c v]; [done|]. destruct u as [|d u]; [done|].
    destruct (all_chars is_upper (String d u)) eqn:Hup; [|done].
    intros [= <- <-]. by exists blanks.
  - intros (blanks & -> & Hvne & Hnum & Hsp & Hune & Hup).
    destruct unit as [|d u]; [done|].
    pose proof Hup as Hup'. simpl in Hup'.
    apply andb_true_iff in Hup' as [Hd _].
    rewrite (span_unique numeric value (blanks ++ String d u)); [|done|].
    + rewrite (span_unique is_space blanks (String d u) Hsp)
        by by apply upper_is_not_space.
      destruct value; [done|]. by rewrite Hup.
    + destruct blanks as [|b blanks].
      * rewrite app_nil_s. by apply upper_not_numeric.
      * rewrite app_cons_s. simpl in Hsp.
        apply andb_true_iff in Hsp as [Hb _]. by apply space_not_numeric.
Qed.

Lemma match_size_None t :
  match_size t = None <-> ~ exists value unit, size_shape t value unit.
Proof.
  split.
  - intros Hn (value & unit & Hs). apply match_size_shape in Hs. congruence.
  - intros Hn. destruct (match_size t) as [[value unit]|] eqn:Hm; [|done].
    destruct Hn. exists value, unit. by apply match_size_shape.
Qed.

Lemma unit_multiplier_units unit :
  unit_multiplier unit <> None <-> In unit units.
Proof.
  unfold unit_multiplier, units. simpl.
  destruct (String.eqb_spec unit "B") as [->|?]; [by intuition|].
  destruct (String.eqb_spec unit "KB") as [->|?]; [by intuition|].
  destruct (String.eqb_spec unit "MB") as [->|?]; [by intuition|].
  destruct (String.eqb_spec unit "GB") as [->|?]; [by intuition|].
  destruct (String.eqb_spec unit "TB") as [->|?]; [by intuition|].
  destruct (String.eqb_spec unit "PB") as [->|?]; [by intuition|].
  intuition congruence.
Qed.

Lemma digits_value_Some s :
  all_chars is_digit s = true -> exists n, digits_value s = Some n.
Proof.
  unfold digits_value. intros Hs.
  assert (H : exists d, NilEmpty.uint_of_string s = Some d).
  { induction s as [|c s IH]; [by eexists|].
    simpl in Hs. apply andb_true_iff in Hs as [Hc Hs].
    destruct (IH Hs) as [d Hd]. simpl. rewrite Hd.
    destruct c as [[] [] [] [] [] [] [] []]; try discriminate Hc;
      by eexists. }
  destruct H as [d ->]. by eexists.
Qed.

Lemma digit_is_numeric c : is_digit c = true -> numeric c = true.
Proof. unfold numeric. by intros ->. Qed.

Lemma numeric_cases c :
  numeric c = true -> is_digit c = false -> c = "."%char.
Proof. destruct c as [[] [] [] [] [] [] [] []]; by vm_compute. Qed.

Lemma dot_not_digit : is_digit "." = false.
Proof. done. Qed.

Lemma length_zero s : (String.length s =? 0)%nat = true <-> s = "".
Proof. destruct s; simpl; split; done. Qed.

(** [float] on a text of digits and dots. *)
Lemma decimal_of_literal value :
  value <> "" -> all_chars numeric value = true ->
  (exists nd, decimal_of value = Some nd) <-> decimal_literal value.
Proof.
  intros Hne Hnum. unfold decimal_of. split.
  - destruct (span is_digit value) as [ip rest] eqn:Hsp.
    destruct (span_spec _ _ _ _ Hsp) as (-> & Hip & Hrest).
    destruct rest as [|c fp].
    + intros _. exists ip, "". split; [done|]. split; [done|]. left.
      assert (Hnil : (ip ++ "")%string = ip).
      { clear. induction ip as [|c a IH]; [done|].
        by rewrite app_cons_s, IH. }
      rewrite Hnil in *. done.
    + rewrite all_chars_app in Hnum.
      apply andb_true_iff in Hnum as [_ Hnum]. simpl in Hnum.
      apply andb_true_iff in Hnum as [Hc _].
      pose proof (numeric_cases c Hc Hrest) as ->.
      destruct (all_chars is_digit fp) eqn:Hfp; simpl; [|by intros [? ?]].
      destruct ((String.length ip =? 0)%nat && (String.length fp =? 0)%nat)
        eqn:Hlen; simpl; [by intros [? ?]|].
      intros _. exists ip, fp. split; [done|]. split; [done|]. right.
      split; [done|].
      apply andb_false_iff in Hlen as [Hl|Hl].
      * left. intros ->. done.
      * right. intros ->. done.
  - intros (ip & fp & Hip & Hfp & [[-> Hipne]|[-> Hnz]]).
    + rewrite span_all by done.
      destruct (digits_value_Some ip Hip) as [i ->]. by eexists.
    + change (ip ++ "." ++ fp)%string with (ip ++ String "." fp)%string.
      rewrite span_app by done. rewrite Hfp. simpl.
      assert (Hlen : (String.length ip =? 0)%nat
                     && (String.length fp =? 0)%nat = false).
      { apply andb_false_iff.
        destruct Hnz as [Hz|Hz]; [left|right];
          (destruct (String.length _ =? 0)%nat eqn:Hl; [|done]);
          apply length_zero in Hl; done. }
      rewrite Hlen. simpl.
      destruct (digits_value_Some ip Hip) as [i ->].
      destruct (digits_value_Some fp Hfp) as [f ->]. by eexists.
Qed.

Lemma float_of_literal value :
  value <> "" -> all_chars numeric value = true ->
  (exists x, float_of value = Some x) <-> decimal_literal value.
Proof.
  intros Hne Hnum. rewrite <- (decimal_of_literal value Hne Hnum).
  unfold float_of. destruct (decimal_of value) as [[num den]|]; split.
  - intros _. by eexists.
  - intros _. by eexists.
  - by intros [? ?].
  - by intros [? ?].
Qed.

Lemma app_nil_r_s s : (s ++ "")%string = s.
Proof. induction s as [|c s IH]; [done|]. by rewrite app_cons_s, IH. Qed.

Lemma upper_char_space c : is_space (upper_char c) = is_space c.
Proof. destruct c as [[] [] [] [] [] [] [] []]; by vm_compute. Qed.

Lemma upper_char_idem c : upper_char (upper_char c) = upper_char c.
Proof. destruct c as [[] [] [] [] [] [] [] []]; by vm_compute. Qed.

Lemma upper_app s t : upper (s ++ t) = (upper s ++ upper t)%string.
Proof.
  induction s as [|c s IH]; [done|]. rewrite app_cons_s. simpl.
  by rewrite IH.
Qed.

Lemma lstrip_upper s : lstrip (upper s) = upper (lstrip s).
Proof.
  induction s as [|c s IH]; [done|]. simpl.
  rewrite upper_char_space. by destruct (is_space c).
Qed.

Lemma rstrip_upper s : rstrip (upper s) = upper (rstrip s).
Proof.
  induction s as [|c s IH]; [done|]. simpl. rewrite IH, upper_char_space.
  destruct (rstrip s); simpl; [|done]. by destruct (is_space c).
Qed.

Lemma strip_upper s : strip (upper s) = upper (strip s).
Proof. unfold strip. by rewrite lstrip_upper, rstrip_upper. Qed.

Lemma rstrip_spaces s : all_chars is_space s = true -> rstrip s = "".
Proof.
  induction s as [|c s IH]; [done|]. simpl.
  intros [Hc Hs]%andb_true_iff. by rewrite IH, Hc.
Qed.

Lemma rstrip_app_spaces s after :
  all_chars is_space after = true -> rstrip (s ++ after) = rstrip s.
Proof.
  intros Ha. induction s as [|c s IH].
  - rewrite app_nil_s. by apply rstrip_spaces.
  - rewrite app_cons_s. simpl. by rewrite IH.
Qed.

Lemma lstrip_spaces_app before s :
  all_chars is_space before = true -> lstrip (before ++ s) = lstrip s.
Proof.
  induction before as [|c b IH]; [done|]. simpl.
  intros [Hc Hb]%andb_true_iff. rewrite Hc. by apply IH.
Qed.

Lemma strip_app_spaces s after :
  all_chars is_space after = true -> strip (s ++ after) = strip s.
Proof.
  intros Ha. unfold strip. induction s as [|c s IH].
  - rewrite app_nil_s. simpl.
    assert (Hl : lstrip after = "").
    { clear - Ha. induction after as [|c a IH]; [done|]. simpl in *.
      apply andb_true_iff in Ha as [Hc Ha]. rewrite Hc. by apply IH. }
    by rewrite Hl.
  - rewrite app_cons_s. simpl. destruct (is_space c); [done|].
    change (String c (s ++ after)) with (String c s ++ after)%string.
    by apply rstrip_app_spaces.
Qed.

Lemma strip_margins before s after :
  all_chars is_space before = true -> all_chars is_space after = true ->
  strip (before ++ s ++ after) = strip s.
Proof.
  intros Hb Ha. unfold strip. rewrite lstrip_spaces_app by done.
  by apply strip_app_spaces.
Qed.

(** [parse_size] looks at its argument through [upper (strip _)] only. *)
Lemma parse_size_normal s s' :
  upper (strip s) = upper (strip s') -> parse_size s = parse_size s'.
Proof. unfold parse_size. by intros ->. Qed.

(** What [parse_size] returns for a text of the right shape. *)
Lemma parse_size_shaped s value unit :
  size_shape (upper (strip s)) value unit ->
  parse_size s =
    match unit_multiplier unit with
    | None => inl (UnknownUnit unit)
    | Some m =>
        match float_of value with
        | None => inl (InvalidFloat value)
        | Some x =>
            match float_floor (float_mul x (float_of_int m)) with
            | Some n => inr n
            | None => inl InfiniteFloat
            end
        end
    end.
Proof.
  intros Hs. apply match_size_shape in Hs. unfold parse_size.
  by rewrite Hs.
Qed.

Lemma size_shape_groups t value unit value' unit' :
  size_shape t value unit -> size_shape t value' unit' ->
  value' = value /\ unit' = unit.
Proof.
  intros H1%match_size_shape H2%match_size_shape. split; congruence.
Qed.

(** X4.  [parse_size] raises "Invalid size format" exactly when its
    argument, stripped and put in capitals, is not a number of digits and
    dots followed by optional blanks and capital letters; the message shows
    that normalised text.  In particular a text without letters (a bare
    number, nothing at all) and a text that does not begin with a digit or
    a dot (a sign, a unit alone) are rejected. *)
Theorem parse_size_invalid_format s :
  ascii_text s = true ->
  let t := upper (strip s) in
  (parse_size s = inl (InvalidSizeFormat t) <->
   ~ exists value unit, size_shape t value unit) /\
  (forall t', parse_size s = inl (InvalidSizeFormat t') -> t' = t) /\
  (all_chars (fun c => negb (is_upper c)) t = true ->
   parse_size s = inl (InvalidSizeFormat t)) /\
  (forall c rest, t = String c rest -> numeric c = false ->
   parse_size s = inl (InvalidSizeFormat t)).
Proof.
  intros _ t.
  assert (Hiff : parse_size s = inl (InvalidSizeFormat t) <->
                 ~ exists value unit, size_shape t value unit).
  { rewrite <- match_size_None. unfold parse_size. fold t.
    destruct (match_size t) as [[value unit]|]; [|done].
    destruct (unit_multiplier unit); [|done].
    destruct (float_of value) as [x|]; [|done].
    destruct (float_floor _); done. }
  split; [done|]. split; [|split].
  - unfold parse_size. fold t. intros t'.
    destruct (match_size t) as [[value unit]|]; [|congruence].
    destruct (unit_multiplier unit); [|done].
    destruct (float_of value) as [x|]; [|done].
    destruct (float_floor _); done.
  - intros Hno. apply Hiff.
    intros (value & unit & blanks & Ht & _ & _ & _ & Hune & Hup).
    rewrite Ht, !all_chars_app in Hno.
    apply andb_true_iff in Hno as [_ [_ Hu]%andb_true_iff].
    destruct unit as [|d u]; [done|]. simpl in Hu, Hup.
    apply andb_true_iff in Hu as [Hd _].
    apply andb_true_iff in Hup as [Hd' _]. by rewrite Hd' in Hd.
  - intros c rest Ht Hc. apply Hiff.
    intros (value & unit & blanks & Ht' & Hvne & Hnum & _).
    destruct value as [|v value]; [done|].
    rewrite Ht, app_cons_s in Ht'. injection Ht' as -> _.
    simpl in Hnum. apply andb_true_iff in Hnum as [Hv _]. congruence.
Qed.

(** X5.  [parse_size] raises "Unknown unit" exactly when the text has the
    shape of a size and its letters are not one of B, KB, MB, GB, TB, PB;
    the message names these letters. *)
Theorem parse_size_unknown_unit s unit :
  ascii_text s = true ->
  parse_size s = inl (UnknownUnit unit) <->
  (exists value, size_shape (upper (strip s)) value unit) /\
  ~ In unit units.
Proof.
  intros _. rewrite <- unit_multiplier_units. split.
  - unfold parse_size.
    destruct (match_size (upper (strip s))) as [[value u]|] eqn:Hm; [|done].
    apply match_size_shape in Hm.
    destruct (unit_multiplier u) eqn:Hu.
    + destruct (float_of value) as [x|]; [|done].
      destruct (float_floor _); done.
    + intros [= <-]. split; [by exists value|]. by rewrite Hu; intros [].
  - intros [[value Hs] Hu]. rewrite (parse_size_shaped _ _ _ Hs).
    destruct (unit_multiplier unit); [|done]. by destruct Hu.
Qed.

(** X6.  [parse_size] fails in the conversion of the number exactly when
    the text has the shape of a size with a known unit and its number is
    not a decimal literal: it has two dots or more, or no digit. *)
Theorem parse_size_malformed_number s value :
  ascii_text s = true ->
  parse_size s = inl (InvalidFloat value) <->
  (exists unit, size_shape (upper (strip s)) value unit /\ In unit units) /\
  ~ decimal_literal value.
Proof.
  intros _. split.
  - unfold parse_size.
    destruct (match_size (upper (strip s))) as [[v u]|] eqn:Hm; [|done].
    apply match_size_shape in Hm.
    destruct (unit_multiplier u) eqn:Hu; [|done].
    destruct (float_of v) as [x|] eqn:Hf;
      [destruct (float_floor _); done|].
    intros [= <-]. split.
    + exists u. split; [done|]. apply unit_multiplier_units. by rewrite Hu.
    + destruct Hm as (blanks & _ & Hvne & Hnum & _).
      intros Hlit. apply (float_of_literal _ Hvne Hnum) in Hlit as [nd Hnd].
      congruence.
  - intros [(unit & Hs & Hu) Hlit]. rewrite (parse_size_shaped _ _ _ Hs).
    apply unit_multiplier_units in Hu.
    destruct (unit_multiplier unit); [|done].
    destruct (float_of value) as [x|] eqn:Hf; [|done].
    destruct Hlit. destruct Hs as (blanks & _ & Hvne & Hnum & _).
    apply (float_of_literal _ Hvne Hnum). by eexists.
Qed.

Lemma upper_digits s : all_chars is_digit s = true -> upper s = s.
Proof.
  intros Hs. apply upper_id.
  by apply (all_chars_impl is_digit _ _ digit_not_lower).
Qed.

Lemma space_not_lower c : is_space c = true -> negb (is_lower c) = true.
Proof. destruct c as [[] [] [] [] [] [] [] []]; by vm_compute. Qed.

Lemma upper_spaces s : all_chars is_space s = true -> upper s = s.
Proof.
  intros Hs. apply upper_id.
  by apply (all_chars_impl is_space _ _ space_not_lower).
Qed.

Lemma multiplier_letters unit m :
  unit_multiplier unit = Some m ->
  unit <> "" /\ all_chars is_upper unit = true.
Proof.
  intros Hm.
  assert (Hin : In unit units) by (apply unit_multiplier_units; congruence).
  unfold units in Hin. simpl in Hin.
  repeat (destruct Hin as [<-|Hin]; [done|]). done.
Qed.

Lemma upper_nonempty s : upper s <> "" -> s <> "".
Proof. by destruct s. Qed.

Lemma upper_letters_not_space s :
  all_chars is_upper (upper s) = true ->
  all_chars (fun c => negb (is_space c)) s = true.
Proof.
  induction s as [|c s IH]; [done|]. simpl.
  intros [Hc Hs]%andb_true_iff. rewrite IH by done.
  apply upper_not_space in Hc. rewrite upper_char_space in Hc.
  by rewrite Hc.
Qed.

(** ** Floats that are exact *)

Lemma round_half_even_exact a b :
  (0 < b)%N -> round_half_even (a * b) b = a.
Proof.
  intros Hb. unfold round_half_even.
  rewrite N.div_mul, N.Div0.mod_mul by lia.
  destruct (N.compare_spec (2 * 0) b); lia.
Qed.

(** A number [a * 2 ^ e] with a mantissa [a] of 53 bits and an exponent in
    range is a float: [nearest] returns it. *)
Lemma nearest_exact num d a (e : Z) :
  (2 ^ 52 <= a < 2 ^ 53)%N -> (-1074 <= e <= 971)%Z ->
  scaled num (2 ^ d) e = ((a * snd (scaled num (2 ^ d) e))%N,
                          snd (scaled num (2 ^ d) e)) ->
  nearest num (2 ^ d) = Finite a e.
Proof.
  intros Ha He Hsc.
  assert (Hpos : forall k : N, (0 < 2 ^ k)%N).
  { intros k. apply N.neq_0_lt_0, N.pow_nonzero. lia. }
  assert (Hlog : (Z.of_N (N.log2 num) = 52 + Z.of_N d + e)%Z).
  { unfold scaled in Hsc. destruct (Z.leb_spec 0 e) as [Hle|Hlt].
    - simpl in Hsc. injection Hsc as Hnum.
      rewrite <- (N.pow_add_r 2 d (Z.to_N e)) in Hnum. rewrite Hnum.
      rewrite N.log2_mul_pow2 by lia.
      assert (Hl : N.log2 a = 52%N).
      { apply N.log2_unique; [lia|].
        change (2 ^ N.succ 52)%N with (2 ^ 53)%N. lia. }
      rewrite Hl. lia.
    - simpl in Hsc. injection Hsc as Hnum.
      assert (Hl : (N.log2 num + Z.to_N (- e) = 52 + d)%N).
      { assert (H0 : (0 < num)%N).
        { destruct (N.eq_dec num 0%N) as [->|]; [|lia].
          rewrite N.mul_0_l in Hnum. pose proof (Hpos d). nia. }
        rewrite (N.add_comm (N.log2 num)), <- N.log2_mul_pow2 by lia.
        rewrite Hnum.
        rewrite N.log2_mul_pow2 by lia.
        assert (Hl : N.log2 a = 52%N).
        { apply N.log2_unique; [lia|].
          change (2 ^ N.succ 52)%N with (2 ^ 53)%N. lia. }
        rewrite Hl. lia. }
      lia. }
  assert (Hnz : (num =? 0)%N = false).
  { apply N.eqb_neq. intros ->. unfold scaled in Hsc.
    destruct (0 <=? e)%Z; simpl in Hsc; injection Hsc as Hnum.
    - pose proof (Hpos d). pose proof (Hpos (Z.to_N e)). nia.
    - rewrite N.mul_0_l in Hnum. pose proof (Hpos d). nia. }
  unfold nearest. rewrite Hnz, N.log2_pow2 by lia.
  replace (Z.of_N (N.log2 num) - Z.of_N d - 52)%Z with e by lia.
  rewrite Hsc. set (b := snd (scaled num (2 ^ d) e)) in *.
  assert (Hb : (0 < b)%N).
  { unfold b, scaled. destruct (0 <=? e)%Z; simpl.
    - pose proof (Hpos d). pose proof (Hpos (Z.to_N e)). nia.
    - apply Hpos. }
  assert (Hcmp : (a * b <? b * 2 ^ 52)%N = false).
  { apply N.ltb_ge. nia. }
  rewrite Hcmp. rewrite Z.max_l by lia. rewrite Hsc.
  rewrite round_half_even_exact by done.
  assert (Hm : (a =? 2 ^ 53)%N = false) by (apply N.eqb_neq; lia).
  rewrite Hm.
  assert (Hov : (971 <? e)%Z = false) by (apply Z.ltb_ge; lia).
  by rewrite Hov.
Qed.

(** The multipliers are powers of two. *)
Lemma multiplier_power u m :
  unit_multiplier u = Some m ->
  exists j, (j <= 50)%N /\ m = (2 ^ j)%N /\
            float_of_int m = Finite (2 ^ 52) (Z.of_N j - 52).
Proof.
  unfold unit_multiplier.
  destruct (String.eqb u "B");
    [intros [= <-]; exists 0%N; split; [lia|]; split; [reflexivity|by vm_compute]|].
  destruct (String.eqb u "KB");
    [intros [= <-]; exists 10%N; split; [lia|]; split; [reflexivity|by vm_compute]|].
  destruct (String.eqb u "MB");
    [intros [= <-]; exists 20%N; split; [lia|]; split; [reflexivity|by vm_compute]|].
  destruct (String.eqb u "GB");
    [intros [= <-]; exists 30%N; split; [lia|]; split; [reflexivity|by vm_compute]|].
  destruct (String.eqb u "TB");
    [intros [= <-]; exists 40%N; split; [lia|]; split; [reflexivity|by vm_compute]|].
  destruct (String.eqb u "PB");
    [intros [= <-]; exists 50%N; split; [lia|]; split; [reflexivity|by vm_compute]|].
  done.
Qed.

(** An integer below [2 ^ 53] is a float, and so is its product with a
    multiplier: [int (float (n) * m)] is [n * m]. *)
Lemma integer_times_multiplier n j :
  (n < 2 ^ 53)%N -> (j <= 50)%N ->
  float_floor (float_mul (nearest n 1) (Finite (2 ^ 52) (Z.of_N j - 52))) =
  Some (n * 2 ^ j)%N.
Proof.
  intros Hn Hj. destruct (N.eq_dec n 0%N) as [->|Hn0].
  { assert (Hz : nearest 0 1 = Finite 0 (-1074)) by done.
    rewrite Hz. unfold float_mul. rewrite N.mul_0_l.
    assert (Hs : forall e, exists b, scaled 0 1 e = (0%N, b)).
    { intros e. unfold scaled. destruct (0 <=? e)%Z; by eexists. }
    destruct (Hs (- (-1074 + (Z.of_N j - 52)))%Z) as [b ->].
    assert (Hz' : nearest 0 b = Finite 0 (-1074)) by done.
    rewrite Hz'. simpl. done. }
  set (l := N.log2 n). set (t := (52 - l)%N). set (a := (n * 2 ^ t)%N).
  assert (Hl : (2 ^ l <= n < 2 ^ N.succ l)%N)
    by (apply N.log2_spec; lia).
  assert (Hl52 : (l <= 52)%N).
  { apply N.lt_succ_r, (N.pow_lt_mono_r_iff 2); lia. }
  assert (Ha : (2 ^ 52 <= a < 2 ^ 53)%N).
  { unfold a. replace 52%N with (l + t)%N at 1 by lia.
    replace 53%N with (N.succ l + t)%N by lia.
    rewrite !N.pow_add_r.
    assert (0 < 2 ^ t)%N by (apply N.neq_0_lt_0, N.pow_nonzero; lia).
    nia. }
  assert (Hx : nearest n 1 = Finite a (- Z.of_N t)).
  { change (nearest n 1) with (nearest n (2 ^ 0)).
    apply nearest_exact; [done|lia|].
    unfold scaled. destruct (Z.leb_spec 0 (- Z.of_N t)) as [Hle|Hlt].
    - assert (Ht : t = 0%N) by lia. unfold a. rewrite Ht.
      replace (Z.to_N (- Z.of_N 0)) with 0%N by lia.
      cbn [snd]. by rewrite !N.pow_0_r, !N.mul_1_r.
    - cbn [snd]. replace (Z.to_N (- - Z.of_N t)) with t by lia.
      fold a. by rewrite N.pow_0_r, N.mul_1_r. }
  rewrite Hx. unfold float_mul.
  set (ex := (- (- Z.of_N t + (Z.of_N j - 52)))%Z).
  assert (Hex : (0 <= ex)%Z) by lia.
  unfold scaled at 1. rewrite (proj2 (Z.leb_le 0 ex) Hex), N.mul_1_l.
  rewrite (nearest_exact _ (Z.to_N ex) a (Z.of_N j - Z.of_N t));
    [|done|lia|].
  - unfold float_floor.
    destruct (Z.leb_spec 0 (Z.of_N j - Z.of_N t)) as [Hle|Hlt].
    + f_equal. unfold a. rewrite <- N.mul_assoc, <- N.pow_add_r.
      f_equal. f_equal. lia.
    + f_equal. unfold a.
      replace t with (j + Z.to_N (- (Z.of_N j - Z.of_N t)))%N at 1 by lia.
      rewrite N.pow_add_r, N.mul_assoc.
      apply N.div_mul, N.pow_nonzero. lia.
  - unfold scaled.
    destruct (Z.leb_spec 0 (Z.of_N j - Z.of_N t)) as [Hle|Hlt]; simpl.
    + f_equal. rewrite <- N.pow_add_r. f_equal. f_equal. unfold ex. lia.
    + f_equal. rewrite <- N.mul_assoc, <- N.pow_add_r. f_equal.
      f_equal. unfold ex. lia.
Qed.

(** X3.  A whole number of at most 53 bits followed by a unit, in capitals
    or not, with or without blanks between them and around them, is worth
    the number times the multiplier of the unit. *)
Theorem parse_size_integer n unit m before blanks after :
  (n < 2 ^ 53)%N ->
  unit_multiplier (upper unit) = Some m ->
  all_chars is_space before = true ->
  all_chars is_space blanks = true ->
  all_chars is_space after = true ->
  parse_size (before ++ (str_of_N n ++ blanks ++ unit) ++ after) =
  inr (n * m)%N.
Proof.
  intros Hn53 Hm Hb Hbl Ha.
  destruct (multiplier_letters _ _ Hm) as [Hune Hup].
  destruct (str_of_N_cons n) as (d & ds & Hstr).
  pose proof (str_of_N_digits n) as Hdig.
  assert (Hnorm : upper (strip (before ++ (str_of_N n ++ blanks ++ unit)
                                        ++ after)) =
                  (str_of_N n ++ blanks ++ upper unit)%string).
  { rewrite strip_margins by done. rewrite <- strip_upper.
    rewrite !upper_app, upper_digits, upper_spaces by done.
    unfold strip. rewrite Hstr in Hdig |- *. simpl in Hdig.
    apply andb_true_iff in Hdig as [Hd _].
    rewrite app_cons_s, lstrip_id by by apply digit_not_space.
    change (String d (ds ++ blanks ++ upper unit))
      with (String d ds ++ blanks ++ upper unit)%string.
    rewrite <- app_assoc_s. apply rstrip_nospace_end; [done|].
    by apply (all_chars_impl is_upper _ _ upper_not_space). }
  assert (Hshape : size_shape
                     (upper (strip (before ++ (str_of_N n ++ blanks ++ unit)
                                           ++ after)))
                     (str_of_N n) (upper unit)).
  { rewrite Hnorm. exists blanks. repeat split; try done.
    - rewrite Hstr. done.
    - by apply (all_chars_impl is_digit _ _ digit_is_numeric). }
  rewrite (parse_size_shaped _ _ _ Hshape), Hm.
  unfold float_of. rewrite decimal_of_integer.
  destruct (multiplier_power _ _ Hm) as (j & Hj & -> & Hfm).
  by rewrite Hfm, integer_times_multiplier.
Qed.

(** X7.  Letter case and blanks around the text do not matter: two texts
    that agree once put in capitals are parsed alike, whatever blanks
    surround one of them. *)
Theorem parse_size_ignores_case_and_margins s s' before after :
  ascii_text s = true -> ascii_text s' = true ->
  upper s = upper s' ->
  all_chars is_space before = true -> all_chars is_space after = true ->
  parse_size (before ++ s' ++ after) = parse_size s.
Proof.
  intros _ _ Hup Hb Ha. apply parse_size_normal.
  rewrite strip_margins by done. by rewrite <- !strip_upper, Hup.
Qed.
End ParseFacts.

(* ===================================================================== *)
(** * Sorting by a key, sums *)
(* ===================================================================== *)

Section KeyedSort.
Context {A : Type} (key : A -> Z).

Lemma decorated_fst (xs : list A) (e : Z * A) :
  e ∈ sort_desc (map (fun x => (key x, x)) xs) -> fst e = key (snd e).
Proof.
  rewrite sort_desc_perm. intros (x & -> & _)%list_elem_of_fmap. done.
Qed.

Lemma sorted_by_perm (xs : list A) :
  map snd (sort_desc (map (fun x => (key x, x)) xs)) ≡ₚ xs.
Proof.
  rewrite sort_desc_perm, map_map. simpl. by rewrite map_id.
Qed.

Lemma sorted_by_sorted (xs : list A) :
  StronglySorted (fun a b => (key b <= key a)%Z)
    (map snd (sort_desc (map (fun x => (key x, x)) xs))).
Proof.
  pose proof (sort_desc_sorted (map (fun x => (key x, x)) xs)) as Hs.
  pose proof (decorated_fst xs) as Hk.
  induction Hs as [|e l Hs IH Hall]; simpl; constructor.
  - apply IH. intros e' He'. apply Hk. by right.
  - rewrite Forall_forall in Hall. apply Forall_forall.
    intros b (e' & -> & He')%list_elem_of_fmap.
    rewrite <- (Hk e) by by left.
    rewrite <- (Hk e') by by right.
    by apply Hall.
Qed.

Lemma sorted_by_stable (t : Z) (xs : list A) :
  List.filter (fun x => (key x =? t)%Z)
    (map snd (sort_desc (map (fun x => (key x, x)) xs))) =
  List.filter (fun x => (key x =? t)%Z) xs.
Proof.
  pose proof (decorated_fst xs) as Hk.
  assert (Hf : forall l : list (Z * A),
             List.filter (fun x => (key x =? t)%Z) (map snd l) =
             map snd (List.filter (fun e => (key (snd e) =? t)%Z) l)).
  { induction l as [|e l IH]; [done|]. simpl.
    destruct (key (snd e) =? t)%Z; simpl; by rewrite IH. }
  rewrite Hf.
  rewrite (List.filter_ext_in (fun e => (key (snd e) =? t)%Z)
                              (fun e => (fst e =? t)%Z)).
  - rewrite sort_desc_stable. clear.
    induction xs as [|x xs IH]; [done|]. simpl.
    destruct (key x =? t)%Z; simpl; by rewrite IH.
  - intros e He. rewrite (Hk e); [done|]. by apply list_elem_of_In.
Qed.
End KeyedSort.

Section Sums.

Lemma StronglySorted_weaken {A} (R R' : A -> A -> Prop) (l : list A) :
  (forall a b, R a b -> R' a b) ->
  StronglySorted R l -> StronglySorted R' l.
Proof.
  intros HR. induction 1 as [|a l Hs IH Hall]; constructor; [done|].
  eapply List.Forall_impl; [|exact Hall]. apply HR.
Qed.

Lemma sum_N_app (l l' : list N) : sum_N (l ++ l') = (sum_N l + sum_N l')%N.
Proof.
  induction l as [|x l IH]; simpl; [done|]. unfold sum_N in *. simpl.
  rewrite IH. lia.
Qed.

Lemma sum_N_perm (l l' : list N) : l ≡ₚ l' -> sum_N l = sum_N l'.
Proof.
  induction 1; unfold sum_N in *; simpl; lia.
Qed.

Lemma sum_N_filter_le {A} (f : A -> N) (p : A -> bool) (l : list A) :
  (sum_N (map f (List.filter p l)) <= sum_N (map f l))%N.
Proof.
  induction l as [|x l IH]; simpl; [done|].
  destruct (p x); unfold sum_N in *; simpl; lia.
Qed.
End Sums.

(* ===================================================================== *)
(** * Directory size, large files, file types: properties *)
(* ===================================================================== *)

Section WalkFacts.
Context {W : Type} `{!OS W}.
Implicit Types (w : W) (p : string).

Lemma directory_size_loop w listing (total : N) :
  fold_left
    (fun total_size file_path =>
       if os_path_islink file_path w then total_size
       else (total_size + get_file_size file_path w)%N)
    listing total =
  (total +
   sum_N (map (fun p => get_file_size p w)
              (List.filter (fun p => negb (os_path_islink p w)) listing)))%N.
Proof.
  revert total. induction listing as [|p l IH]; intros total; simpl.
  - unfold sum_N. simpl. lia.
  - rewrite IH. destruct (os_path_islink p w); simpl; [done|].
    unfold sum_N. simpl. lia.
Qed.

Lemma get_directory_size_sum directory w :
  get_directory_size directory w =
  sum_N (map (fun p => get_file_size p w) (non_links directory w)).
Proof. unfold get_directory_size. by rewrite directory_size_loop. Qed.

Lemma get_file_size_agrees w1 w2 p :
  os_path_getsize p w1 = os_path_getsize p w2 ->
  get_file_size p w1 = get_file_size p w2.
Proof. unfold get_file_size. by intros ->. Qed.

(** X8.  [get_directory_size] adds up [get_file_size] over the walked
    files that are not symbolic links: a link adds nothing, a file whose
    size cannot be read adds 0.  The order of the walk does not matter:
    two states that list the same files, with the same link status and
    sizes, give the same total. *)
Theorem directory_size_order_independent directory w1 w2 :
  os_walk directory w1 ≡ₚ os_walk directory w2 ->
  (forall p, p ∈ os_walk directory w1 ->
     os_path_islink p w1 = os_path_islink p w2 /\
     os_path_getsize p w1 = os_path_getsize p w2) ->
  get_directory_size directory w1 =
    sum_N (map (fun p => get_file_size p w1) (non_links directory w1)) /\
  get_directory_size directory w1 = get_directory_size directory w2.
Proof.
  intros Hperm Hsame. split; [apply get_directory_size_sum|].
  rewrite !get_directory_size_sum. apply sum_N_perm.
  unfold non_links.
  transitivity
    (map (fun p => get_file_size p w2)
         (List.filter (fun p => negb (os_path_islink p w2))
                      (os_walk directory w1))).
  - assert (Hf : forall l, (forall p, p ∈ l -> p ∈ os_walk directory w1) ->
      map (fun p => get_file_size p w1)
          (List.filter (fun p => negb (os_path_islink p w1)) l) =
      map (fun p => get_file_size p w2)
          (List.filter (fun p => negb (os_path_islink p w2)) l)).
    { induction l as [|p l IH]; intros Hin; [done|]. simpl.
      destruct (Hsame p (Hin p ltac:(by left))) as [<- Hsz].
      destruct (os_path_islink p w1); simpl.
      - apply IH. intros q Hq. apply Hin. by right.
      - rewrite (get_file_size_agrees _ _ _ Hsz). f_equal.
        apply IH. intros q Hq. apply Hin. by right. }
    by rewrite Hf.
  - apply Permutation_map. by apply filter_perm.
Qed.

Lemma large_loop min_size_bytes w listing (acc : list file_info) :
  fold_left (large_step min_size_bytes w) listing acc =
  acc ++ map (record_of w)
             (List.filter (retained min_size_bytes w) listing).
Proof.
  revert acc. induction listing as [|p l IH]; intros acc; simpl.
  - by rewrite app_nil_r.
  - rewrite IH. unfold large_step, retained.
    destruct (os_path_islink p w); simpl; [done|].
    destruct (min_size_bytes <=? Z.of_N (get_file_size p w))%Z; simpl;
      [|done].
    by rewrite <- app_assoc.
Qed.

Lemma find_large_files_unfold directory min_size_bytes w :
  find_large_files directory min_size_bytes w =
  map snd
    (sort_desc
       (map (fun x => (Z.of_N (size_bytes x), x))
            (map (record_of w)
                 (List.filter (retained min_size_bytes w)
                              (os_walk directory w))))).
Proof. unfold find_large_files. by rewrite large_loop. Qed.

Lemma filter_map_record w (f : file_info -> bool) (l : list string) :
  List.filter f (map (record_of w) l) =
  map (record_of w) (List.filter (fun p => f (record_of w p)) l).
Proof.
  induction l as [|p l IH]; [done|]. simpl.
  destruct (f (record_of w p)); simpl; by rewrite IH.
Qed.

(** X9.  [find_large_files] lists exactly the walked files that are not
    links and whose size reaches the threshold, each with its size as
    [get_file_size] reports it and that size formatted; the list is sorted
    by size, largest first, and files of equal size keep the order of the
    walk. *)
Theorem large_files_sorted directory min_size_bytes w :
  let found := find_large_files directory min_size_bytes w in
  found ≡ₚ map (record_of w)
              (List.filter (retained min_size_bytes w)
                           (os_walk directory w)) /\
  (forall x, x ∈ found <->
     exists p, p ∈ os_walk directory w /\ os_path_islink p w = false /\
               (min_size_bytes <= Z.of_N (get_file_size p w))%Z /\
               x = record_of w p) /\
  StronglySorted (fun a b => (size_bytes b <= size_bytes a)%N) found /\
  (forall n, map path (List.filter (fun x => (size_bytes x =? n)%N) found) =
             size_bucket min_size_bytes w (os_walk directory w) n).
Proof.
  intros found. subst found. rewrite find_large_files_unfold.
  set (xs := map (record_of w) _).
  assert (Hperm : map snd (sort_desc
                    (map (fun x => (Z.of_N (size_bytes x), x)) xs)) ≡ₚ xs)
    by apply sorted_by_perm.
  split; [done|]. split; [|split].
  - intros x. rewrite Hperm. unfold xs. rewrite list_elem_of_fmap.
    split.
    + intros (p & -> & Hp). apply list_elem_of_In, filter_In in Hp as [Hin Hr].
      apply list_elem_of_In in Hin. unfold retained in Hr.
      apply andb_true_iff in Hr as [Hl Hs].
      apply negb_true_iff in Hl. apply Z.leb_le in Hs. by exists p.
    + intros (p & Hin & Hl & Hs & ->). exists p. split; [done|].
      apply list_elem_of_In, filter_In. split; [by apply list_elem_of_In|].
      unfold retained. rewrite Hl. simpl. by apply Z.leb_le.
  - pose proof (sorted_by_sorted (fun x => Z.of_N (size_bytes x)) xs) as Hs.
    eapply StronglySorted_weaken; [|exact Hs]. intros a b Hab. simpl in Hab. lia.
  - intros n.
    rewrite (List.filter_ext (fun x => (size_bytes x =? n)%N)
               (fun x => (Z.of_N (size_bytes x) =? Z.of_N n)%Z)).
    + rewrite (sorted_by_stable (fun x => Z.of_N (size_bytes x))).
      unfold xs. rewrite filter_map_record, map_map. simpl. rewrite map_id.
      unfold size_bucket. clear.
      induction (os_walk directory w) as [|p l IH]; [done|]. simpl.
      destruct (retained min_size_bytes w p); simpl; [|done].
      rewrite IH.
      destruct (Z.eqb_spec (Z.of_N (get_file_size p w)) (Z.of_N n)) as [He|He];
        destruct (N.eqb_spec (get_file_size p w) n) as [Hn|Hn];
        try done; lia.
    + intros x. destruct (N.eqb_spec (size_bytes x) n) as [->|Hn].
      * by rewrite Z.eqb_refl.
      * symmetry. apply Z.eqb_neq. lia.
Qed.
End WalkFacts.

Section WalkTotals.
Context {W : Type} `{!OS W}.
Implicit Types (w : W) (p : string).

Lemma retained_non_links min_size_bytes w (l : list string) :
  List.filter (retained min_size_bytes w) l =
  List.filter (fun p => (min_size_bytes <=? Z.of_N (get_file_size p w))%Z)
              (List.filter (fun p => negb (os_path_islink p w)) l).
Proof.
  induction l as [|p l IH]; [done|]. simpl. unfold retained at 1.
  destruct (os_path_islink p w); simpl; [done|].
  destruct (min_size_bytes <=? Z.of_N (get_file_size p w))%Z; by rewrite IH.
Qed.

Lemma filter_all {A} (f : A -> bool) (l : list A) :
  (forall x, f x = true) -> List.filter f l = l.
Proof.
  intros Hf. induction l as [|x l IH]; [done|]. simpl. by rewrite Hf, IH.
Qed.

(** X10.  The sizes [find_large_files] lists never add up to more than
    [get_directory_size] reports for the directory; with a threshold of 0
    or less every file that is not a link is listed, and the two totals
    agree. *)
Theorem large_files_within_directory_size directory min_size_bytes w :
  let found := find_large_files directory min_size_bytes w in
  (sum_N (map size_bytes found) <= get_directory_size directory w)%N /\
  ((min_size_bytes <= 0)%Z ->
   map path found ≡ₚ non_links directory w /\
   sum_N (map size_bytes found) = get_directory_size directory w).
Proof.
  intros found.
  assert (Hperm : found ≡ₚ
            map (record_of w)
                (List.filter
                   (fun p => (min_size_bytes <=? Z.of_N (get_file_size p w))%Z)
                   (non_links directory w))).
  { subst found. rewrite find_large_files_unfold, sorted_by_perm.
    by rewrite retained_non_links. }
  rewrite get_directory_size_sum. split.
  - rewrite (sum_N_perm _ _ (Permutation_map size_bytes Hperm)).
    rewrite map_map. simpl. apply sum_N_filter_le.
  - intros Hmin. rewrite filter_all in Hperm.
    + split.
      * rewrite (Permutation_map path Hperm), map_map. simpl.
        by rewrite map_id.
      * rewrite (sum_N_perm _ _ (Permutation_map size_bytes Hperm)).
        by rewrite map_map.
    + intros p. apply Z.leb_le. lia.
Qed.


End WalkTotals.

(* ===================================================================== *)
(** * File types: properties *)
(* ===================================================================== *)

Section TypeFacts.
Context {W : Type} `{!OS W}.
Implicit Types (w : W) (p key ext : string).

Lemma dict_get_absent {V} key (d : list (string * V)) :
  dict_get key d = None <-> key ∉ map fst d.
Proof.
  induction d as [|[k v] d IH]; simpl.
  - split; [|done]. intros _ Hin. inversion Hin.
  - case_decide.
    + subst. split; [done|]. intros Hn. destruct Hn. by left.
    + rewrite IH, not_elem_of_cons. split; [by intros ?; split|by intros [_ ?]].
Qed.

Lemma dict_get_member {V} key (d : list (string * V)) (v : V) :
  NoDup (map fst d) -> (key, v) ∈ d <-> dict_get key d = Some v.
Proof.
  induction d as [|[k v'] d IH]; simpl; intros Hnd.
  - split; [|done]. intros Hin. inversion Hin.
  - apply NoDup_cons in Hnd as [Hk Hnd]. rewrite elem_of_cons, (IH Hnd).
    case_decide.
    + subst. split.
      * intros [[= <-]|Hg]; [done|].
        destruct Hk. apply list_elem_of_fmap. exists (key, v).
        split; [done|]. by apply IH.
      * intros [= <-]. by left.
    + split; [|by right]. intros [[= <- <-]|Hg]; done.
Qed.

Lemma dict_get_type_add key ext sz (d : list (string * type_stats)) :
  dict_get key (type_add ext sz d) =
  if decide (ext = key)
  then Some match dict_get ext d with
            | Some v =>
                {| ts_count := S (ts_count v);
                   ts_total_size_bytes := ts_total_size_bytes v + sz;
                   ts_total_size := ts_total_size v |}
            | None =>
                {| ts_count := 1; ts_total_size_bytes := sz;
                   ts_total_size := "" |}
            end
  else dict_get key d.
Proof.
  induction d as [|[k v] d IH]; simpl.
  - repeat case_decide; congruence.
  - repeat (case_decide; simpl); try congruence;
      rewrite IH; by rewrite ?decide_True, ?decide_False by done.
Qed.

Lemma keys_type_add ext sz (d : list (string * type_stats)) :
  map fst (type_add ext sz d) =
  map fst d ++ match dict_get ext d with Some _ => [] | None => [ext] end.
Proof.
  induction d as [|[k v] d IH]; simpl; [done|].
  case_decide; simpl.
  - by rewrite app_nil_r.
  - by rewrite IH.
Qed.

Lemma typed_files_snoc w (l : list string) p key :
  typed_files w (l ++ [p]) key =
  typed_files w l key ++
  (if os_path_islink p w then []
   else if decide (type_key (os_path_basename p) = key) then [p] else []).
Proof.
  unfold typed_files. rewrite !List.filter_app. simpl.
  destruct (os_path_islink p w); simpl; [done|].
  case_bool_decide; case_decide; done.
Qed.

Lemma stats_of_snoc w (files : list string) p :
  stats_of w (fun _ => "") (files ++ [p]) =
  Some match stats_of w (fun _ => "") files with
       | Some v =>
           {| ts_count := S (ts_count v);
              ts_total_size_bytes :=
                ts_total_size_bytes v + get_file_size p w;
              ts_total_size := ts_total_size v |}
       | None =>
           {| ts_count := 1; ts_total_size_bytes := get_file_size p w;
              ts_total_size := "" |}
       end.
Proof.
  unfold stats_of. destruct files as [|q files].
  - simpl. unfold sum_N. simpl. do 2 f_equal. lia.
  - change ((q :: files) ++ [p]) with (q :: (files ++ [p])).
    cbn [length]. rewrite length_app. simpl.
    rewrite map_app, sum_N_app. unfold sum_N at 2. simpl.
    do 2 f_equal; [lia|]. unfold sum_N. simpl. lia.
Qed.

(** The dictionary the loop has built after the files [listing]. *)
Lemma type_loop w (listing : list string) :
  let d := fold_left (type_step w) listing [] in
  NoDup (map fst d) /\
  (forall key,
     dict_get key d = stats_of w (fun _ => "") (typed_files w listing key)) /\
  sum_nat (map (fun e => ts_count (snd e)) d) =
    length (List.filter (fun p => negb (os_path_islink p w)) listing) /\
  sum_N (map (fun e => ts_total_size_bytes (snd e)) d) =
    sum_N (map (fun p => get_file_size p w)
               (List.filter (fun p => negb (os_path_islink p w)) listing)).
Proof.
  induction listing as [|p l IH] using rev_ind.
  { simpl. split; [constructor|]. done. }
  intros d. subst d. rewrite fold_left_app. simpl.
  set (d := fold_left (type_step w) l []) in *.
  destruct IH as (Hnd & Hget & Hcount & Hbytes).
  unfold type_step. rewrite !List.filter_app. simpl.
  destruct (os_path_islink p w) eqn:Hl; simpl.
  { rewrite !app_nil_r. split; [done|]. split; [|done].
    intros key. rewrite typed_files_snoc, Hl, app_nil_r. apply Hget. }
  set (k := type_key (os_path_basename p)).
  split; [|split; [|split]].
  - rewrite keys_type_add. destruct (dict_get k d) eqn:Hk.
    + by rewrite app_nil_r.
    + apply NoDup_app. split; [done|]. split; [|apply NoDup_singleton].
      intros x Hx ->%list_elem_of_singleton.
      by apply dict_get_absent in Hk.
  - intros key. rewrite dict_get_type_add, typed_files_snoc, Hl.
    fold k. case_decide as Hkey.
    + subst key. rewrite stats_of_snoc. by rewrite Hget.
    + rewrite app_nil_r. apply Hget.
  - rewrite length_app. simpl. rewrite <- Hcount. clear.
    induction d as [|[k' v] d IH]; simpl; [done|].
    case_decide; simpl in *; unfold sum_nat in *; simpl; lia.
  - rewrite map_app, sum_N_app, <- Hbytes. clear.
    unfold sum_N at 3. simpl.
    induction d as [|[k' v] d IH]; simpl.
    + unfold sum_N. simpl. lia.
    + case_decide; simpl in *; unfold sum_N in *; simpl in *; lia.
Qed.

Lemma dict_get_map_snd {A B} (f : A -> B) key (d : list (string * A)) :
  dict_get key (map (fun e => (fst e, f (snd e))) d) =
  option_map f (dict_get key d).
Proof.
  induction d as [|[k v] d IH]; simpl; [done|]. by case_decide.
Qed.

(** X12.  [get_file_types_summary] has one entry for every type key that
    some walked file other than a link has: its count is the number of
    these files, its total the sum of their sizes, printed by
    [format_size].  So the counts of all entries add up to the number of
    files that are not links, and the totals to [get_directory_size]. *)
Theorem file_types_summary_counts directory w :
  (forall p, p ∈ os_walk directory w -> ascii_text p = true) ->
  let summary := get_file_types_summary directory w in
  NoDup (map fst summary) /\
  (forall key stats,
     (key, stats) ∈ summary <->
     stats_of w SizeUtils.format_size (files_of_type directory w key)
       = Some stats) /\
  sum_nat (map (fun e => ts_count (snd e)) summary) =
    length (non_links directory w) /\
  sum_N (map (fun e => ts_total_size_bytes (snd e)) summary) =
    get_directory_size directory w.
Proof.
  intros _ summary. subst summary. unfold get_file_types_summary.
  destruct (type_loop w (os_walk directory w))
    as (Hnd & Hget & Hcount & Hbytes).
  set (d := fold_left (type_step w) (os_walk directory w) []) in *.
  assert (Hkeys :
    map fst (map (fun e => (fst e,
                            {| ts_count := ts_count (snd e);
                               ts_total_size_bytes :=
                                 ts_total_size_bytes (snd e);
                               ts_total_size :=
                                 SizeUtils.format_size
                                   (ts_total_size_bytes (snd e)) |})) d) =
    map fst d) by (by rewrite map_map).
  split; [by rewrite Hkeys|]. split; [|split].
  - intros key stats. rewrite dict_get_member by by rewrite Hkeys.
    rewrite (dict_get_map_snd
               (fun v => {| ts_count := ts_count v;
                            ts_total_size_bytes := ts_total_size_bytes v;
                            ts_total_size :=
                              SizeUtils.format_size (ts_total_size_bytes v) |})).
    rewrite Hget. unfold files_of_type, stats_of.
    by destruct (typed_files w (os_walk directory w) key).
  - rewrite map_map. simpl. exact Hcount.
  - rewrite map_map. simpl. rewrite Hbytes.
    by rewrite get_directory_size_sum.
Qed.
End TypeFacts.

Section TypeKeyFacts.
Import SizeUtils.
Implicit Types (s t : string) (c : ascii).

Lemma from_last_dot_none s :
  all_chars (fun c => negb (is_dot c)) s = true -> from_last_dot s = None.
Proof.
  induction s as [|c s IH]; [done|]. simpl.
  intros [Hc Hs]%andb_true_iff. rewrite IH by done.
  unfold is_dot in Hc. by destruct (Ascii.eqb c ".").
Qed.

Lemma from_last_dot_ext body ext :
  all_chars (fun c => negb (is_dot c)) ext = true ->
  from_last_dot (body ++ String "." ext) = Some (String "." ext).
Proof.
  intros Hext. induction body as [|c body IH].
  - rewrite app_nil_s. simpl. by rewrite from_last_dot_none.
  - rewrite app_cons_s. simpl. by rewrite IH.
Qed.

Lemma drop_dots_app dots s :
  all_chars is_dot dots = true -> drop_dots (dots ++ s) = drop_dots s.
Proof.
  induction dots as [|c dots IH]; [done|]. simpl.
  intros [Hc Hd]%andb_true_iff. unfold is_dot in Hc. rewrite Hc.
  by apply IH.
Qed.

Lemma drop_dots_id c s : is_dot c = false -> drop_dots (String c s) = String c s.
Proof. unfold is_dot. simpl. by intros ->. Qed.

(** X13.  The type a file is counted under.  A name in which no dot
    follows the first character that is not a dot has no extension: plain
    names and hidden files such as [.bashrc] are counted under
    "no extension".  Otherwise the key is the text from the last dot on, in
    small letters: [archive.tar.GZ] is counted under [.gz]. *)
Theorem type_key_of_name :
  (forall dots name,
     all_chars is_dot dots = true ->
     all_chars (fun c => negb (is_dot c)) name = true ->
     type_key (dots ++ name) = "no extension") /\
  (forall dots c body ext,
     all_chars is_dot dots = true -> is_dot c = false ->
     all_chars (fun c => negb (is_dot c)) ext = true ->
     ascii_text ext = true ->
     type_key (dots ++ String c body ++ String "." ext) =
     String "." (str_lower ext)).
Proof.
  split.
  - intros dots name Hd Hn. unfold type_key, splitext_ext.
    rewrite drop_dots_app by done.
    assert (Hdrop : drop_dots name = name).
    { destruct name as [|c name]; [done|]. simpl in Hn.
      apply andb_true_iff in Hn as [Hc _]. apply negb_true_iff in Hc.
      by apply drop_dots_id. }
    by rewrite Hdrop, from_last_dot_none.
  - intros dots c body ext Hd Hc Hext _. unfold type_key, splitext_ext.
    rewrite drop_dots_app by done.
    rewrite app_cons_s, drop_dots_id by done.
    change (String c (body ++ String "." ext))
      with (String c body ++ String "." ext)%string.
    by rewrite from_last_dot_ext.
Qed.
End TypeKeyFacts.

(* ===================================================================== *)
(** * Temporary files: properties *)
(* ===================================================================== *)

Section TempFacts.
Context {W : Type} `{!OS W}.
Implicit Types (w : W) (p : string).

Lemma old_files_at_snoc days clock w (files : list string) p :
  old_files_at days clock w (files ++ [p]) =
  old_files_at days clock w files ++
  (if is_file_older_than p days (clock (length files)) w then [p] else []).
Proof.
  unfold old_files_at. rewrite imap_app, List.filter_app, map_app.
  simpl. rewrite Nat.add_0_r.
  by destruct (is_file_older_than p days (clock (length files)) w).
Qed.

Lemma old_files_at_sub days clock w (files : list string) :
  length (old_files_at days clock w files) <= length files /\
  (sum_N (map (fun p => get_file_size p w) (old_files_at days clock w files))
   <= sum_N (map (fun p => get_file_size p w) files))%N.
Proof.
  induction files as [|p l IH] using rev_ind; [done|].
  rewrite old_files_at_snoc, !map_app, !sum_N_app, !length_app.
  destruct (is_file_older_than p days (clock (length l)) w); simpl;
    unfold sum_N in *; simpl in *; lia.
Qed.

Lemma old_files_at_never days clock w (files : list string) :
  (days <= 0)%Z -> old_files_at days clock w files = [].
Proof.
  intros Hd. induction files as [|p l IH] using rev_ind; [done|].
  rewrite old_files_at_snoc, IH. unfold is_file_older_than.
  destruct (os_path_getmtime p w); [done|].
  by destruct (Z.leb_spec days 0); [|lia].
Qed.

(** The state of the loop after the files [listing]. *)
Lemma temp_loop directory days clock w (listing : list string) :
  let files := List.filter (fun p => negb (os_path_islink p w)) listing in
  let old := old_files_at days clock w files in
  let result0 :=
    {| ta_directory := directory; ta_total_size_bytes := 0;
       ta_total_count := 0; ta_old_files_size_bytes := 0;
       ta_old_files_count := 0; ta_old_files := [];
       ta_total_size := ""; ta_old_files_size := "" |} in
  fold_left (temp_step days clock w) listing (result0, O) =
  ({| ta_directory := directory;
      ta_total_size_bytes := sum_N (map (fun p => get_file_size p w) files);
      ta_total_count := length files;
      ta_old_files_size_bytes :=
        sum_N (map (fun p => get_file_size p w) old);
      ta_old_files_count := length old;
      ta_old_files := map (record_of w) (firstn 1000 old);
      ta_total_size := ""; ta_old_files_size := "" |},
   length files).
Proof.
  induction listing as [|p l IH] using rev_ind; [done|].
  intros files old result0. subst files old result0.
  rewrite fold_left_app. cbv zeta in IH. rewrite IH. clear IH.
  rewrite List.filter_app. cbn [fold_left List.filter]. unfold temp_step at 1.
  destruct (os_path_islink p w);
    cbn [negb app ta_directory ta_total_size_bytes ta_total_count
         ta_old_files_size_bytes ta_old_files_count ta_old_files
         ta_total_size ta_old_files_size];
    [by rewrite app_nil_r|].
  set (files := List.filter (fun p => negb (os_path_islink p w)) l).
  rewrite old_files_at_snoc.
  set (old := old_files_at days clock w files).
  rewrite !length_app, !map_app, !sum_N_app. cbn [length map].
  rewrite length_map, length_firstn.
  assert (Hone : sum_N [get_file_size p w] = get_file_size p w).
  { unfold sum_N. simpl. lia. }
  rewrite Hone.
  destruct (is_file_older_than p days (clock (length files)) w);
    cbn [andb].
  - cbn [length map]. rewrite ?Hone.
    f_equal; [|lia]. f_equal; try lia.
    destruct (Nat.ltb_spec (Nat.min 1000 (length old)) 1000) as [Hlt|Hge].
    + rewrite firstn_all2 by lia.
      rewrite firstn_all2 by (rewrite length_app; simpl; lia).
      by rewrite map_app.
    + rewrite firstn_app.
      replace (1000 - length old) with 0 by lia.
      by rewrite firstn_O, app_nil_r.
  - rewrite !app_nil_r.
    f_equal; [|lia]. f_equal; try (simpl; lia);
      unfold sum_N; simpl; lia.
Qed.

(** X14.  [analyze_temp_files] counts every walked file that is not a
    link, once: its total size is what [get_directory_size] reports for
    the directory.  The figures for the old files never exceed the totals,
    and both sizes are printed by [format_size]. *)
Theorem temp_analysis_totals directory min_age_days clock w :
  let a := analyze_temp_files directory min_age_days clock w in
  ta_directory a = directory /\
  ta_total_size_bytes a = get_directory_size directory w /\
  ta_total_count a = length (non_links directory w) /\
  ta_old_files_count a <= ta_total_count a /\
  (ta_old_files_size_bytes a <= ta_total_size_bytes a)%N /\
  ta_total_size a = SizeUtils.format_size (ta_total_size_bytes a) /\
  ta_old_files_size a = SizeUtils.format_size (ta_old_files_size_bytes a).
Proof.
  intros a. subst a. unfold analyze_temp_files.
  rewrite temp_loop. simpl. fold (non_links directory w).
  destruct (old_files_at_sub min_age_days clock w (non_links directory w))
    as [Hc Hb].
  repeat split; try done.
  by rewrite get_directory_size_sum.
Qed.

(** X15.  The old files of [analyze_temp_files].  The counters count every
    file found old, in walk order each file being tested at the time of its
    own test; the list [old_files] keeps the first 1000 of them only, so its
    length is the smaller of the count and 1000.  With [min_age_days] at 0
    or below, no file is old. *)
Theorem temp_analysis_old_files directory min_age_days clock w :
  let a := analyze_temp_files directory min_age_days clock w in
  let old := old_files_at min_age_days clock w (non_links directory w) in
  ta_old_files_count a = length old /\
  ta_old_files_size_bytes a = sum_N (map (fun p => get_file_size p w) old) /\
  ta_old_files a = map (record_of w) (firstn 1000 old) /\
  length (ta_old_files a) = Nat.min (ta_old_files_count a) 1000 /\
  ((min_age_days <= 0)%Z ->
   ta_old_files_count a = 0 /\ ta_old_files a = [] /\
   ta_old_files_size_bytes a = 0%N).
Proof.
  intros a old. subst a old. unfold analyze_temp_files.
  rewrite temp_loop. simpl. fold (non_links directory w).
  repeat split; try done.
  - rewrite length_map, length_firstn. lia.
  - by rewrite old_files_at_never.
  - by rewrite old_files_at_never.
  - by rewrite old_files_at_never.
Qed.
End TempFacts.

(* ===================================================================== *)
(** * Files by extension: properties *)
(* ===================================================================== *)

Section ExtensionFacts.
Context {W : Type} `{!OS W}.
Implicit Types (w : W) (p s suffix : string).

Lemma str_endswith_spec s suffix :
  str_endswith s suffix = true <-> exists stem, s = (stem ++ suffix)%string.
Proof.
  induction s as [|c s IH]; cbn [str_endswith].
  - rewrite orb_false_r. split.
    + intros <-%String.eqb_eq. by exists "".
    + intros [stem Hs]. apply String.eqb_eq.
      destruct stem; [done|]. by rewrite app_cons_s in Hs.
  - rewrite orb_true_iff, IH. split.
    + intros [<-%String.eqb_eq|[stem ->]]; [by exists ""|].
      by exists (String c stem).
    + intros [[|c' stem] Hs].
      * left. apply String.eqb_eq. by rewrite app_nil_s in Hs.
      * right. rewrite app_cons_s in Hs. injection Hs as -> ->.
        by exists stem.
Qed.

Lemma has_slash_app s t :
  FS.has_slash (s ++ t) = FS.has_slash s || FS.has_slash t.
Proof.
  induction s as [|c s IH]; [done|]. rewrite app_cons_s. simpl.
  by rewrite IH, orb_assoc.
Qed.

Lemma basename_plain s : FS.has_slash s = false -> os_path_basename s = s.
Proof.
  destruct s as [|c s]; [done|]. simpl.
  intros [Hc Hs]%orb_false_iff. by rewrite Hs, Hc.
Qed.

Lemma basename_join dir name :
  FS.has_slash name = false ->
  os_path_basename (dir ++ "/" ++ name) = name.
Proof.
  intros Hn. change ("/" ++ name)%string with (String "/" name).
  induction dir as [|c dir IH].
  - rewrite app_nil_s. simpl. by rewrite Hn.
  - rewrite app_cons_s. simpl. rewrite has_slash_app. simpl.
    rewrite orb_true_r. exact IH.
Qed.

Lemma filter_is_sublist {A} (f : A -> bool) (l : list A) :
  sublist (List.filter f l) l.
Proof.
  induction l as [|x l IH]; simpl; [constructor|].
  destruct (f x); by constructor.
Qed.

(** X16.  [find_files_by_extension] yields, in walk order, the walked
    files (links included) whose name, the last component of the path, ends
    with one of the extensions; the comparison respects letter case, and a
    name that is the extension itself matches.  Without extensions nothing
    is yielded; the empty extension yields every file. *)
Theorem files_by_extension_found directory extensions w :
  let found := find_files_by_extension directory extensions w in
  (forall p, p ∈ found <->
     p ∈ os_walk directory w /\
     exists ext stem,
       ext ∈ extensions /\ os_path_basename p = (stem ++ ext)%string) /\
  sublist found (os_walk directory w) /\
  (extensions = [] -> found = []) /\
  ("" ∈ extensions -> found = os_walk directory w) /\
  (forall dir name,
     FS.has_slash name = false ->
     os_path_basename (dir ++ "/" ++ name) = name).
Proof.
  intros found. subst found. unfold find_files_by_extension.
  assert (Hmatch : forall p,
    existsb (str_endswith (os_path_basename p)) extensions = true <->
    exists ext stem,
      ext ∈ extensions /\ os_path_basename p = (stem ++ ext)%string).
  { intros p. rewrite existsb_exists. split.
    - intros (ext & Hin & [stem Hs]%str_endswith_spec).
      exists ext, stem. split; [by apply list_elem_of_In|done].
    - intros (ext & stem & Hin & Hs). exists ext.
      split; [by apply list_elem_of_In|].
      apply str_endswith_spec. by exists stem. }
  split; [|split; [|split; [|split]]].
  - intros p. rewrite list_elem_of_In, filter_In, <- list_elem_of_In.
    by rewrite Hmatch.
  - apply filter_is_sublist.
  - intros ->. simpl. by induction (os_walk directory w).
  - intros Hin. apply filter_all. intros p. apply Hmatch.
    exists "", (os_path_basename p). split; [done|].
    by rewrite app_nil_r_s.
  - apply basename_join.
Qed.
End ExtensionFacts.

(* ===================================================================== *)
(** * Duplicate statistics: properties *)
(* ===================================================================== *)

Section StatisticsFacts.
Context {W : Type} `{!OS W}.
Implicit Types (w : W) (groups : list (string * list file_info)).

Lemma wasted_in_Ok (files : list file_info) :
  files <> [] -> wasted_in files = Ok (wasted_of files).
Proof. by destruct files. Qed.

Lemma sum_results_Ok groups :
  (forall g, g ∈ groups -> snd g <> []) ->
  sum_results (map (fun e => wasted_in (snd e)) groups) =
  Ok (sum_Z (map (fun e => wasted_of (snd e)) groups)).
Proof.
  induction groups as [|[h files] groups IH]; intros Hne; [done|].
  simpl. rewrite wasted_in_Ok by apply (Hne (h, files)), list_elem_of_here.
  rewrite IH; [done|]. intros g Hg. apply Hne. by right.
Qed.

Lemma found_groups_large directory min_size w (g : string * list file_info) :
  g ∈ find_duplicate_files_by_content directory min_size w ->
  2 <= length (snd g).
Proof.
  destruct g as [h files]. intros [_ Hlen]%duplicate_group_entry. simpl. lia.
Qed.

Lemma found_groups_nonempty directory min_size w
    (g : string * list file_info) :
  g ∈ find_duplicate_files_by_content directory min_size w -> snd g <> [].
Proof.
  intros Hg%found_groups_large. destruct (snd g); simpl in *; [lia|done].
Qed.





Lemma member_retained directory min_size w h (g : list file_info) m :
  (h, g) ∈ find_duplicate_files_by_content directory min_size w -> m ∈ g ->
  size_bytes m = get_file_size (path m) w /\
  (min_size <= Z.of_N (size_bytes m))%Z /\
  get_file_hash (path m) w = h /\ h <> "".
Proof.
  intros Hg Hm.
  destruct (duplicate_member _ _ _ _ _ _ Hg Hm) as (Hitem & Hhash & Hne).
  apply hashing_order_In in Hitem as (_ & Hret & Hsz & _).
  unfold retained in Hret. apply andb_true_iff in Hret as [_ Hmin].
  apply Z.leb_le in Hmin. rewrite <- Hsz in Hmin. done.
Qed.

Lemma group_sizes_uniform directory min_size w h (g : list file_info) :
  sizes_match_content w -> collision_free ->
  (h, g) ∈ find_duplicate_files_by_content directory min_size w ->
  forall m1 m2, m1 ∈ g -> m2 ∈ g -> size_bytes m1 = size_bytes m2.
Proof.
  intros Hsizes Hfree Hg m1 m2 H1 H2.
  destruct (member_retained _ _ _ _ _ _ Hg H1) as (-> & _ & Hh1 & Hne).
  destruct (member_retained _ _ _ _ _ _ Hg H2) as (-> & _ & Hh2 & _).
  apply same_size_of_same_hash; try done; congruence.
Qed.

Lemma sum_N_flat_map_le {A B} (f : B -> N) (g : A -> N)
    (k : A -> list B) (l : list A) :
  (forall x, (sum_N (map f (k x)) <= g x)%N) ->
  (sum_N (map f (flat_map k l)) <= sum_N (map g l))%N.
Proof.
  intros Hk. induction l as [|x l IH]; simpl; [done|].
  rewrite map_app, sum_N_app. specialize (Hk x).
  unfold sum_N in *. simpl. lia.
Qed.

(** The members of the groups are walked files that are not links, each
    listed as often as the walk meets it: together they weigh no more than
    the directory. *)
Lemma members_within_directory directory min_size w :
  (sum_N (map size_bytes
            (all_members
               (find_duplicate_files_by_content directory min_size w)))
   <= get_directory_size directory w)%N.
Proof.
  unfold all_members. rewrite concat_items_flat.
  unfold find_duplicate_files_by_content. rewrite find_duplicates_unfold.
  simpl.
  set (items := items_flat (find_duplicate_files_by_size directory min_size w)).
  set (hp := hash_pairs w items).
  rewrite (items_flat_more_than_one hp)
    by apply (grouped_group_by _ [] []), grouped_nil.
  rewrite map_map.
  etransitivity; [apply sum_N_filter_le|].
  rewrite (sum_N_perm _ _ (Permutation_map _ (items_flat_group_by hp []))).
  simpl. unfold hp, hash_pairs.
  etransitivity.
  { apply (sum_N_flat_map_le _ fst). intros sp.
    destruct (String.eqb _ ""); unfold sum_N; simpl; lia. }
  unfold items.
  rewrite (sum_N_perm _ _
             (Permutation_map _ (hashing_order_perm directory min_size w))).
  simpl. etransitivity; [apply sum_N_filter_le|].
  unfold candidates. etransitivity.
  { apply (sum_N_flat_map_le _
             (fun p => if retained min_size w p then get_file_size p w
                       else 0%N)).
    intros p. destruct (retained min_size w p); unfold sum_N; simpl; lia. }
  rewrite get_directory_size_sum. unfold non_links. clear.
  induction (os_walk directory w) as [|p l IH]; [done|]. simpl.
  unfold retained at 1.
  destruct (os_path_islink p w); simpl; unfold sum_N in *; simpl in *;
    [lia|].
  destruct (min_size <=? Z.of_N (get_file_size p w))%Z; lia.
Qed.

Lemma wasted_uniform (files : list file_info) :
  (forall m1 m2, m1 ∈ files -> m2 ∈ files -> size_bytes m1 = size_bytes m2) ->
  (wasted_of files + head_size files =
   Z.of_N (sum_N (map size_bytes files)))%Z.
Proof.
  intros Hu. unfold wasted_of, head_size.
  destruct files as [|x files]; [done|].
  assert (Hall : forall m, m ∈ files -> size_bytes m = size_bytes x).
  { intros m Hm. apply Hu; [by right|by left]. }
  clear Hu. simpl length.
  assert (Hsum : Z.of_N (sum_N (map size_bytes files)) =
                 (Z.of_nat (length files) * Z.of_N (size_bytes x))%Z).
  { induction files as [|y files IH]; [done|].
    simpl. unfold sum_N in *. simpl.
    rewrite N2Z.inj_add, IH by (intros m Hm; apply Hall; by right).
    rewrite (Hall y) by by left. lia. }
  simpl. unfold sum_N in *. simpl. rewrite N2Z.inj_add, Hsum. lia.
Qed.

Lemma sum_members groups :
  Z.of_N (sum_N (map size_bytes (all_members groups))) =
  sum_Z (map (fun e => Z.of_N (sum_N (map size_bytes (snd e)))) groups).
Proof.
  unfold all_members, sum_Z.
  induction groups as [|[h files] groups IH]; [done|].
  simpl. rewrite map_app, sum_N_app, N2Z.inj_add, IH. done.
Qed.

(** X18.  The wasted space [analyze_duplicate_files] reports is, for every
    group, the number of members beyond the first times the size recorded
    for the first member.  It is at least [min_size] for every duplicate
    file.  The members of all groups together weigh no more than
    [get_directory_size] reports; when the digest has no collisions (and
    sizes are content lengths) the members of a group have one size, the
    wasted space is the weight of all members but one per group, and so it
    is at most the size of the directory. *)
Theorem wasted_space_bounds directory min_size w :
  exists a,
    analyze_duplicate_files directory min_size w = Ok a /\
    total_wasted_space_bytes a =
      sum_Z (map (fun e => wasted_of (snd e)) (a_duplicates a)) /\
    (min_size * total_duplicate_files a <= total_wasted_space_bytes a)%Z /\
    (sum_N (map size_bytes (all_members (a_duplicates a)))
     <= get_directory_size directory w)%N /\
    (sizes_match_content w -> collision_free ->
     (total_wasted_space_bytes a
      + sum_Z (map (fun e => head_size (snd e)) (a_duplicates a)) =
      Z.of_N (sum_N (map size_bytes (all_members (a_duplicates a)))))%Z /\
     (total_wasted_space_bytes a
      <= Z.of_N (get_directory_size directory w))%Z).
Proof.
  unfold analyze_duplicate_files.
  set (groups := find_duplicate_files_by_content directory min_size w).
  rewrite sum_results_Ok by apply found_groups_nonempty.
  eexists. split; [done|]. simpl. split; [done|].
  fold (sum_Z (map (fun e => (Z.of_nat (length (snd e)) - 1)%Z) groups)).
  assert (Hbelow :
    (min_size * sum_Z (map (fun e => (Z.of_nat (length (snd e)) - 1)%Z) groups)
     <= sum_Z (map (fun e => wasted_of (snd e)) groups))%Z).
  { assert (Hin : forall g, g ∈ groups -> g ∈ groups) by done.
    revert Hin. generalize groups at 1 3 4. intros gs.
    unfold sum_Z. induction gs as [|[h files] gs IH]; intros Hin.
    { simpl. lia. }
    simpl. specialize (IH (fun g Hg => Hin g ltac:(by right))).
    pose proof (Hin (h, files) ltac:(by left)) as Hg.
    pose proof (found_groups_large _ _ _ _ Hg) as Hlen. simpl in Hlen.
    assert (Hhead : (min_size <= head_size files)%Z).
    { destruct files as [|x files]; [simpl in Hlen; lia|]. simpl.
      by destruct (member_retained _ _ _ _ _ x Hg ltac:(by left))
        as (_ & ? & _). }
    unfold wasted_of at 1. rewrite Z.mul_add_distr_l.
    assert ((min_size * (Z.of_nat (length files) - 1)
             <= (Z.of_nat (length files) - 1) * head_size files)%Z).
    { rewrite (Z.mul_comm min_size).
      apply Z.mul_le_mono_nonneg_l; [lia|done]. }
    lia. }
  split; [done|].
  split; [apply members_within_directory|].
  intros Hsizes Hfree.
  assert (Heq :
    (sum_Z (map (fun e => wasted_of (snd e)) groups)
     + sum_Z (map (fun e => head_size (snd e)) groups) =
     Z.of_N (sum_N (map size_bytes (all_members groups))))%Z).
  { rewrite sum_members.
    assert (Hin : forall g, g ∈ groups -> g ∈ groups) by done.
    revert Hin. generalize groups at 1 3 4 5. intros gs.
    unfold sum_Z. induction gs as [|[h files] gs IH]; intros Hin; [done|].
    simpl. specialize (IH (fun g Hg => Hin g ltac:(by right))).
    pose proof (Hin (h, files) ltac:(by left)) as Hg.
    pose proof (wasted_uniform files
                  (group_sizes_uniform _ _ _ _ _ Hsizes Hfree Hg)).
    lia. }
  split; [done|].
  pose proof (members_within_directory directory min_size w) as Hle.
  fold groups in Hle.
  assert (0 <= sum_Z (map (fun e => head_size (snd e)) groups))%Z.
  { clear. unfold sum_Z. induction groups as [|[h files] gs IH]; [done|].
    simpl. unfold head_size at 1. destruct files; lia. }
  lia.
Qed.
End StatisticsFacts.

Section SetFacts.
Context {W : Type} `{!OS W}.
Implicit Types (w : W) (groups : list (string * list file_info)).

Lemma collect_sets_Ok groups :
  (forall g, g ∈ groups -> snd g <> []) ->
  collect_sets groups = Ok (map set_record groups).
Proof.
  induction groups as [|[h files] groups IH]; intros Hne; [done|].
  simpl. pose proof (Hne (h, files) ltac:(by left)) as Hf. simpl in Hf.
  destruct files as [|x files]; [done|].
  unfold duplicate_set_of. simpl.
  rewrite IH by (intros g Hg; apply Hne; by right). done.
Qed.

Lemma slice_to_firstn {A} (limit : Z) (l : list A) :
  slice_to limit l = firstn (slice_length limit (length l)) l.
Proof.
  unfold slice_to, slice_length. destruct (0 <=? limit)%Z; [|done].
  destruct (Nat.le_ge_cases (Z.to_nat limit) (length l)).
  - by rewrite Nat.min_l.
  - rewrite Nat.min_r by done. by rewrite !firstn_all2.
Qed.



Lemma sum_Z_app (l l' : list Z) : sum_Z (l ++ l') = (sum_Z l + sum_Z l')%Z.
Proof.
  unfold sum_Z. induction l as [|x l IH]; simpl; [done|]. rewrite IH. lia.
Qed.

Lemma sum_Z_perm (l l' : list Z) : l ≡ₚ l' -> sum_Z l = sum_Z l'.
Proof. unfold sum_Z. induction 1; simpl; lia. Qed.

Lemma wasted_of_nonneg (files : list file_info) : (0 <= wasted_of files)%Z.
Proof.
  unfold wasted_of, head_size. destruct files as [|x files]; simpl length.
  - lia.
  - nia.
Qed.

(** What [get_duplicate_sets] computes: the records of the groups, sorted,
    then cut. *)
Lemma get_duplicate_sets_unfold directory min_size limit w :
  let groups := find_duplicate_files_by_content directory min_size w in
  let sorted :=
    map snd
      (sort_desc (map (fun x => (ds_wasted_space_bytes x, x))
                      (map set_record groups))) in
  get_duplicate_sets directory min_size limit w =
    Ok (firstn (slice_length limit (length groups)) sorted) /\
  sorted ≡ₚ map set_record groups /\
  StronglySorted
    (fun a b => (ds_wasted_space_bytes b <= ds_wasted_space_bytes a)%Z)
    sorted /\
  (forall t,
     List.filter (fun x => (ds_wasted_space_bytes x =? t)%Z) sorted =
     List.filter (fun x => (ds_wasted_space_bytes x =? t)%Z)
                 (map set_record groups)).
Proof.
  intros groups sorted. unfold get_duplicate_sets. fold groups.
  rewrite collect_sets_Ok by apply found_groups_nonempty.
  fold sorted. rewrite slice_to_firstn.
  pose proof (sorted_by_perm ds_wasted_space_bytes (map set_record groups))
    as Hperm.
  fold sorted in Hperm. split.
  - by rewrite (Permutation_length Hperm), length_map.
  - split; [done|]. split.
    + apply sorted_by_sorted.
    + intros t. apply sorted_by_stable.
Qed.


(** X20.  The sets [get_duplicate_sets] returns waste no more than
    [analyze_duplicate_files] reports in total.  When [limit] is at least
    the number of groups, every group is returned, the wasted space of the
    sets adds up to that total, and groups that waste the same keep the
    order in which the detection lists them. *)
Theorem duplicate_sets_total directory min_size limit w :
  exists sets a,
    get_duplicate_sets directory min_size limit w = Ok sets /\
    analyze_duplicate_files directory min_size w = Ok a /\
    (sum_Z (map ds_wasted_space_bytes sets) <= total_wasted_space_bytes a)%Z /\
    ((Z.of_nat (total_duplicate_sets a) <= limit)%Z ->
     length sets = total_duplicate_sets a /\
     sets ≡ₚ map set_record (a_duplicates a) /\
     sum_Z (map ds_wasted_space_bytes sets) = total_wasted_space_bytes a /\
     forall t,
       List.filter (fun x => (ds_wasted_space_bytes x =? t)%Z) sets =
       List.filter (fun x => (ds_wasted_space_bytes x =? t)%Z)
                   (map set_record (a_duplicates a))).
Proof.
  destruct (get_duplicate_sets_unfold directory min_size limit w)
    as (Hrun & Hperm & Hsorted & Hstable).
  unfold analyze_duplicate_files.
  set (groups := find_duplicate_files_by_content directory min_size w) in *.
  rewrite sum_results_Ok by apply found_groups_nonempty.
  set (sorted := map snd _) in *.
  set (k := slice_length limit (length groups)) in *.
  eexists _, _. split; [exact Hrun|]. split; [done|]. simpl.
  assert (Htotal : sum_Z (map ds_wasted_space_bytes sorted) =
                   sum_Z (map (fun e => wasted_of (snd e)) groups)).
  { rewrite (sum_Z_perm _ _ (Permutation_map _ Hperm)).
    by rewrite map_map. }
  assert (Hlen : length sorted = length groups).
  { by rewrite (Permutation_length Hperm), length_map. }
  split.
  - rewrite <- Htotal. rewrite <- (firstn_skipn k sorted) at 2.
    rewrite map_app, sum_Z_app.
    assert (0 <= sum_Z (map ds_wasted_space_bytes (skipn k sorted)))%Z;
      [|lia].
    assert (Hall : forall x, x ∈ skipn k sorted ->
                             (0 <= ds_wasted_space_bytes x)%Z).
    { intros x Hx.
      assert (Hin : x ∈ map set_record groups).
      { rewrite <- Hperm, <- (firstn_skipn k sorted). apply elem_of_app.
        by right. }
      apply list_elem_of_fmap in Hin as (g & -> & _). simpl.
      apply wasted_of_nonneg. }
    clear - Hall. unfold sum_Z.
    induction (skipn k sorted) as [|x l IH]; [done|]. simpl.
    pose proof (Hall x ltac:(by left)).
    assert (0 <= fold_right Z.add 0 (map ds_wasted_space_bytes l))%Z.
    { apply IH. intros y Hy. apply Hall. by right. }
    lia.
  - intros Hlimit.
    assert (Hk : k = length groups).
    { unfold k, slice_length. destruct (Z.leb_spec 0 limit); lia. }
    rewrite Hk, <- Hlen, firstn_all.
    split; [done|]. split; [done|]. split; [done|]. exact Hstable.
Qed.
End SetFacts.

(* ===================================================================== *)
(** * From the analysis to the consolidation *)
(* ===================================================================== *)

Section AnalysisToConsolidation.
Context {W C : Type} `{!OS W}.
Implicit Types (w : W) (st : state W C)
  (groups : list (string * list file_info)).

(** A group that is processed gives a detail to each member but one. *)
Lemma group_body_part s keep_newest callback st (files : list file_info) st' :
  group_body s keep_newest callback st files = Ok st' ->
  exists part,
    ((files = [] /\ part = []) \/ exists sv, files ≡ₚ sv :: part) /\
    processes (policy s) callback part st st'.
Proof.
  intros Hb.
  assert (Hsorted : exists sorted,
            files_sorted files (world st) = Ok sorted /\
            (s = Delete \/ files <> [])).
  { destruct s; simpl in Hb; unfold clean_group, link_group in Hb;
      destruct (files_sorted files (world st)) as [sorted|] eqn:Hs;
      try done; exists sorted; (split; [done|]); [by left| |];
      right; intros ->;
      destruct (sorted_split _ _ keep_newest _ Hs) as [Hp _];
      apply Permutation_nil_r in Hp; subst sorted;
      by destruct keep_newest. }
  destruct Hsorted as (sorted & Hs & Hne).
  destruct (group_body_processes s keep_newest callback st files sorted
              Hs Hne) as (st'' & Hb' & Hp).
  rewrite Hb in Hb'. injection Hb' as <-.
  exists (files_to_remove keep_newest sorted). split; [|done].
  destruct (sorted_split _ _ keep_newest _ Hs) as [Hperm Hsv].
  destruct files as [|x files].
  - left. split; [done|]. apply Permutation_nil_r in Hperm. subst sorted.
    by destruct keep_newest.
  - right. destruct (Hsv ltac:(done)) as (sv & Hsplit & _). exists sv.
    rewrite <- Hperm. destruct keep_newest.
    + by rewrite Hsplit at 1.
    + rewrite Hsplit at 1. by rewrite Permutation_app_comm.
Qed.

Lemma for_each_group_parts s keep_newest callback groups st st' :
  for_each_group (group_body s keep_newest callback) groups st = (None, st') ->
  exists parts,
    Forall2 (fun g part =>
               (snd g = [] /\ part = []) \/ exists sv, snd g ≡ₚ sv :: part)
            groups parts /\
    processes (policy s) callback (concat parts) st st'.
Proof.
  revert st. induction groups as [|[h files] groups IH]; intros st; simpl.
  - intros [= <-]. exists []. split; [constructor|apply processes_nil].
  - destruct (group_body s keep_newest callback st files) as [st1|e] eqn:Hb;
      [|done].
    intros Hrun. destruct (group_body_part _ _ _ _ _ _ Hb) as (part & Hp & H1).
    destruct (IH st1 Hrun) as (parts & Hall & H2).
    exists (part :: parts). split; [by constructor|].
    simpl. by apply (processes_app _ _ _ _ _ st1).
Qed.

Lemma sum_sizes_successes_le (ds : list detail) :
  (sum_sizes (successes ds) <= sum_sizes ds)%N.
Proof.
  unfold successes, sum_sizes. induction ds as [|d ds IH]; simpl; [done|].
  destruct (d_success d); simpl; lia.
Qed.

Lemma successes_all (ds : list detail) :
  Forall (fun d => d_success d = true) ds -> successes ds = ds.
Proof.
  unfold successes. induction 1 as [|d ds Hd _ IH]; simpl; [done|].
  by rewrite Hd, IH.
Qed.

Lemma sum_sizes_members (ds : list detail) (members : list file_info) :
  Forall2 (fun d fi => d_target d = path fi /\
                       d_size_bytes d = size_bytes fi /\
                       d_size d = size fi) ds members ->
  sum_sizes ds = sum_N (map size_bytes members).
Proof.
  unfold sum_sizes, sum_N.
  induction 1 as [|d fi ds members (_ & Hsz & _) _ IH]; simpl; [done|].
  by rewrite Hsz, IH.
Qed.

Lemma part_weight (files part : list file_info) :
  (forall m1 m2, m1 ∈ files -> m2 ∈ files -> size_bytes m1 = size_bytes m2) ->
  ((files = [] /\ part = []) \/ exists sv, files ≡ₚ sv :: part) ->
  Z.of_N (sum_N (map size_bytes part)) = wasted_of files.
Proof.
  intros Hu [[-> ->]|[sv Hperm]]; [done|].
  pose proof (wasted_uniform files Hu) as Hw.
  rewrite (sum_N_perm _ _ (Permutation_map size_bytes Hperm)) in Hw.
  simpl in Hw. unfold sum_N in Hw |- *. simpl in Hw.
  assert (Hhead : head_size files = Z.of_N (size_bytes sv)).
  { destruct files as [|x files].
    - by apply Permutation_nil_cons in Hperm.
    - simpl. f_equal. apply Hu; [by left|]. rewrite Hperm. by left. }
  rewrite Hhead in Hw. lia.
Qed.

Lemma parts_length groups (parts : list (list file_info)) :
  (forall g, g ∈ groups -> snd g <> []) ->
  Forall2 (fun g part =>
             (snd g = [] /\ part = []) \/ exists sv, snd g ≡ₚ sv :: part)
          groups parts ->
  Z.of_nat (length (concat parts)) =
  sum_Z (map (fun e => (Z.of_nat (length (snd e)) - 1)%Z) groups).
Proof.
  intros Hne Hparts.
  induction Hparts as [|g part gs parts Hg _ IH]; [done|].
  simpl. rewrite length_app, Nat2Z.inj_add.
  rewrite IH by (intros g' Hg'; apply Hne; by right).
  unfold sum_Z. simpl.
  destruct Hg as [[Hnil _]|[sv Hperm]].
  - by destruct (Hne g ltac:(by left)).
  - rewrite (Permutation_length Hperm). simpl. lia.
Qed.

Lemma parts_weight groups (parts : list (list file_info)) :
  (forall g, g ∈ groups ->
     forall m1 m2, m1 ∈ snd g -> m2 ∈ snd g -> size_bytes m1 = size_bytes m2) ->
  Forall2 (fun g part =>
             (snd g = [] /\ part = []) \/ exists sv, snd g ≡ₚ sv :: part)
          groups parts ->
  Z.of_N (sum_N (map size_bytes (concat parts))) =
  sum_Z (map (fun e => wasted_of (snd e)) groups).
Proof.
  intros Hu Hparts.
  induction Hparts as [|g part gs parts Hg _ IH]; [done|].
  simpl. rewrite map_app, sum_N_app, N2Z.inj_add.
  rewrite IH by (intros g' Hg'; apply Hu; by right).
  unfold sum_Z. simpl. f_equal. apply part_weight; [|done].
  apply Hu. by left.
Qed.

(** X21.  The consolidation of the groups an analysis found (the menu
    analyses first and hands [result["duplicates"]] over): whichever
    strategy runs, when it returns it has given a detail to as many members
    as the analysis counted duplicate files, so its count of successes is
    at most that number.  When the digest has no collisions the bytes it
    reports are at most the wasted space of the analysis, and equal to it
    when every member was processed successfully. *)
Theorem consolidation_matches_analysis s directory min_size keep_newest
    callback (w : W) (c : C) :
  exists a,
    analyze_duplicate_files directory min_size w = Ok a /\
    forall r,
      returned (run_strategy s directory (Some (a_duplicates a))
                             keep_newest callback w c) = Ok r ->
      Z.of_nat (length (details r)) = total_duplicate_files a /\
      (Z.of_nat (total_count r) <= total_duplicate_files a)%Z /\
      (sizes_match_content w -> collision_free ->
       (Z.of_N (total_size_bytes r) <= total_wasted_space_bytes a)%Z /\
       (Forall (fun d => d_success d = true) (details r) ->
        Z.of_N (total_size_bytes r) = total_wasted_space_bytes a)).
Proof.
  unfold analyze_duplicate_files.
  set (groups := find_duplicate_files_by_content directory min_size w).
  rewrite sum_results_Ok by apply found_groups_nonempty.
  eexists. split; [done|]. simpl. intros r.
  rewrite run_strategy_unfold. unfold consolidate. simpl.
  set (st0 := State w [] c _).
  destruct (for_each_group _ groups st0) as [[e|] st'] eqn:Hrun;
    simpl; [done|].
  intros [= <-]. simpl.
  destruct (for_each_group_parts _ _ _ _ _ _ Hrun)
    as (parts & Hparts & ds & chunks & _ & Hmem & _ & Hres & _).
  rewrite Hres, fold_push_details, fold_push_count, fold_push_bytes. simpl.
  pose proof (parts_length _ _
                (found_groups_nonempty directory min_size w) Hparts) as Hlen.
  unfold sum_Z in Hlen. fold groups in Hlen.
  rewrite (Forall2_length _ _ _ Hmem), Hlen.
  split; [done|]. split.
  { pose proof (List.filter_length_le d_success ds) as Hle.
    rewrite <- Hlen, <- (Forall2_length _ _ _ Hmem). unfold successes. lia. }
  intros Hsizes Hfree.
  assert (Hweight : Z.of_N (sum_sizes ds) =
                    sum_Z (map (fun e => wasted_of (snd e)) groups)).
  { rewrite (sum_sizes_members _ _ Hmem). apply parts_weight; [|done].
    intros [h files] Hg.
    by apply (group_sizes_uniform directory min_size w h). }
  split.
  - rewrite <- Hweight. pose proof (sum_sizes_successes_le ds). lia.
  - intros Hall. by rewrite (successes_all _ Hall).
Qed.
End AnalysisToConsolidation.

(* ===================================================================== *)
(** * The three strategies on the file system *)
(* ===================================================================== *)

Section FileSystemCalls.
Implicit Types (w : FS.t) (p : string).

Lemma only_nodes_differ_refl w : only_nodes_differ w w.
Proof. by destruct w. Qed.

Lemma only_nodes_differ_set m w : only_nodes_differ w (FS.set_nodes m w).
Proof. done. Qed.

Lemma only_nodes_differ_trans w1 w2 w3 :
  only_nodes_differ w1 w2 -> only_nodes_differ w2 w3 ->
  only_nodes_differ w1 w3.
Proof. unfold only_nodes_differ. intros -> ->. done. Qed.

Lemma only_nodes_differ_frame w w' :
  only_nodes_differ w w' ->
  FS.cwd w' = FS.cwd w /\ FS.protected w' = FS.protected w /\
  FS.device w' = FS.device w /\ FS.enumeration w' = FS.enumeration w /\
  FS.trash_available w' = FS.trash_available w.
Proof. unfold only_nodes_differ. by intros ->. Qed.

Lemma remove_cases p w e w' :
  FS.remove p w = (e, w') ->
  let key := FS.abspath p w in
  (e = None /\ FS.nodes w !! key <> None /\ (key ∉ FS.protected w) /\
   w' = FS.set_nodes (delete key (FS.nodes w)) w) \/
  (exists msg, e = Some msg /\ w' = w /\
     (FS.nodes w !! key = None \/ key ∈ FS.protected w)).
Proof.
  intros Hr key. unfold FS.remove in Hr. fold key in Hr.
  destruct (FS.nodes w !! key) eqn:Hn.
  - case_bool_decide.
    + injection Hr as <- <-. right. eexists. by repeat split; [..|right].
    + injection Hr as <- <-. left. by repeat split.
  - injection Hr as <- <-. right. eexists. by repeat split; [..|left].
Qed.

Lemma trash_cases p w e w' :
  FS.trash p w = (e, w') ->
  let key := FS.abspath p w in
  (e = None /\ FS.nodes w !! key <> None /\ (key ∉ FS.protected w) /\
   w' = FS.set_nodes (delete key (FS.nodes w)) w) \/
  (exists msg, e = Some msg /\ w' = w).
Proof.
  intros Ht key. unfold FS.trash in Ht.
  destruct (FS.trash_available w).
  - apply remove_cases in Ht as [?|(msg & ? & ? & _)]; [by left|].
    right. by exists msg.
  - injection Ht as <- <-. right. by eexists.
Qed.

Lemma link_cases source target w e w' :
  FS.link source target w = (e, w') ->
  let skey := FS.abspath source w in
  let tkey := FS.abspath target w in
  (e = None /\
   exists n, FS.nodes w !! skey = Some n /\
             w' = FS.set_nodes (<[tkey := n]> (FS.nodes w)) w) \/
  (exists msg, e = Some msg /\ w' = w /\
     (FS.nodes w !! skey = None \/ FS.nodes w !! tkey <> None \/
      tkey ∈ FS.protected w \/ FS.device w skey <> FS.device w tkey)).
Proof.
  intros Hl skey tkey. unfold FS.link in Hl. fold skey tkey in Hl.
  destruct (FS.nodes w !! skey) as [n|] eqn:Hs.
  - destruct (FS.nodes w !! tkey) as [m|] eqn:Ht.
    + injection Hl as <- <-. right. eexists. repeat split; try done.
      right. left. done.
    + case_bool_decide.
      * injection Hl as <- <-. right. eexists. repeat split; try done.
        right. right. by left.
      * destruct (Nat.eqb_spec (FS.device w skey) (FS.device w tkey));
          simpl in Hl; injection Hl as <- <-.
        -- left. split; [done|]. by exists n.
        -- right. eexists. repeat split; try done. by repeat right.
  - injection Hl as <- <-. right. eexists. repeat split; try done. by left.
Qed.

Lemma symlink_cases link_target target w e w' :
  FS.symlink link_target target w = (e, w') ->
  let tkey := FS.abspath target w in
  (e = None /\
   w' = FS.set_nodes (<[tkey := FS.SymbolicLink link_target]> (FS.nodes w)) w)
  \/
  (exists msg, e = Some msg /\ w' = w /\
     (FS.nodes w !! tkey <> None \/ tkey ∈ FS.protected w)).
Proof.
  intros Hl tkey. unfold FS.symlink in Hl. fold tkey in Hl.
  destruct (FS.nodes w !! tkey) as [m|] eqn:Ht.
  - injection Hl as <- <-. right. eexists. repeat split; try done. by left.
  - case_bool_decide.
    + injection Hl as <- <-. right. eexists. repeat split; try done.
      by right.
    + injection Hl as <- <-. by left.
Qed.

Lemma same_off_delete key w :
  same_off [key] w (FS.set_nodes (delete key (FS.nodes w)) w).
Proof.
  split; [done|]. intros k Hk. simpl. apply lookup_delete_ne.
  intros ->. apply Hk. by left.
Qed.

Lemma same_off_insert key n w :
  same_off [key] w (FS.set_nodes (<[key := n]> (FS.nodes w)) w).
Proof.
  split; [done|]. intros k Hk. simpl. apply lookup_insert_ne.
  intros ->. apply Hk. by left.
Qed.

Lemma same_off_twice key w1 w2 w3 :
  same_off [key] w1 w2 -> same_off [key] w2 w3 -> same_off [key] w1 w3.
Proof.
  intros H1 H2. apply (same_off_weaken ([key] ++ [key])).
  - intros k [Hk|Hk]%elem_of_app; done.
  - by apply (same_off_trans _ _ _ w2).
Qed.
End FileSystemCalls.

Section StrategyOnFS.
Context {C : Type} (digest : string -> string).
Implicit Types (w : FS.t) (st : state FS.t C) (fi : file_info)
  (callback : option (string -> C -> C)).

(** One member, under any strategy. *)
Lemma member_fs s callback source st fi :
  let st' := member_of digest s callback source st fi in
  let key := FS.abspath (path fi) (world st) in
  only_nodes_differ (world st) (world st') /\
  same_off [key] (world st) (world st') /\
  exists d chunk,
    details (res st') = details (res st) ++ [d] /\
    calls st' = calls st ++ chunk /\
    d_target d = path fi /\
    (s <> Delete -> d_source d = Some source) /\
    effect s (world st) source d chunk (FS.nodes (world st') !! key).
Proof.
  intros st' key. subst st'. destruct s; simpl.
  - (* delete *)
    unfold delete_member. simpl.
    destruct (FS.trash (path fi) (world st)) as [e1 w1] eqn:Ht.
    apply trash_cases in Ht as [(-> & Hex & Hpr & ->)|(msg1 & -> & ->)];
      simpl.
    { fold key. split; [apply only_nodes_differ_set|].
      split; [apply same_off_delete|].
      eexists _, _. repeat split; try done. simpl. fold key.
      by rewrite lookup_delete_eq. }
    destruct (FS.remove (path fi) (world st)) as [e2 w2] eqn:Hr.
    apply remove_cases in Hr
      as [(-> & Hex & Hpr & ->)|(msg2 & -> & -> & Hwhy)]; simpl.
    + fold key. split; [apply only_nodes_differ_set|].
      split; [apply same_off_delete|].
      eexists _, _. repeat split; try done.
      * by rewrite <- app_assoc.
      * simpl. fold key. by rewrite lookup_delete_eq.
    + split; [apply only_nodes_differ_refl|].
      split; [apply same_off_refl|].
      eexists _, _. repeat split; try done. by rewrite <- app_assoc.
  - (* hard link *)
    unfold hardlink_member. simpl.
    destruct (FS.remove (path fi) (world st)) as [e1 w1] eqn:Hr.
    apply remove_cases in Hr
      as [(-> & Hex & Hpr & ->)|(msg1 & -> & -> & Hwhy)]; simpl.
    2:{ split; [apply only_nodes_differ_refl|].
        split; [apply same_off_refl|].
        eexists _, _. repeat split; try done. simpl. left.
        repeat split; try done. by eexists. }
    fold key. set (w1 := FS.set_nodes (delete key (FS.nodes (world st))) _).
    destruct (FS.link source (path fi) w1) as [e2 w2] eqn:Hl.
    apply link_cases in Hl as [(-> & n & Hn & ->)|(msg2 & -> & -> & Hwhy)];
      simpl.
    + change (FS.abspath (path fi) w1) with key.
      change (FS.abspath source w1) with (FS.abspath source (world st)) in Hn.
      set (skey := FS.abspath source (world st)) in *.
      assert (Hne : skey <> key).
      { intros Heq. rewrite Heq in Hn. simpl in Hn.
        by rewrite lookup_delete_eq in Hn. }
      simpl in Hn. rewrite lookup_delete_ne in Hn by done.
      split; [done|]. split.
      { apply (same_off_twice _ _ w1); [apply same_off_delete|].
        apply same_off_insert. }
      eexists _, _. repeat split; try done.
      * by rewrite <- app_assoc.
      * simpl. fold key skey. rewrite lookup_insert_eq. by rewrite Hn.
      * simpl. fold key skey. by rewrite lookup_insert_eq.
    + split; [done|]. split; [apply same_off_delete|].
      eexists _, _. repeat split; try done; [by rewrite <- app_assoc|].
      simpl. fold key. right. rewrite lookup_delete_eq.
      repeat split; try done; [|by eexists].
      change (FS.abspath (path fi) w1) with key in Hwhy.
      change (FS.abspath source w1) with (FS.abspath source (world st))
        in Hwhy.
      set (skey := FS.abspath source (world st)) in *.
      destruct (decide (skey = key)) as [Heq|Hne]; [by right; left|].
      destruct Hwhy as [Hs|[Ht|[Hp|Hd]]].
      * left. simpl in Hs. by rewrite lookup_delete_ne in Hs.
      * simpl in Ht. by rewrite lookup_delete_eq in Ht.
      * done.
      * by repeat right.
  - (* symbolic link *)
    unfold symlink_member. simpl.
    destruct (FS.remove (path fi) (world st)) as [e1 w1] eqn:Hr.
    apply remove_cases in Hr
      as [(-> & Hex & Hpr & ->)|(msg1 & -> & -> & Hwhy)]; simpl.
    2:{ split; [apply only_nodes_differ_refl|].
        split; [apply same_off_refl|].
        eexists _, _. repeat split; try done. by eexists. }
    fold key. set (w1 := FS.set_nodes (delete key (FS.nodes (world st))) _).
    change (FS.abspath source w1) with (FS.abspath source (world st)).
    set (skey := FS.abspath source (world st)).
    destruct (FS.symlink skey (path fi) w1) as [e2 w2] eqn:Hl.
    apply symlink_cases in Hl as [(-> & ->)|(msg2 & -> & -> & Hwhy)];
      simpl.
    + change (FS.abspath (path fi) w1) with key.
      split; [done|]. split.
      { apply (same_off_twice _ _ w1); [apply same_off_delete|].
        apply same_off_insert. }
      eexists _, _. repeat split; try done; [by rewrite <- app_assoc|].
      simpl. fold key skey. by rewrite lookup_insert_eq.
    + exfalso. change (FS.abspath (path fi) w1) with key in Hwhy.
      destruct Hwhy as [Ht|Hp]; [|done].
      simpl in Ht. by rewrite lookup_delete_eq in Ht.
Qed.

Lemma effect_transport s w0 wb source d chunk after :
  only_nodes_differ w0 wb ->
  FS.nodes wb !! FS.abspath (d_target d) w0 =
    FS.nodes w0 !! FS.abspath (d_target d) w0 ->
  (s <> Delete ->
   FS.nodes wb !! FS.abspath source w0 = FS.nodes w0 !! FS.abspath source w0) ->
  effect s wb source d chunk after -> effect s w0 source d chunk after.
Proof.
  intros (Hcwd & Hpr & Hdev & _)%only_nodes_differ_frame Hkey Hsrc.
  unfold effect. rewrite !(abspath_cwd _ _ _ Hcwd), Hpr, Hdev, Hkey.
  destruct s; try done; by rewrite Hsrc.
Qed.

(** The members of one group. *)
Lemma fold_fs s callback source members st :
  NoDup (member_keys (world st) members) ->
  (s <> Delete ->
   FS.abspath source (world st) ∉ member_keys (world st) members) ->
  let st' := fold_left (member_of digest s callback source) members st in
  only_nodes_differ (world st) (world st') /\
  same_off (member_keys (world st) members) (world st) (world st') /\
  exists ds,
    details (res st') = details (res st) ++ ds /\
    map d_target ds = map path members /\
    forall d, d ∈ ds ->
      FS.abspath (d_target d) (world st) ∈ member_keys (world st) members /\
      (s <> Delete -> d_source d = Some source) /\
      exists chunk,
        effect s (world st) source d chunk
               (FS.nodes (world st') !! FS.abspath (d_target d) (world st)).
Proof.
  revert st. induction members as [|fi l IH]; intros st Hnd Hsrc; simpl.
  - split; [apply only_nodes_differ_refl|]. split; [apply same_off_refl|].
    exists []. rewrite app_nil_r. split; [done|]. split; [done|].
    intros d Hd. inversion Hd.
  - simpl in Hnd. apply NoDup_cons in Hnd as [Hfi Hnd].
    destruct (member_fs s callback source st fi)
      as (Hfr1 & Hoff1 & d1 & chunk1 & Hd1 & _ & Ht1 & Hs1 & He1).
    set (st1 := member_of digest s callback source st fi) in *.
    pose proof (proj1 Hoff1) as Hcwd.
    assert (Hkeys : member_keys (world st1) l = member_keys (world st) l)
      by by apply member_keys_cwd.
    destruct (IH st1) as (Hfr2 & Hoff2 & ds & Hds & Hmap & Hall).
    { by rewrite Hkeys. }
    { intros Hs. rewrite Hkeys, (abspath_cwd _ _ _ Hcwd).
      intros Hin. apply (Hsrc Hs). by right. }
    rewrite Hkeys in Hoff2, Hall.
    split; [by apply (only_nodes_differ_trans _ (world st1))|].
    split; [apply (same_off_trans [_] _ _ _ _ Hoff1 Hoff2)|].
    exists (d1 :: ds). split.
    { rewrite Hds, Hd1. by rewrite <- app_assoc. }
    split; [simpl; by rewrite Ht1, Hmap|].
    intros d [->|Hd]%elem_of_cons.
    + rewrite Ht1. split; [by left|]. split; [done|]. exists chunk1.
      destruct Hoff2 as [_ Hn2]. rewrite Hn2 by done.
      unfold effect in He1 |- *. by rewrite Ht1 in He1 |- *.
    + destruct (Hall d Hd) as (Hin & Hs & chunk & He).
      rewrite (abspath_cwd _ _ _ Hcwd) in Hin, He.
      split; [by right|]. split; [done|]. exists chunk.
      apply (effect_transport s (world st) (world st1)); try done.
      * destruct Hoff1 as [_ Hn1]. apply Hn1.
        intros Heq%list_elem_of_singleton. by rewrite Heq in Hin.
      * intros Hs'. destruct Hoff1 as [_ Hn1]. apply Hn1.
        intros Heq%list_elem_of_singleton. apply (Hsrc Hs').
        rewrite Heq. by left.
Qed.

Lemma decorate_agree w w' (files : list file_info) :
  FS.cwd w' = FS.cwd w ->
  (forall fi, fi ∈ files ->
     is_regular w (path fi) /\
     FS.nodes w' !! FS.abspath (path fi) w =
       FS.nodes w !! FS.abspath (path fi) w) ->
  decorate (OS0 := FS.os digest) files w' =
  decorate (OS0 := FS.os digest) files w.
Proof.
  intros Hcwd. induction files as [|x files IH]; intros Hall; [done|].
  simpl. destruct (Hall x ltac:(by left))
    as ((data & mtime & readable & Hnode) & Hsame).
  unfold FS.getmtime.
  rewrite (stat_regular w _ _ _ _ Hnode).
  rewrite (stat_regular w' (path x) data mtime readable)
    by (by rewrite (abspath_cwd _ _ _ Hcwd), Hsame).
  rewrite IH; [done|]. intros fi Hfi. apply Hall. by right.
Qed.

Lemma doomed_agree keep_newest w w' (files : list file_info) :
  FS.cwd w' = FS.cwd w ->
  (forall fi, fi ∈ files ->
     is_regular w (path fi) /\
     FS.nodes w' !! FS.abspath (path fi) w =
       FS.nodes w !! FS.abspath (path fi) w) ->
  doomed digest keep_newest w' files = doomed digest keep_newest w files.
Proof.
  intros Hcwd Hall. unfold doomed, files_sorted.
  by rewrite (decorate_agree _ _ _ Hcwd Hall).
Qed.

Lemma doomed_sub keep_newest w (files : list file_info) fi :
  fi ∈ doomed digest keep_newest w files -> fi ∈ files.
Proof.
  unfold doomed.
  destruct (files_sorted (OS0 := FS.os digest) files w) as [sorted|] eqn:Hs;
    [|intros H; inversion H].
  destruct (sorted_split (OS0 := FS.os digest) _ _ keep_newest _ Hs)
    as [Hperm Hsv].
  intros Hin. rewrite <- Hperm. destruct files as [|x files].
  - apply Permutation_nil_r in Hperm. subst sorted.
    destruct keep_newest; inversion Hin.
  - destruct (Hsv ltac:(done)) as (sv & Hsplit & _). destruct keep_newest.
    + rewrite Hsplit. by right.
    + rewrite Hsplit. apply elem_of_app. by left.
Qed.

Lemma all_doomed_sub keep_newest w groups fi :
  fi ∈ all_doomed digest keep_newest w groups -> fi ∈ all_members groups.
Proof.
  unfold all_doomed, all_members.
  induction groups as [|[h files] groups IH]; simpl; [done|].
  intros [Hin|Hin]%elem_of_app; apply elem_of_app.
  - left. by apply (doomed_sub keep_newest w).
  - right. by apply IH.
Qed.

Lemma member_keys_sub w (l l' : list file_info) :
  (forall fi, fi ∈ l -> fi ∈ l') ->
  forall k, k ∈ member_keys w l -> k ∈ member_keys w l'.
Proof.
  intros Hsub k (fi & -> & Hfi)%list_elem_of_fmap.
  apply list_elem_of_fmap. exists fi. split; [done|]. by apply Hsub.
Qed.

(** How a group splits into its survivor and the members to process. *)
Lemma group_split keep_newest w (files sorted : list file_info) :
  files_sorted (OS0 := FS.os digest) files w = Ok sorted ->
  NoDup (member_keys w files) -> files <> [] ->
  exists sv,
    source_file keep_newest sorted = Ok (path sv) /\
    sv ∈ files /\
    NoDup (member_keys w (files_to_remove keep_newest sorted)) /\
    (FS.abspath (path sv) w
       ∉ member_keys w (files_to_remove keep_newest sorted)) /\
    (forall fi, fi ∈ files_to_remove keep_newest sorted -> fi ∈ files).
Proof.
  intros Hs Hnd Hne.
  destruct (sorted_split (OS0 := FS.os digest) _ _ keep_newest _ Hs)
    as [Hperm Hsv].
  destruct (Hsv Hne) as (sv & Hsplit & Hsrc). exists sv.
  split; [done|].
  assert (Hkperm : member_keys w sorted ≡ₚ member_keys w files).
  { unfold member_keys. by apply Permutation_map. }
  rewrite <- Hkperm in Hnd.
  set (rest := files_to_remove keep_newest sorted) in *.
  destruct keep_newest.
  - rewrite Hsplit in Hnd, Hperm. simpl in Hnd.
    apply NoDup_cons in Hnd as [Hx Hnd].
    split; [rewrite <- Hperm; by left|]. split; [done|]. split; [done|].
    intros fi Hfi. rewrite <- Hperm. by right.
  - rewrite Hsplit in Hnd, Hperm. unfold member_keys in Hnd.
    rewrite map_app in Hnd. apply NoDup_app in Hnd as (Hnd1 & Hdis & _).
    split; [rewrite <- Hperm; apply elem_of_app; right; by left|].
    split; [done|]. split.
    + intros Hin. apply (Hdis _ Hin). by left.
    + intros fi Hfi. rewrite <- Hperm. apply elem_of_app. by left.
Qed.

Lemma group_body_member_of s keep_newest callback st (files : list file_info) :
  group_body (OS0 := FS.os digest) s keep_newest callback st files =
  match files_sorted (OS0 := FS.os digest) files (world st) with
  | Raise e => Raise e
  | Ok sorted =>
      match s, source_file keep_newest sorted with
      | Delete, _ =>
          Ok (fold_left (member_of digest Delete callback "")
                        (files_to_remove keep_newest sorted) st)
      | _, Raise e => Raise e
      | _, Ok source =>
          Ok (fold_left (member_of digest s callback source)
                        (files_to_remove keep_newest sorted) st)
      end
  end.
Proof.
  destruct s; simpl; unfold clean_group, link_group;
    destruct (files_sorted files (world st)); try done;
    by destruct (source_file keep_newest l).
Qed.

(** One group of regular files, none listed twice. *)
Lemma group_fs s keep_newest callback st (files : list file_info) :
  NoDup (member_keys (world st) files) ->
  (forall fi, fi ∈ files -> is_regular (world st) (path fi)) ->
  match group_body (OS0 := FS.os digest) s keep_newest callback st files with
  | Raise e => s <> Delete /\ files = []
  | Ok st' =>
      only_nodes_differ (world st) (world st') /\
      same_off (member_keys (world st)
                            (doomed digest keep_newest (world st) files))
               (world st) (world st') /\
      exists ds,
        details (res st') = details (res st) ++ ds /\
        map d_target ds =
          map path (doomed digest keep_newest (world st) files) /\
        forall d, d ∈ ds ->
          exists source,
            FS.abspath (d_target d) (world st)
              ∈ member_keys (world st)
                            (doomed digest keep_newest (world st) files) /\
            (s <> Delete ->
             d_source d = Some source /\
             FS.abspath source (world st) ∈ member_keys (world st) files /\
             FS.abspath source (world st)
               ∉ member_keys (world st)
                             (doomed digest keep_newest (world st) files)) /\
            exists chunk,
              effect s (world st) source d chunk
                (FS.nodes (world st')
                   !! FS.abspath (d_target d) (world st))
  end.
Proof.
  intros Hnd Hreg. rewrite group_body_member_of. unfold doomed.
  destruct (decorate_regular digest (world st) files Hreg) as [l Hl].
  assert (Hsorted : files_sorted (OS0 := FS.os digest) files (world st)
                    = Ok (map snd (sort_desc l))).
  { unfold files_sorted. by rewrite Hl. }
  rewrite Hsorted. set (sorted := map snd (sort_desc l)) in *.
  destruct files as [|x files'] eqn:Hfiles.
  { destruct (sorted_split (OS0 := FS.os digest) _ _ keep_newest _ Hsorted)
      as [Hperm _].
    apply Permutation_nil_r in Hperm. rewrite Hperm.
    assert (Hrm : files_to_remove keep_newest (@nil file_info) = [])
      by by destruct keep_newest.
    assert (Hsrc : source_file keep_newest (@nil file_info)
                   = Raise IndexError) by by destruct keep_newest.
    rewrite Hrm, Hsrc. destruct s; simpl; try done.
    split; [apply only_nodes_differ_refl|]. split; [apply same_off_refl|].
    exists []. rewrite app_nil_r. split; [done|]. split; [done|].
    intros d Hd. inversion Hd. }
  rewrite <- Hfiles in *.
  destruct (group_split keep_newest (world st) files sorted Hsorted Hnd)
    as (sv & Hsrc & Hsv & Hnd' & Hnot & Hsub); [by rewrite Hfiles|].
  rewrite Hsrc. set (rest := files_to_remove keep_newest sorted) in *.
  assert (Hgoal : forall source,
    (s <> Delete -> source = path sv) ->
    let st' := fold_left (member_of digest s callback source) rest st in
    only_nodes_differ (world st) (world st') /\
    same_off (member_keys (world st) rest) (world st) (world st') /\
    exists ds,
      details (res st') = details (res st) ++ ds /\
      map d_target ds = map path rest /\
      forall d, d ∈ ds ->
        exists source,
          FS.abspath (d_target d) (world st) ∈ member_keys (world st) rest /\
          (s <> Delete ->
           d_source d = Some source /\
           FS.abspath source (world st) ∈ member_keys (world st) files /\
           FS.abspath source (world st) ∉ member_keys (world st) rest) /\
          exists chunk,
            effect s (world st) source d chunk
              (FS.nodes (world st') !! FS.abspath (d_target d) (world st))).
  { intros source Hsource.
    destruct (fold_fs s callback source rest st Hnd')
      as (Hfr & Hoff & ds & Hds & Hmap & Hall).
    { intros Hs. by rewrite (Hsource Hs). }
    split; [done|]. split; [done|]. exists ds. split; [done|].
    split; [done|].
    intros d Hd. destruct (Hall d Hd) as (Hin & Hs & chunk & He).
    exists source. split; [done|]. split; [|by exists chunk].
    intros Hs'. split; [by apply Hs|]. rewrite (Hsource Hs').
    split; [|done]. apply list_elem_of_fmap. by exists sv. }
  destruct s.
  - apply Hgoal. by intros [].
  - by apply Hgoal.
  - by apply Hgoal.
Qed.

Lemma member_keys_app w (l l' : list file_info) :
  member_keys w (l ++ l') = member_keys w l ++ member_keys w l'.
Proof. unfold member_keys. by rewrite map_app. Qed.

Lemma all_doomed_agree keep_newest w w' groups :
  FS.cwd w' = FS.cwd w ->
  (forall fi, fi ∈ all_members groups ->
     is_regular w (path fi) /\
     FS.nodes w' !! FS.abspath (path fi) w =
       FS.nodes w !! FS.abspath (path fi) w) ->
  all_doomed digest keep_newest w' groups =
  all_doomed digest keep_newest w groups.
Proof.
  intros Hcwd. unfold all_doomed, all_members.
  induction groups as [|[h files] groups IH]; intros Hall; [done|].
  simpl in *. rewrite (doomed_agree keep_newest w w' files Hcwd).
  - rewrite IH; [done|]. intros fi Hfi. apply Hall, elem_of_app. by right.
  - intros fi Hfi. apply Hall, elem_of_app. by left.
Qed.

(** The whole loop, on groups of regular files none of which is listed
    twice. *)
Lemma run_fs s keep_newest callback groups st :
  NoDup (member_keys (world st) (all_members groups)) ->
  (forall fi, fi ∈ all_members groups -> is_regular (world st) (path fi)) ->
  let out :=
    for_each_group
      (group_body (OS0 := FS.os digest) s keep_newest callback) groups st in
  ((s = Delete \/ forall g, g ∈ groups -> snd g <> []) -> fst out = None) /\
  only_nodes_differ (world st) (world (snd out)) /\
  same_off (member_keys (world st)
                        (all_doomed digest keep_newest (world st) groups))
           (world st) (world (snd out)) /\
  exists ds,
    details (res (snd out)) = details (res st) ++ ds /\
    (fst out = None ->
     map d_target ds =
       map path (all_doomed digest keep_newest (world st) groups)) /\
    forall d, d ∈ ds ->
      exists source,
        FS.abspath (d_target d) (world st)
          ∈ member_keys (world st)
                        (all_doomed digest keep_newest (world st) groups) /\
        (s <> Delete ->
         d_source d = Some source /\
         FS.abspath source (world st)
           ∈ member_keys (world st) (all_members groups) /\
         FS.abspath source (world st)
           ∉ member_keys (world st)
                         (all_doomed digest keep_newest (world st) groups)) /\
        exists chunk,
          effect s (world st) source d chunk
            (FS.nodes (world (snd out))
               !! FS.abspath (d_target d) (world st)).
Proof.
  revert st. induction groups as [|[h files] groups IH]; intros st Hnd Hreg.
  { simpl. split; [done|]. split; [apply only_nodes_differ_refl|].
    split; [apply same_off_refl|]. exists []. rewrite app_nil_r.
    split; [done|]. split; [done|]. intros d Hd. inversion Hd. }
  unfold all_members in Hnd, Hreg. simpl in Hnd, Hreg.
  fold (all_members groups) in Hnd, Hreg.
  rewrite member_keys_app in Hnd.
  apply NoDup_app in Hnd as (Hnd1 & Hdis & Hnd2).
  pose proof (group_fs s keep_newest callback st files Hnd1
                (fun fi Hfi => Hreg fi ltac:(apply elem_of_app; by left)))
    as Hgroup.
  assert (Hunf : all_doomed digest keep_newest (world st) ((h, files) :: groups)
                 = doomed digest keep_newest (world st) files ++
                   all_doomed digest keep_newest (world st) groups) by done.
  assert (Hmem : all_members ((h, files) :: groups)
                 = files ++ all_members groups) by done.
  rewrite Hunf, Hmem. clear Hunf Hmem.
  cbn [for_each_group].
  assert (Hka : forall l l' : list file_info,
            member_keys (world st) (l ++ l') =
            member_keys (world st) l ++ member_keys (world st) l')
    by apply member_keys_app.
  setoid_rewrite Hka. clear Hka.
  destruct (group_body s keep_newest callback st files) as [st1|e] eqn:Hb.
  2:{ destruct Hgroup as [Hs ->]. simpl. split.
      { intros [->|Hne]; [done|]. by destruct (Hne (h, []) ltac:(by left)). }
      split; [apply only_nodes_differ_refl|].
      split; [apply same_off_refl|]. exists []. rewrite app_nil_r.
      split; [done|]. split; [done|]. intros d Hd. inversion Hd. }
  destruct Hgroup as (Hfr1 & Hoff1 & ds1 & Hds1 & Hmap1 & Hall1).
  pose proof (proj1 Hoff1) as Hcwd.
  assert (Hdoomed_files : forall k,
            k ∈ member_keys (world st)
                  (doomed digest keep_newest (world st) files) ->
            k ∈ member_keys (world st) files).
  { apply member_keys_sub. intros fi. apply doomed_sub. }
  assert (Hdoomed_rest : forall k,
            k ∈ member_keys (world st)
                  (all_doomed digest keep_newest (world st) groups) ->
            k ∈ member_keys (world st) (all_members groups)).
  { apply member_keys_sub. intros fi. apply all_doomed_sub. }
  assert (Hrest_untouched : forall k,
            k ∈ member_keys (world st) (all_members groups) ->
            FS.nodes (world st1) !! k = FS.nodes (world st) !! k).
  { intros k Hk. destruct Hoff1 as [_ Hn1]. apply Hn1.
    intros Hin%Hdoomed_files. by apply (Hdis _ Hin). }
  specialize (IH st1). cbv zeta in IH.
  rewrite (member_keys_cwd _ _ _ Hcwd) in IH.
  rewrite (all_doomed_agree keep_newest (world st) (world st1) groups Hcwd)
    in IH.
  2:{ intros fi Hfi. split; [apply Hreg, elem_of_app; by right|].
      apply Hrest_untouched, list_elem_of_fmap. by exists fi. }
  rewrite (member_keys_cwd _ _ _ Hcwd) in IH.
  destruct IH as (Hret & Hfr2 & Hoff2 & ds2 & Hds2 & Hmap2 & Hall2);
    [done| |].
  { intros fi Hfi. apply (is_regular_same_off _ _ _ _ Hoff1).
    - intros Hin%Hdoomed_files. apply (Hdis _ Hin).
      apply list_elem_of_fmap. by exists fi.
    - apply Hreg, elem_of_app. by right. }
  set (out := for_each_group _ groups st1) in *.
  split.
  { intros Hs. apply Hret. destruct Hs as [?|Hne]; [by left|]. right.
    intros g Hg. apply Hne. by right. }
  split; [by apply (only_nodes_differ_trans _ (world st1))|].
  split; [by apply (same_off_trans _ _ _ _ _ Hoff1 Hoff2)|].
  exists (ds1 ++ ds2). split.
  { rewrite Hds2, Hds1. by rewrite <- app_assoc. }
  split.
  { intros Hnone. by rewrite !map_app, Hmap1, (Hmap2 Hnone). }
  intros d [Hd|Hd]%elem_of_app.
  - destruct (Hall1 d Hd) as (source & Hin & Hs & chunk & He).
    exists source. split; [apply elem_of_app; by left|]. split.
    + intros Hs'. destruct (Hs Hs') as (Hsrc & Hsin & Hsnot).
      split; [done|]. split; [apply elem_of_app; by left|].
      intros [Hc|Hc]%elem_of_app; [done|].
      apply (Hdis _ Hsin). by apply Hdoomed_rest.
    + exists chunk. destruct Hoff2 as [_ Hn2]. rewrite Hn2; [done|].
      intros Hc%Hdoomed_rest. apply Hdoomed_files in Hin.
      by apply (Hdis _ Hin).
  - destruct (Hall2 d Hd) as (source & Hin & Hs & chunk & He).
    rewrite (abspath_cwd _ _ _ Hcwd) in Hin, He.
    exists source. split; [apply elem_of_app; by right|]. split.
    + intros Hs'. destruct (Hs Hs') as (Hsrc & Hsin & Hsnot).
      rewrite (abspath_cwd _ _ _ Hcwd) in Hsin, Hsnot.
      split; [done|]. split; [apply elem_of_app; by right|].
      intros [Hc%Hdoomed_files|Hc]%elem_of_app; [|done].
      by apply (Hdis _ Hc).
    + exists chunk.
      apply (effect_transport s (world st) (world st1)); try done.
      * by apply Hrest_untouched, Hdoomed_rest.
      * intros Hs'. destruct (Hs Hs') as (_ & Hsin & _).
        rewrite (abspath_cwd _ _ _ Hcwd) in Hsin.
        by apply Hrest_untouched.
Qed.
End StrategyOnFS.

Section StrategyProperties.
Context {C : Type} (digest : string -> string).
Implicit Types (w : FS.t) (callback : option (string -> C -> C)).

Lemma all_doomed_app keep_newest w
    (l1 l2 : list (string * list file_info)) :
  all_doomed digest keep_newest w (l1 ++ l2) =
  all_doomed digest keep_newest w l1 ++ all_doomed digest keep_newest w l2.
Proof. unfold all_doomed. by rewrite flat_map_app. Qed.

Lemma all_members_app (l1 l2 : list (string * list file_info)) :
  all_members (l1 ++ l2) = all_members l1 ++ all_members l2.
Proof. unfold all_members. by rewrite map_app, concat_app. Qed.

(** The survivor of a group is none of the members any group gives up. *)
Lemma survivor_not_doomed keep_newest w groups h
    (files sorted : list file_info) survivor :
  NoDup (member_keys w (all_members groups)) ->
  (h, files) ∈ groups ->
  files_sorted (OS0 := FS.os digest) files w = Ok sorted ->
  source_file keep_newest sorted = Ok survivor ->
  FS.abspath survivor w ∈ member_keys w files /\
  FS.abspath survivor w
    ∉ member_keys w (all_doomed digest keep_newest w groups).
Proof.
  intros Hnd Hin Hsorted Hsrc.
  apply list_elem_of_split in Hin as (l1 & l2 & ->).
  rewrite all_members_app, member_keys_app in Hnd.
  change (all_members ((h, files) :: l2)) with (files ++ all_members l2)
    in Hnd.
  rewrite member_keys_app in Hnd.
  apply NoDup_app in Hnd as (_ & Hdis1 & Hnd).
  apply NoDup_app in Hnd as (Hndf & Hdis2 & _).
  assert (Hne : files <> []).
  { intros ->.
    destruct (sorted_split (OS0 := FS.os digest) _ _ keep_newest _ Hsorted)
      as [Hperm _].
    apply Permutation_nil_r in Hperm. subst sorted.
    by destruct keep_newest. }
  destruct (group_split digest keep_newest w files sorted Hsorted Hndf Hne)
    as (sv & Hsrc' & Hsv & _ & Hnot & _).
  rewrite Hsrc in Hsrc'. injection Hsrc' as ->.
  assert (Hkey : FS.abspath (path sv) w ∈ member_keys w files).
  { apply list_elem_of_fmap. by exists sv. }
  split; [done|].
  rewrite all_doomed_app, member_keys_app.
  change (all_doomed digest keep_newest w ((h, files) :: l2))
    with (doomed digest keep_newest w files ++
          all_doomed digest keep_newest w l2).
  rewrite member_keys_app. unfold doomed at 1. rewrite Hsorted.
  intros [Hc|[Hc|Hc]%elem_of_app]%elem_of_app.
  - apply (Hdis1 (FS.abspath (path sv) w)).
    + revert Hc. apply member_keys_sub. intros fi. apply all_doomed_sub.
    + apply elem_of_app. by left.
  - done.
  - apply (Hdis2 _ Hkey). revert Hc. apply member_keys_sub.
    intros fi. apply all_doomed_sub.
Qed.

(** On well-formed groups a strategy returns a result, unless a link
    strategy meets an empty group. *)
Lemma strategy_returns s directory duplicates keep_newest callback w
    (c : C) :
  let o := run_strategy (OS0 := FS.os digest) s directory duplicates
                        keep_newest callback w c in
  let groups :=
    given_or_found (OS0 := FS.os digest) directory duplicates w in
  well_formed_groups w groups ->
  (s = Delete \/ forall g, g ∈ groups -> snd g <> []) ->
  exists r, returned o = Ok r.
Proof.
  intros o groups (Habs & Hnd & Hreg) Hs. subst o.
  rewrite run_strategy_unfold. unfold consolidate. fold groups.
  set (st0 := State w [] c _).
  destruct (run_fs digest s keep_newest callback groups st0 Hnd Hreg)
    as (Hret & _).
  destruct (for_each_group _ groups st0) as [e st'] eqn:Hrun.
  simpl in Hret |- *. rewrite (Hret Hs). by eexists.
Qed.


(** X22.  No strategy touches a survivor or a file outside the groups.  On
    the file system, for groups of regular files none of which is listed
    twice: the run returns (for the link strategies, when no group is
    empty); it changes nothing but entries of members other than the
    survivors, so the survivor of every group is after the run the regular
    file it was before, and so is every file that is not a member. *)
Theorem consolidation_spares_survivors s directory duplicates keep_newest
    callback w (c : C) :
  let o := run_strategy (OS0 := FS.os digest) s directory duplicates
                        keep_newest callback w c in
  let groups :=
    given_or_found (OS0 := FS.os digest) directory duplicates w in
  well_formed_groups w groups ->
  ((s = Delete \/ forall g, g ∈ groups -> snd g <> []) ->
   exists r, returned o = Ok r) /\
  only_nodes_differ w (final_world o) /\
  same_off (member_keys w (all_doomed digest keep_newest w groups))
           w (final_world o) /\
  (forall h files sorted survivor,
     (h, files) ∈ groups ->
     files_sorted (OS0 := FS.os digest) files w = Ok sorted ->
     source_file keep_newest sorted = Ok survivor ->
     FS.nodes (final_world o) !! FS.abspath survivor w =
       FS.nodes w !! FS.abspath survivor w /\
     is_regular (final_world o) survivor) /\
  (forall p,
     FS.abspath p w ∉ member_keys w (all_members groups) ->
     FS.nodes (final_world o) !! FS.abspath p w =
       FS.nodes w !! FS.abspath p w).
Proof.
  intros o groups (Habs & Hnd & Hreg). subst o.
  rewrite run_strategy_unfold. unfold consolidate. fold groups.
  set (st0 := State w [] c _).
  destruct (run_fs digest s keep_newest callback groups st0 Hnd Hreg)
    as (Hret & Hfr & Hoff & _).
  destruct (for_each_group _ groups st0) as [e st'] eqn:Hrun.
  simpl in Hret, Hfr, Hoff |- *.
  split.
  { intros Hs. rewrite (Hret Hs). by eexists. }
  split; [done|]. split; [done|]. split.
  - intros h files sorted survivor Hin Hsorted Hsrc.
    destruct (survivor_not_doomed keep_newest w groups h files sorted
                survivor Hnd Hin Hsorted Hsrc) as [Hkey Hnot].
    destruct Hoff as [Hcwd Hn]. rewrite (Hn _ Hnot). split; [done|].
    apply list_elem_of_fmap in Hkey as (fi & Hk & Hfi).
    destruct (Hreg fi) as (data & mtime & readable & Hnode).
    { unfold all_members. apply list_elem_of_In, in_concat.
      exists files. split; [|by apply list_elem_of_In].
      apply in_map_iff. exists (h, files).
      split; [done|by apply list_elem_of_In]. }
    exists data, mtime, readable.
    rewrite (abspath_cwd _ _ _ Hcwd), (Hn _ Hnot), Hk. done.
  - intros p Hp. destruct Hoff as [_ Hn]. apply Hn. intros Hin. apply Hp.
    revert Hin. apply member_keys_sub. intros fi. apply all_doomed_sub.
Qed.

Lemma member_key_regular w (members : list file_info) key :
  (forall fi, fi ∈ members -> is_regular w (path fi)) ->
  key ∈ member_keys w members ->
  exists data mtime readable,
    FS.nodes w !! key = Some (FS.Regular data mtime readable).
Proof.
  intros Hreg (fi & -> & Hfi)%list_elem_of_fmap. by apply Hreg.
Qed.

(** What a returned result says of each member it lists, on well-formed
    groups: the member is a regular file given up by its group, the survivor
    named with it is another regular file that the run leaves as it was, and
    the member's entry ends as [effect] tells. *)
Lemma strategy_details s directory duplicates keep_newest callback w
    (c : C) r d :
  let o := run_strategy (OS0 := FS.os digest) s directory duplicates
                        keep_newest callback w c in
  let groups :=
    given_or_found (OS0 := FS.os digest) directory duplicates w in
  well_formed_groups w groups ->
  returned o = Ok r ->
  d ∈ details r ->
  exists source chunk,
    FS.abspath (d_target d) w
      ∈ member_keys w (all_doomed digest keep_newest w groups) /\
    FS.nodes w !! FS.abspath (d_target d) w <> None /\
    (s <> Delete ->
     d_source d = Some source /\
     FS.abspath source w <> FS.abspath (d_target d) w /\
     (exists data mtime readable,
        FS.nodes w !! FS.abspath source w =
          Some (FS.Regular data mtime readable)) /\
     FS.nodes (final_world o) !! FS.abspath source w =
       FS.nodes w !! FS.abspath source w) /\
    effect s w source d chunk
           (FS.nodes (final_world o) !! FS.abspath (d_target d) w).
Proof.
  intros o groups (Habs & Hnd & Hreg). subst o.
  rewrite run_strategy_unfold. unfold consolidate. fold groups.
  set (st0 := State w [] c _).
  destruct (run_fs digest s keep_newest callback groups st0 Hnd Hreg)
    as (_ & _ & Hoff & ds & Hds & _ & Hall).
  destruct (for_each_group _ groups st0) as [e st'] eqn:Hrun.
  simpl in Hoff, Hds, Hall |- *.
  destruct e as [e|]; [done|]. intros [= <-]. simpl. rewrite Hds.
  intros Hd. destruct (Hall d Hd) as (source & Hkey & Hsrc & chunk & Heff).
  exists source, chunk. split; [done|].
  assert (Hsub : forall key,
            key ∈ member_keys w (all_doomed digest keep_newest w groups) ->
            key ∈ member_keys w (all_members groups)).
  { intros key. apply member_keys_sub. intros fi. apply all_doomed_sub. }
  split.
  { destruct (member_key_regular w _ _ Hreg (Hsub _ Hkey))
      as (data & mtime & readable & ->). done. }
  split; [|done].
  intros Hs. destruct (Hsrc Hs) as (Hsome & Hmem & Hnot).
  split; [done|]. split.
  { intros Heq. apply Hnot. by rewrite Heq. }
  split; [by apply (member_key_regular w _ _ Hreg)|].
  destruct Hoff as [_ Hn]. by apply Hn.
Qed.

(** A returned result lists the members the groups give up, in the order
    of the run. *)
Lemma strategy_targets s directory duplicates keep_newest callback w
    (c : C) r :
  let o := run_strategy (OS0 := FS.os digest) s directory duplicates
                        keep_newest callback w c in
  let groups :=
    given_or_found (OS0 := FS.os digest) directory duplicates w in
  well_formed_groups w groups ->
  returned o = Ok r ->
  map d_target (details r) =
    map path (all_doomed digest keep_newest w groups).
Proof.
  intros o groups (Habs & Hnd & Hreg). subst o.
  rewrite run_strategy_unfold. unfold consolidate. fold groups.
  set (st0 := State w [] c _).
  destruct (run_fs digest s keep_newest callback groups st0 Hnd Hreg)
    as (_ & _ & _ & ds & Hds & Hmap & _).
  destruct (for_each_group _ groups st0) as [e st'] eqn:Hrun.
  simpl in Hds, Hmap |- *.
  destruct e as [e|]; [done|]. intros [= <-]. simpl. rewrite Hds.
  by apply Hmap.
Qed.

(** X23.  What deleting reports, on the file system.  For groups of
    regular files none of which is listed twice, the delete strategy
    returns a result that lists, in the order of the run, every member but
    the survivor of each group.  It reports success for a member exactly
    when the member's entry is gone afterwards; a member it failed on is
    read-only and still holds what it held. *)
Theorem delete_outcome_on_file_system directory duplicates keep_newest
    callback w (c : C) :
  let o := clean_duplicate_files (OS0 := FS.os digest) directory duplicates
                                 keep_newest callback w c in
  let groups :=
    given_or_found (OS0 := FS.os digest) directory duplicates w in
  well_formed_groups w groups ->
  exists r,
    returned o = Ok r /\
    map d_target (details r) =
      map path (all_doomed digest keep_newest w groups) /\
    forall d, d ∈ details r ->
      let key := FS.abspath (d_target d) w in
      key ∈ member_keys w (all_doomed digest keep_newest w groups) /\
      (d_success d = true <-> FS.nodes (final_world o) !! key = None) /\
      (d_success d = false ->
       key ∈ FS.protected w /\
       FS.nodes (final_world o) !! key = FS.nodes w !! key).
Proof.
  intros o groups Hwf.
  destruct (strategy_returns Delete directory duplicates
              keep_newest callback w c Hwf) as [r Hr]; [by left|].
  exists r. split; [done|].
  split; [exact (strategy_targets Delete directory duplicates keep_newest
                   callback w c r Hwf Hr)|].
  intros d Hd key.
  destruct (strategy_details Delete directory duplicates keep_newest
              callback w c r d Hwf Hr Hd)
    as (source & chunk & Hkey & Hbefore & _ & Heff).
  split; [done|]. unfold effect in Heff. fold key in Heff, Hbefore.
  change (final_world (run_strategy (OS0 := FS.os digest) Delete directory
            duplicates keep_newest callback w c)) with (final_world o)
    in Heff.
  destruct (d_success d).
  - destruct Heff as (-> & _). done.
  - destruct Heff as (-> & [Hnone|Hprot]); [done|].
    split; [|done]. split; [done|]. intros Hnone. done.
Qed.

(** X24.  A hard link that succeeded is a second name of the survivor.  For
    groups of regular files none of which is listed twice, each member the
    hard-link strategy reports as replaced names another regular file as
    its source, and afterwards the member's entry holds the very file of
    that source, content and modification time, while the source is
    unchanged: the member is no link, and its size and digest are the
    source's. *)
Theorem hardlink_shares_survivor directory duplicates keep_newest
    callback w (c : C) r d :
  let o := replace_duplicates_with_hardlinks (OS0 := FS.os digest)
             directory duplicates keep_newest callback w c in
  let groups :=
    given_or_found (OS0 := FS.os digest) directory duplicates w in
  well_formed_groups w groups ->
  returned o = Ok r ->
  d ∈ details r ->
  d_success d = true ->
  exists source data mtime readable,
    d_source d = Some source /\
    FS.abspath source w <> FS.abspath (d_target d) w /\
    FS.nodes w !! FS.abspath source w =
      Some (FS.Regular data mtime readable) /\
    FS.nodes (final_world o) !! FS.abspath source w =
      Some (FS.Regular data mtime readable) /\
    FS.nodes (final_world o) !! FS.abspath (d_target d) w =
      Some (FS.Regular data mtime readable).
Proof.
  intros o groups Hwf Hr Hd Hok.
  destruct (strategy_details Hardlink directory duplicates keep_newest
              callback w c r d Hwf Hr Hd)
    as (source & chunk & _ & _ & Hsrc & Heff).
  destruct Hsrc as (Hsome & Hne & (data & mtime & readable & Hnode) & Hsame);
    [done|].
  exists source, data, mtime, readable.
  change (final_world (run_strategy (OS0 := FS.os digest) Hardlink directory
            duplicates keep_newest callback w c)) with (final_world o)
    in Heff, Hsame.
  unfold effect in Heff. rewrite Hok in Heff. destruct Heff as (Hafter & _).
  rewrite Hafter, Hsame, Hnode. done.
Qed.

(** X25.  A hard link that failed.  For groups of regular files none of
    which is listed twice, a member the hard-link strategy reports as failed
    is in one of two states: it is read-only and still holds what it held,
    or it was removed and [os.link] then failed because the member and the
    surviving file are on different devices, so that the member's entry is
    gone although nothing replaced it.  The survivor is unchanged either
    way. *)
Theorem hardlink_failure_modes directory duplicates keep_newest
    callback w (c : C) r d :
  let o := replace_duplicates_with_hardlinks (OS0 := FS.os digest)
             directory duplicates keep_newest callback w c in
  let groups :=
    given_or_found (OS0 := FS.os digest) directory duplicates w in
  well_formed_groups w groups ->
  returned o = Ok r ->
  d ∈ details r ->
  d_success d = false ->
  exists source,
    let key := FS.abspath (d_target d) w in
    let skey := FS.abspath source w in
    d_source d = Some source /\
    FS.nodes (final_world o) !! skey = FS.nodes w !! skey /\
    FS.nodes w !! skey <> None /\
    ((key ∈ FS.protected w /\
      FS.nodes (final_world o) !! key = FS.nodes w !! key) \/
     ((key ∉ FS.protected w) /\
      FS.device w skey <> FS.device w key /\
      FS.nodes (final_world o) !! key = None)).
Proof.
  intros o groups Hwf Hr Hd Hfail.
  destruct (strategy_details Hardlink directory duplicates keep_newest
              callback w c r d Hwf Hr Hd)
    as (source & chunk & _ & Hbefore & Hsrc & Heff).
  destruct Hsrc as (Hsome & Hne & (data & mtime & readable & Hnode) & Hsame);
    [done|].
  exists source.
  change (final_world (run_strategy (OS0 := FS.os digest) Hardlink directory
            duplicates keep_newest callback w c)) with (final_world o)
    in Heff, Hsame.
  cbv zeta. split; [done|]. split; [done|].
  split; [by rewrite Hnode|].
  unfold effect in Heff. rewrite Hfail in Heff.
  destruct Heff as [(Hafter & [Hnone|Hprot] & _)
                   |(Hafter & _ & Hfree & [Hnone|[Heq|Hdev]] & _)].
  - done.
  - left. by rewrite Hafter.
  - by rewrite Hnode in Hnone.
  - done.
  - right. done.
Qed.
End StrategyProperties.

Section Rescan.
Context {C : Type} (digest : string -> string).
Implicit Types (w : FS.t) (callback : option (string -> C -> C)).







End Rescan.

(* ===================================================================== *)
(** * The further properties on sample inputs *)
(* ===================================================================== *)

Section MoreWorked.
Import Samples MoreSamples SizeUtils.

Lemma well_formed_check (w : FS.t) groups :
  well_formed_b w groups = true -> well_formed_groups w groups.
Proof.
  unfold well_formed_b.
  intros [[Habs Hnd]%andb_true_iff Hreg]%andb_true_iff.
  split; [done|]. split; [by apply bool_decide_eq_true in Hnd|].
  intros fi Hfi. rewrite forallb_forall in Hreg.
  specialize (Hreg fi ltac:(by apply list_elem_of_In)).
  unfold is_regular_b in Hreg. unfold is_regular.
  destruct (FS.nodes w !! FS.abspath (path fi) w) as [[data mtime rd|t]|];
    [by eexists _, _, _ | done | done].
Qed.

(** X3 on 12 kilobytes, written with blanks and in small letters. *)
Lemma parse_size_integer_witness :
  (12 < 2 ^ 53)%N /\ unit_multiplier (upper "kb") = Some 1024%N /\
  parse_size " 12  kb " = inr 12288%N.
Proof.
  split; [reflexivity|]. split; [reflexivity|].
  exact (parse_size_integer 12 "kb" 1024 " " "  " " "
           eq_refl eq_refl eq_refl eq_refl eq_refl).
Defined.

(** X4 on a number without a unit. *)
Lemma parse_size_invalid_format_witness :
  ascii_text " 12 " = true /\
  parse_size " 12 " = inl (InvalidSizeFormat "12").
Proof.
  split; [reflexivity|].
  destruct (parse_size_invalid_format " 12 " eq_refl)
    as (_ & _ & Hbare & _).
  exact (Hbare eq_refl).
Defined.

(** X5 on a unit that does not exist. *)
Lemma parse_size_unknown_unit_witness :
  ascii_text "5 xb" = true /\
  parse_size "5 xb" = inl (UnknownUnit "XB") /\
  (exists value, size_shape (upper (strip "5 xb")) value "XB") /\
  ~ In "XB" units.
Proof.
  split; [reflexivity|]. split; [reflexivity|].
  exact (proj1 (parse_size_unknown_unit "5 xb" "XB" eq_refl) eq_refl).
Defined.

(** X6 on a number with two dots. *)
Lemma parse_size_malformed_number_witness :
  ascii_text "1.2.3 KB" = true /\
  parse_size "1.2.3 KB" = inl (InvalidFloat "1.2.3") /\
  ~ decimal_literal "1.2.3".
Proof.
  split; [reflexivity|]. split; [reflexivity|].
  exact (proj2 (proj1 (parse_size_malformed_number "1.2.3 KB" "1.2.3"
                         eq_refl) eq_refl)).
Defined.

(** X7 on two spellings of ten megabytes. *)
Lemma parse_size_ignores_case_and_margins_witness :
  upper "10 mb" = upper "10 Mb" /\
  parse_size " 10 Mb  " = parse_size "10 mb".
Proof.
  split; [reflexivity|].
  exact (parse_size_ignores_case_and_margins "10 mb" "10 Mb" " " "  "
           eq_refl eq_refl eq_refl eq_refl eq_refl).
Defined.

(** X8 on [small] and [small_reordered]. *)
Lemma directory_size_order_independent_witness :
  os_walk (OS := Samples.os) "/d" small
    ≡ₚ os_walk (OS := Samples.os) "/d" small_reordered /\
  get_directory_size (OS0 := Samples.os) "/d" small =
  get_directory_size (OS0 := Samples.os) "/d" small_reordered.
Proof.
  assert (Hperm : os_walk (OS := Samples.os) "/d" small
                    ≡ₚ os_walk (OS := Samples.os) "/d" small_reordered).
  { vm_compute. apply perm_swap. }
  split; [exact Hperm|].
  refine (proj2 (directory_size_order_independent (OS0 := Samples.os)
                   "/d" small small_reordered Hperm _)).
  intros p _. by split.
Defined.

(** X12 on [small]: four files without extension, seven bytes. *)
Lemma file_types_summary_counts_witness :
  let summary := get_file_types_summary (OS0 := Samples.os) "/d" small in
  forallb ascii_text (os_walk (OS := Samples.os) "/d" small) = true /\
  sum_nat (map (fun e => ts_count (snd e)) summary) =
    length (non_links (OS0 := Samples.os) "/d" small) /\
  sum_N (map (fun e => ts_total_size_bytes (snd e)) summary) =
    get_directory_size (OS0 := Samples.os) "/d" small.
Proof.
  intros summary.
  assert (Hascii : forallb ascii_text (os_walk (OS := Samples.os) "/d" small)
                   = true) by (by vm_compute).
  split; [exact Hascii|].
  refine (proj2 (proj2 (file_types_summary_counts (OS0 := Samples.os)
                          "/d" small _))).
  intros p Hp. rewrite forallb_forall in Hascii.
  apply Hascii. by apply list_elem_of_In.
Defined.

(** X22 on [scenario], the hard-link strategy looking for the duplicates
    itself: B, the survivor, and C, which has no duplicate, are what they
    were. *)
Lemma consolidation_spares_survivors_witness :
  let o := replace_duplicates_with_hardlinks (OS0 := Samples.os) "/d" None
             true remember scenario [] in
  well_formed_groups scenario
    (given_or_found (OS0 := Samples.os) "/d" None scenario) /\
  only_nodes_differ scenario (final_world o) /\
  FS.nodes (final_world o) !! "/d/B" = FS.nodes scenario !! "/d/B" /\
  is_regular (final_world o) "/d/B" /\
  FS.nodes (final_world o) !! "/d/C" = FS.nodes scenario !! "/d/C".
Proof.
  intros o.
  assert (Hwf : well_formed_groups scenario
                  (given_or_found (OS0 := Samples.os) "/d" None scenario)).
  { apply found_groups_well_formed; [done | done |].
    apply (bool_decide_unpack _). by vm_compute. }
  split; [exact Hwf|].
  destruct (consolidation_spares_survivors FS.tagged_digest Hardlink "/d"
              None true remember scenario [] Hwf)
    as (_ & Hfr & _ & Hsv & Hother).
  split; [exact Hfr|].
  destruct (Hsv (FS.tagged_digest (kib "x"))
                [info "/d/A" 1024; info "/d/B" 1024]
                [info "/d/B" 1024; info "/d/A" 1024] "/d/B")
    as [HB HregB].
  { vm_compute. left. }
  { by vm_compute. }
  { done. }
  split; [exact HB|]. split; [exact HregB|].
  apply (Hother "/d/C"). apply (bool_decide_unpack _). by vm_compute.
Defined.

(** X23 on [locked]: [q] and [p] are listed; [q] is gone, [p] is not. *)
Lemma delete_outcome_on_file_system_witness :
  let o := clean_duplicate_files (OS0 := Samples.os) "/d" (Some group_pqr)
             true remember locked [] in
  well_formed_groups locked group_pqr /\
  exists r,
    returned o = Ok r /\
    map d_target (details r) = ["/d/q"; "/d/p"] /\
    forall d, d ∈ details r ->
      (d_success d = true <->
       FS.nodes (final_world o) !! FS.abspath (d_target d) locked = None).
Proof.
  intros o.
  assert (Hwf : well_formed_groups locked group_pqr)
    by (by apply well_formed_check).
  split; [exact Hwf|].
  destruct (delete_outcome_on_file_system FS.tagged_digest "/d"
              (Some group_pqr) true remember locked [] Hwf)
    as (r & Hr & Ht & Hd).
  exists r. split; [exact Hr|]. split.
  - etrans; [exact Ht|]. by vm_compute.
  - intros d Hin. exact (proj1 (proj2 (Hd d Hin))).
Defined.

(** X24 on [scenario]: after the run A names the file of B. *)
Lemma hardlink_shares_survivor_witness :
  let o := replace_duplicates_with_hardlinks (OS0 := Samples.os) "/d" None
             true remember scenario [] in
  let d := {| d_source := Some "/d/B"; d_target := "/d/A";
              d_size_bytes := 1024; d_size := "1.00 KB";
              d_success := true; d_error := None |} in
  well_formed_groups scenario
    (given_or_found (OS0 := Samples.os) "/d" None scenario) /\
  returned o = Ok scenario_result /\
  d ∈ details scenario_result /\
  exists source data mtime readable,
    d_source d = Some source /\
    FS.abspath source scenario <> FS.abspath (d_target d) scenario /\
    FS.nodes scenario !! FS.abspath source scenario =
      Some (FS.Regular data mtime readable) /\
    FS.nodes (final_world o) !! FS.abspath source scenario =
      Some (FS.Regular data mtime readable) /\
    FS.nodes (final_world o) !! FS.abspath (d_target d) scenario =
      Some (FS.Regular data mtime readable).
Proof.
  intros o d.
  assert (Hwf : well_formed_groups scenario
                  (given_or_found (OS0 := Samples.os) "/d" None scenario)).
  { apply found_groups_well_formed; [done | done |].
    apply (bool_decide_unpack _). by vm_compute. }
  assert (Hr : returned o = Ok scenario_result) by (by vm_compute).
  assert (Hd : d ∈ details scenario_result) by left.
  split; [exact Hwf|]. split; [exact Hr|]. split; [exact Hd|].
  exact (hardlink_shares_survivor FS.tagged_digest "/d" None true remember
           scenario [] scenario_result d Hwf Hr Hd eq_refl).
Defined.

(** X25 on [two_devices]: [a] was removed, the link from [a] to [b] could
    not be made, and [a] is gone. *)
Lemma hardlink_failure_modes_witness :
  let o := replace_duplicates_with_hardlinks (OS0 := Samples.os) "/"
             (Some group_mn) true remember two_devices [] in
  let d := {| d_source := Some "/n/b"; d_target := "/m/a";
              d_size_bytes := 2; d_size := "2 B"; d_success := false;
              d_error := Some "Invalid cross-device link" |} in
  well_formed_groups two_devices group_mn /\
  returned o = Ok two_devices_result /\
  d ∈ details two_devices_result /\
  exists source,
    d_source d = Some source /\
    FS.nodes (final_world o) !! FS.abspath source two_devices =
      FS.nodes two_devices !! FS.abspath source two_devices /\
    FS.nodes two_devices !! FS.abspath source two_devices <> None /\
    (("/m/a" ∈ FS.protected two_devices /\
      FS.nodes (final_world o) !! "/m/a" = FS.nodes two_devices !! "/m/a") \/
     (("/m/a" ∉ FS.protected two_devices) /\
      FS.device two_devices (FS.abspath source two_devices)
        <> FS.device two_devices "/m/a" /\
      FS.nodes (final_world o) !! "/m/a" = None)).
Proof.
  intros o d.
  assert (Hwf : well_formed_groups two_devices group_mn)
    by (by apply well_formed_check).
  assert (Hr : returned o = Ok two_devices_result) by (by vm_compute).
  assert (Hd : d ∈ details two_devices_result) by left.
  split; [exact Hwf|]. split; [exact Hr|]. split; [exact Hd|].
  exact (hardlink_failure_modes FS.tagged_digest "/" (Some group_mn) true
           remember two_devices [] two_devices_result d Hwf Hr Hd eq_refl).
Defined.

End MoreWorked.
